(** * funcbuilder.py_dot: the deferred-expression interpreter

    A shallow embedding of [funcbuilder/py_dot.py] (environments, path-based
    attribute mutation, the function-call dispatcher, conditions, loops and
    class scopes) together with the fragment of [funcbuilder/__init__.py]
    (the [FuncBuilder] expression objects) that the interpreter evaluates.

    Conventions of the embedding.
    - Host exceptions are values of [exn], one constructor per exception
      class; a computation returns [res A]: a value, a raised exception, or
      [OutOfFuel] when the bound given to a host loop or recursion is used up.
    - Mutable host objects (environments, class scopes, plain instances,
      types) live in a [heap] and are referred to by location, so that
      aliasing is visible.
    - Names are ASCII strings; integers are unbounded ([Z]).
    - Behaviour of the host that lies outside the modelled fragment of
      values and attributes is reported as [Raise Unmodelled], never guessed.
    - A computation that raises returns the exception only: the heap at the
      time of the raise is not kept.
    - [OInstance] is an instance of a class that defines nothing of its
      own: every attribute it has is in its own dictionary.
    - Generators follow the semantics of the interpreters the module was
      written for (Python 3.0 to 3.6): a [StopIteration] escaping from
      [next] inside a generator body ends the generator. *)

From Stdlib Require Import ZArith String Ascii List Bool Lia.
From stdpp Require Import base option list gmap strings.

Set Warnings "-register-all".
Local Open Scope string_scope.
Local Open Scope list_scope.

(** ** Results and exceptions *)

Inductive type_error :=
| ExpectedUnpack (lsu lu : nat)   (* 'Expected %s values to unpack, got %s' *)
| ExpectedArguments (lsa la : nat) (* 'Expected %s arguments, got %s' *)
| NoLen                            (* object of type ... has no len() *)
| NotIterable                      (* ... object is not iterable *)
| NotCallable                      (* ... object is not callable *)
| MissingArgument                  (* <lambda>() missing 1 required argument *)
| MultipleValues                   (* got multiple values for argument 'self' *)
| BadOperand.                      (* unsupported operand type(s) *)

Inductive exn :=
| TypeError (m : type_error)
| ValueError
| KeyError (k : string)
| AttributeError (name : string)
| IndexError
| StopIteration
| ZeroDivisionError
| Unmodelled.

Inductive res (A : Type) :=
| Ok (a : A)
| Raise (e : exn)
| OutOfFuel.
Arguments Ok {A} a.
Arguments Raise {A} e.
Arguments OutOfFuel {A}.

Definition bind {A B} (f : A -> res B) (m : res A) : res B :=
  match m with
  | Ok a => f a
  | Raise e => Raise e
  | OutOfFuel => OutOfFuel
  end.

#[export] Instance res_ret : MRet res := @Ok.
#[export] Instance res_bind : MBind res := @bind.

(** The two failures raised by the arity checks of [Function.__call__]. *)
Definition is_Arity (e : exn) : bool :=
  match e with
  | TypeError (ExpectedUnpack _ _) | TypeError (ExpectedArguments _ _) => true
  | _ => false
  end.

(** ** Values

    [FuncBuilder] objects hold a host closure in [self.func]; the closures
    the class creates have four shapes, one per [lambda] in its source, and
    are represented by the data they capture. *)

Inductive operator := op_add | op_sub | op_mul | op_pow | op_eq | op_ne.

Inductive getter := attrgetter (name : string).

Inductive value :=
| VNone
| VUdef                         (* the [udef] singleton *)
| VBool (b : bool)
| VInt (z : Z)
| VStr (s : string)
| VList (l : list value)        (* a list or tuple *)
| VRef (l : nat)                (* a mutable object on the heap *)
| VFB (fb : FuncBuilder)
with FuncBuilder :=
| mkFB (func : closure) (var_cnt : nat)
with closure :=
| Identity                                             (* lambda x: x *)
| Decorated (out : getter) (self : FuncBuilder)        (* lambda x: out(self(x)) *)
| OperFunc (oper : operator) (self : FuncBuilder) (n : list value)
                                                       (* lambda x: oper(self.func(x), *n) *)
| OperRFunc (oper : operator) (n : value) (self : FuncBuilder).
                                                       (* lambda x: oper(n, self.func(x)) *)

Definition func (fb : FuncBuilder) : closure := let 'mkFB f _ := fb in f.
Definition var_cnt (fb : FuncBuilder) : nat := let 'mkFB _ c := fb in c.

(** ** The heap of mutable objects *)

Inductive env_class := EnvironmentCls | ClassCls.

Inductive obj :=
| OInstance (attrs : gmap string value)
    (* an instance of a plain class: its instance dictionary *)
| OEnvironment (cls : env_class) (d : gmap string value) (attrs : gmap string value)
    (* an [Environment] (or [Class]) instance: [self.d] and the rest of its
       instance dictionary ([last]; for [Class] also [name], [bases], [parent]) *)
| OType (name : string) (bases : list value) (dict : gmap string value).
    (* the result of [type(name, bases, dict)] *)

Abbreviation heap := (list obj).

Definition alloc (h : heap) (o : obj) : nat * heap := (List.length h, h ++ [o]).

(** ** [re.findall(r'\w+?(?=__|$)', attr)] and [re.sub(r'^__', '', x)] *)

Definition is_word (c : ascii) : bool :=
  let n := nat_of_ascii c in
  (Nat.leb 48 n && Nat.leb n 57) || (Nat.leb 65 n && Nat.leb n 90)
  || (Nat.leb 97 n && Nat.leb n 122) || Nat.eqb n 95.

Definition dunder_prefix (s : string) : bool := String.prefix "__" s.

(** The lookahead [(?=__|$)]: [$] matches at the end of the string and just
    before a newline that ends it. *)
Definition lookahead (s : string) : bool :=
  dunder_prefix s || String.eqb s "" || String.eqb s (String "010"%char "").

(** [\w+?] followed by the lookahead, matched at the start of [s]: the
    shortest non-empty run of word characters after which the lookahead
    holds, with what follows it. *)
Fixpoint lazy_word (s : string) : option (string * string) :=
  match s with
  | EmptyString => None
  | String c r =>
      if is_word c then
        if lookahead r then Some (String c "", r)
        else match lazy_word r with
             | Some (m, r') => Some (String c m, r')
             | None => None
             end
      else None
  end.

(** The scan of [findall]: try at the current position, resume after a
    match, else move one character on. *)
Fixpoint findall_from (fuel : nat) (s : string) : list string :=
  match fuel with
  | O => []
  | S fuel' =>
      match lazy_word s with
      | Some (m, r) => m :: findall_from fuel' r
      | None => match s with
                | EmptyString => []
                | String _ r => findall_from fuel' r
                end
      end
  end.

Definition re_findall (attr : string) : list string :=
  findall_from (S (String.length attr)) attr.

Definition re_sub_dunder (x : string) : string :=
  match x with
  | String "_" (String "_" r) => r
  | _ => x
  end.


(** ** Host primitives on values *)

(** [s.endswith('__')] *)
Fixpoint dunder_suffix (s : string) : bool :=
  match s with
  | EmptyString => false
  | String _ s' => String.eqb s "__" || dunder_suffix s'
  end.

(** Names of the form [__x__]: the host defines attributes of this form on
    every object (and gives some a meaning in a class namespace). *)
Definition is_dunder (s : string) : bool := dunder_prefix s && dunder_suffix s.

(** Attributes found on an [Environment] by ordinary lookup in its class:
    the methods and class attributes of its source, and the host's own. *)
Definition Environment_class_attr (name : string) : bool :=
  is_dunder name
  || bool_decide (name ∈ ["set"; "def_"; "class_"; "print"; "_repr_args"]).

Definition as_int (v : value) : option Z :=
  match v with
  | VInt z => Some z
  | VBool b => Some (if b then 1 else 0)%Z
  | _ => None
  end.

(** Truth value of a concrete value, as tested by [if]. *)
Definition truthy (v : value) : bool :=
  match v with
  | VNone => false
  | VUdef => true
  | VBool b => b
  | VInt z => negb (z =? 0)%Z
  | VStr s => negb (String.eqb s "")
  | VList l => match l with [] => false | _ => true end
  | VRef _ => true
  | VFB _ => true
  end.

(** [len(v)] and [iter(v)] on the modelled values. *)
Definition py_len (v : value) : res nat :=
  match v with
  | VList l => Ok (List.length l)
  | VStr s => Ok (String.length s)
  | VRef _ | VFB _ => Raise Unmodelled
  | _ => Raise (TypeError NoLen)
  end.

Definition py_iter (v : value) : res (list value) :=
  match v with
  | VList l => Ok l
  | VStr s => Ok (map (fun c => VStr (String c "")) (list_ascii_of_string s))
  | VRef _ | VFB _ => Raise Unmodelled
  | _ => Raise (TypeError NotIterable)
  end.

(** [a == b] on concrete values.  Sequences are not compared: [VList] stands
    for lists and tuples alike, which the host tells apart. *)
Definition py_eq (a b : value) : res bool :=
  match a, b with
  | VRef _, _ | _, VRef _ | VFB _, _ | _, VFB _ => Raise Unmodelled
  | VList _, VList _ => Raise Unmodelled
  | VNone, VNone | VUdef, VUdef => Ok true
  | VStr s, VStr t => Ok (String.eqb s t)
  | _, _ => match as_int a, as_int b with
            | Some x, Some y => Ok (x =? y)%Z
            | _, _ => Ok false
            end
  end.

(** ** FuncBuilder (funcbuilder/__init__.py) *)

(** [FuncBuilder.__init__(self, func=None, op=None, parent=None)]; the [op]
    list only serves [__repr__] and is left out. *)
Definition FuncBuilder_init (func : option closure) (parent : option FuncBuilder)
  : FuncBuilder :=
  mkFB (default Identity func)
       (match parent with Some p => var_cnt p | None => 1 end).

(** [var = funcbuilder.FuncBuilder()] *)
Definition var : FuncBuilder := FuncBuilder_init None None.

(** [FuncBuilder.attr], decorated by [function]:
    [type(self)(lambda x: out(self(x)), op, self)] with
    [out = operator.attrgetter(name)].  It is what [var.name] calls when
    [name] is not an attribute of [FuncBuilder] itself. *)
Definition FuncBuilder_attr (self : FuncBuilder) (name : string) : FuncBuilder :=
  FuncBuilder_init (Some (Decorated (attrgetter name) self)) (Some self).

(** [func(self, *n, oper)] of [MetaFuncBuilder]: the operator methods
    [__add__], [__eq__], ... *)
Definition FuncBuilder_func (self : FuncBuilder) (n : list value) (oper : operator)
  : FuncBuilder :=
  let obj := FuncBuilder_init (Some (OperFunc oper self n)) (Some self) in
  match n with
  | VFB _ :: _ => mkFB (func obj) (var_cnt obj + 1)
  | _ => obj
  end.

(** [rfunc(self, n, oper)]: the reflected operator methods [__radd__], ... *)
Definition FuncBuilder_rfunc (self : FuncBuilder) (n : value) (oper : operator)
  : FuncBuilder :=
  FuncBuilder_init (Some (OperRFunc oper n self)) (Some self).

Definition is_comparison (oper : operator) : bool :=
  match oper with op_eq | op_ne => true | _ => false end.

(** [oper(a, b)] for the functions of the [operator] module: the host tries
    the method of the left operand, then the reflected method of the right
    one. *)
Definition py_oper (oper : operator) (a b : value) : res value :=
  match a, b with
  | VFB fa, _ => Ok (VFB (FuncBuilder_func fa [b] oper))
  | VRef _, _ => Raise Unmodelled
  | _, VFB fb =>
      if is_comparison oper then Ok (VFB (FuncBuilder_func fb [a] oper))
      else Ok (VFB (FuncBuilder_rfunc fb a oper))
  | _, _ =>
      match oper with
      | op_eq => r ← py_eq a b; Ok (VBool r)
      | op_ne => r ← py_eq a b; Ok (VBool (negb r))
      | _ =>
          match as_int a, as_int b with
          | Some x, Some y =>
              match oper with
              | op_add => Ok (VInt (x + y))
              | op_sub => Ok (VInt (x - y))
              | op_mul => Ok (VInt (x * y))
              | _ => if (0 <=? y)%Z then Ok (VInt (x ^ y))
                     else if (x =? 0)%Z then Raise ZeroDivisionError
                     else Raise Unmodelled
              end
          | _, _ => Raise Unmodelled
          end
      end
  end.

(** ** Attribute access on heap objects *)

Definition is_ClassCls (c : env_class) : bool :=
  match c with ClassCls => true | EnvironmentCls => false end.

(** [setattr(o, name, v)].  Only heap objects take new attributes. *)
Definition py_setattr (h : heap) (o : value) (name : string) (v : value) : res heap :=
  match o with
  | VRef l =>
      if is_dunder name then Raise Unmodelled
      else match h !! l with
           | Some (OInstance attrs) => Ok (<[l := OInstance (<[name := v]> attrs)]> h)
           | Some (OEnvironment cls d attrs) =>
               if String.eqb name "d" then Raise Unmodelled
               else if is_ClassCls cls && String.eqb name "end"
                    then Raise (AttributeError name)   (* a property without setter *)
               else Ok (<[l := OEnvironment cls d (<[name := v]> attrs)]> h)
           | Some (OType nm bases dict) =>
               Ok (<[l := OType nm bases (<[name := v]> dict)]> h)
           | None => Raise Unmodelled
           end
  | VFB _ => Raise Unmodelled
  | _ => Raise (AttributeError name)
  end.

(** *** real_attribute *)

(** The condition under which [real_attribute] uses [attr] as a literal key:
    [attr == '$' or (names[0].startswith('__') and names[-1] == '__')
     or len(names) == 1]. *)
Definition literal_key (attr : string) (names : list string) : res bool :=
  if String.eqb attr "$" then Ok true
  else match names with
       | [] => Raise IndexError
       | n0 :: _ =>
           Ok (dunder_prefix n0 && bool_decide (last names = Some "__")
               || Nat.eqb (List.length names) 1)
       end.

(** The loop building [fixed_names]: [pending] is [Some name] while the
    inner [while x == '_'] is waiting for the next element of the shared
    iterator [it]; running out of elements there is a [StopIteration]. *)
Fixpoint fixed_names_loop (pending : option string) (it : list string)
  : res (list string) :=
  match it with
  | [] => match pending with
          | Some _ => Raise StopIteration
          | None => Ok []
          end
  | x :: it' =>
      let name := String.append (default "" pending) (re_sub_dunder x) in
      if String.eqb x "_" then fixed_names_loop (Some name) it'
      else rest ← fixed_names_loop None it'; Ok (name :: rest)
  end.

(** [*getters, setter = fixed_names] *)
Definition unpack_last {A} (l : list A) : res (list A * A) :=
  match last l with
  | Some x => Ok (removelast l, x)
  | None => Raise ValueError
  end.

Definition self_to_dollar (s : string) : string :=
  if String.eqb s "self" then "$" else s.

Section RealAttribute.
(** [getattr] of the host, for the heap at hand. *)
Variable getattr : value -> string -> res value.

Fixpoint getattr_chain (o : value) (getters : list string) : res value :=
  match getters with
  | [] => Ok o
  | name :: getters' => o' ← getattr o name; getattr_chain o' getters'
  end.

(** [real_attribute(dic, attr, value, do_set)] where [dic] is the
    dictionary [d] of the environment at location [l].  In get mode the
    heap is returned unchanged. *)
Definition real_attribute (h : heap) (l : nat) (attr : string)
    (val : value) (do_set : bool) : res (value * heap) :=
  match h !! l with
  | Some (OEnvironment cls dic attrs) =>
      let attr := self_to_dollar attr in
      let names := re_findall attr in
      lit ← literal_key attr names;
      if (lit : bool) then
        if do_set then
          Ok (VNone, <[l := OEnvironment cls (<[attr := val]> dic) attrs]> h)
        else match dic !! attr with
             | Some v => Ok (v, h)
             | None => Raise (KeyError attr)
             end
      else
        match names with
        | [] => Raise ValueError
        | obj :: names =>
            let obj := self_to_dollar obj in
            match dic !! obj with
            | None => Raise (KeyError obj)
            | Some obj =>
                fixed_names ← fixed_names_loop None names;
                '(getters, setter) ← unpack_last fixed_names;
                obj_to_handle ← getattr_chain obj getters;
                if do_set then
                  h' ← py_setattr h obj_to_handle setter val; Ok (VNone, h')
                else
                  v ← getattr obj_to_handle setter; Ok (v, h)
            end
        end
  | _ => Raise Unmodelled
  end.

(** [Environment.__getattr__(self, name)] for the environment at [l]. *)
Definition Environment_getattr (h : heap) (l : nat) (name : string) : res value :=
  match h !! l with
  | Some (OEnvironment _ d _) =>
      match real_attribute h l name VNone false with
      | Ok (v, _) => Ok v
      | Raise (KeyError _) =>
          match d !! "__parent__" with
          | None | Some VNone => Raise (AttributeError name)
          | Some parent => getattr parent name
          end
      | Raise e => Raise e
      | OutOfFuel => OutOfFuel
      end
  | _ => Raise Unmodelled
  end.
End RealAttribute.

(** [getattr(o, name)]: ordinary lookup in the instance and its class, then
    the [__getattr__] hook.  [k] bounds the walk along parents and paths. *)
Fixpoint py_getattr (k : nat) (h : heap) (o : value) (name : string) : res value :=
  match k with
  | O => OutOfFuel
  | S k' =>
      match o with
      | VRef l =>
          match h !! l with
          | Some (OInstance attrs) =>
              if is_dunder name then Raise Unmodelled
              else match attrs !! name with
                   | Some v => Ok v
                   | None => Raise (AttributeError name)
                   end
          | Some (OEnvironment cls d attrs) =>
              if String.eqb name "d" then Raise Unmodelled
              else if is_ClassCls cls && String.eqb name "end" then Raise Unmodelled
              else match attrs !! name with
                   | Some v => Ok v
                   | None =>
                       if Environment_class_attr name then Raise Unmodelled
                       else Environment_getattr (py_getattr k' h) h l name
                   end
          | _ => Raise Unmodelled
          end
      | _ => Raise Unmodelled
      end
  end.

(** The loop of [Environment.set]: the bindings are applied in order. *)
Fixpoint Environment_set_loop (k : nat) (h : heap) (l : nat) (kw : list (string * value))
  : res heap :=
  match kw with
  | [] => Ok h
  | (key, v) :: kw' =>
      '(_, h') ← real_attribute (py_getattr k h) h l key v true;
      Environment_set_loop k h' l kw'
  end.

Definition has_key (key : string) (kw : list (string * value)) : bool :=
  existsb (fun p => String.eqb (fst p) key) kw.

(** [Environment.set(self, **kw)].  A keyword named [self] collides with
    the receiver: the host refuses the call before the body runs. *)
Definition Environment_set (k : nat) (h : heap) (l : nat) (kw : list (string * value))
  : res heap :=
  if has_key "self" kw then Raise (TypeError MultipleValues)
  else Environment_set_loop k h l kw.

(** [Environment()]: a fresh environment with an empty dictionary and
    [last = udef]. *)
Definition Environment_init (h : heap) : nat * heap :=
  alloc h (OEnvironment EnvironmentCls ∅ {[ "last" := VUdef ]}).

(** ** Evaluating deferred expressions *)

Definition has_dot (name : string) : bool :=
  match String.index 0 "." name with Some _ => true | None => false end.

Section Evaluate.
Variable k : nat.
Variable h : heap.

(** [self.func(x)] for each shape of closure.  In [Decorated], [self(x)]
    is [FuncBuilder.__call__] with one argument, which returns
    [self.func(x)]. *)
Fixpoint apply_closure (c : closure) (x : value) : res value :=
  match c with
  | Identity => Ok x
  | Decorated (attrgetter name) self =>
      r ← apply_closure (func self) x;
      if has_dot name then Raise Unmodelled else py_getattr k h r name
  | OperFunc oper self n =>
      r ← apply_closure (func self) x;
      match n with
      | [b] => py_oper oper r b
      | _ => Raise Unmodelled
      end
  | OperRFunc oper n self =>
      r ← apply_closure (func self) x;
      py_oper oper n r
  end.

(** [FuncBuilder.__call__(self, *args)]; calling the intermediate result
    [out( *args)] is again this method when [out] is a [FuncBuilder]. *)
Fixpoint FuncBuilder_call (self : FuncBuilder) (args : list value) : res value :=
  match args with
  | [] => Raise (TypeError MissingArgument)
  | required :: args =>
      out ← apply_closure (func self) required;
      match args with
      | [] => Ok out
      | _ => match out with
             | VFB fb => FuncBuilder_call fb args
             | VRef _ => Raise Unmodelled
             | _ => Raise (TypeError NotCallable)
             end
      end
  end.

(** [FuncBuilder.do(self, arg)] with [n = None] and [cycle = False]. *)
Definition FuncBuilder_do (self : FuncBuilder) (arg : value) : res value :=
  FuncBuilder_call self (repeat arg (var_cnt self)).
End Evaluate.

(** [calculate(data, environ)]: [k] bounds the [while] loop. *)
Fixpoint calculate (k : nat) (h : heap) (data : value) (environ : value) : res value :=
  match data with
  | VFB fb =>
      match k with
      | O => OutOfFuel
      | S k' => data' ← FuncBuilder_do k' h fb environ; calculate k' h data' environ
      end
  | _ => Ok data
  end.

(** ** Dictionaries of keyword arguments (insertion ordered) *)

(** [kw.pop(key, udef)] *)
Definition dict_pop (key : string) (kw : list (string * value))
  : value * list (string * value) :=
  (default VUdef (snd <$> List.find (fun p => String.eqb (fst p) key) kw),
   List.filter (fun p => negb (String.eqb (fst p) key)) kw).

(** [kw[key] = v]: an existing key keeps its place. *)
Fixpoint dict_setitem (key : string) (v : value) (kw : list (string * value))
  : list (string * value) :=
  match kw with
  | [] => [(key, v)]
  | (k', v') :: kw' =>
      if String.eqb k' key then (k', v) :: kw' else (k', v') :: dict_setitem key v kw'
  end.

(** [dict(pairs)] *)
Definition dict_of (pairs : list (string * value)) : list (string * value) :=
  fold_left (fun d p => dict_setitem (fst p) (snd p) d) pairs [].

(** [zip(a, b)] is [combine]. *)

(** [fix_self(args)] on parameter names, as [Function.__init__] uses it. *)
Definition fix_self_names (args : list string) : list string :=
  map self_to_dollar args.

(** [fix_self(args, kw)] on the arguments of a call: the new [args], and
    [kw] after its in-place update. *)
Definition fix_self_arg (x : value) : value :=
  match x with
  | VStr s => VStr (self_to_dollar s)     (* x if x != 'self' else '$' *)
  | _ => x
  end.

Definition fix_self (args : list value) (kw : list (string * value))
  : list value * list (string * value) :=
  let args := map fix_self_arg args in
  let '(x, kw') := dict_pop "self" kw in
  match x with
  | VUdef => (args, kw')
  | _ => (args, dict_setitem "$" x kw')
  end.

(** ** Code objects, functions, conditions and loops *)

Inductive Code :=
| Code_update (data : list (string * value))    (* Code('update', kw) *)
| Code_push (data : value)                      (* Code('push', expr) *)
| Code_ret                                      (* Code('ret') *)
| Code_condition (data : Condition)             (* Code('condition', cond) *)
| Code_loop (data : Loop)                       (* Code('loop', loop) *)
| Code_other (opcode : string)                  (* any other opcode *)
with Condition :=
| mkCondition (expr_if : list value) (code_if : list (list Code))
              (code_else : list Code)
with Loop :=
| mkLoop (data : list (string * value)) (code : list Code).

Definition expr_if (c : Condition) := let 'mkCondition e _ _ := c in e.
Definition code_if (c : Condition) := let 'mkCondition _ ci _ := c in ci.
Definition code_else (c : Condition) := let 'mkCondition _ _ ce := c in ce.
Definition loop_data (l : Loop) := let 'mkLoop d _ := l in d.
Definition loop_code (l : Loop) := let 'mkLoop _ c := l in c.

Record Function := mkFunction {
  Function_name : string;
  Function_args : list string;
  Function_unpack : option (list string);
  Function_environ : value;
  Function_code : list Code
}.

(** [Function.__init__(self, name, *args, unpack=None, environ=None)] with
    [unpack] already a tuple of names. *)
Definition Function_init (name : string) (args : list string)
    (unpack : option (list string)) (environ : value) : Function :=
  mkFunction name (fix_self_names args) unpack environ [].

(** [Function.set], [Function.ret]: the definition-time appends. *)
Definition Function_set (self : Function) (kw : list (string * value)) : Function :=
  mkFunction (Function_name self) (Function_args self) (Function_unpack self)
             (Function_environ self) (Function_code self ++ [Code_update kw]).

Definition Function_ret (self : Function) (expr : value) : Function :=
  mkFunction (Function_name self) (Function_args self) (Function_unpack self)
             (Function_environ self) (Function_code self ++ [Code_push expr; Code_ret]).

(** [Condition.code_to_exec(self, environ)]: the loop over
    [zip(self.expr_if, self.code_if)]. *)
Fixpoint code_to_exec_loop (k : nat) (h : heap) (environ : value)
    (branches : list (value * list Code)) (code_else : list Code)
  : res (list Code) :=
  match branches with
  | [] => Ok code_else
  | (expr, code) :: branches' =>
      r ← calculate k h expr environ;
      if truthy r then Ok code
      else code_to_exec_loop k h environ branches' code_else
  end.

Definition Condition_code_to_exec (k : nat) (h : heap) (self : Condition)
    (environ : value) : res (list Code) :=
  code_to_exec_loop k h environ (combine (expr_if self) (code_if self))
                    (code_else self).

(** [LoopIter]: [name], the iterator over the source, and the body. *)
Record LoopIter := mkLoopIter {
  li_name : string;
  li_iterator : list value;
  li_code : list Code
}.

(** [LoopIter.__next__]: [chain(set_name, self.code)], given as its first
    instruction (the one of [set_name]) and the rest; [None] is
    [StopIteration]. *)
Definition LoopIter_next (self : LoopIter) : option (Code * list Code * LoopIter) :=
  match li_iterator self with
  | [] => None
  | x :: it =>
      Some (Code_update [(li_name self, x)], li_code self,
            mkLoopIter (li_name self) it (li_code self))
  end.

(** [Loop.block_to_exec(self, environ)] *)
Definition Loop_block_to_exec (k : nat) (h : heap) (self : Loop) (environ : value)
  : res LoopIter :=
  match loop_data self with
  | [] => Raise StopIteration
  | (name, v) :: _ =>
      v ← calculate k h v environ;
      it ← py_iter v;
      Ok (mkLoopIter name it (loop_code self))
  end.

(** ** CodeIter: the instruction stream

    [ci_code] is the sequence held by the [InsertIter] ([self.code]),
    [ci_loop] the slot [self.loop], a reference into the [LoopIter] objects
    [ci_loops] created so far, and [ci_frame] the point where the generator
    [CodeIter.__iter__] is suspended: at the top of its [while True] (also
    its state before the first [next]), or inside [for obj in loop] for the
    [LoopIter] it is iterating, with the instructions of the current round
    still to be yielded. *)

Inductive frame :=
| AtTop
| InFor (l : nat) (rest : list Code).

Record CodeIter := mkCodeIter {
  ci_code : list Code;
  ci_loop : option nat;
  ci_loops : list LoopIter;
  ci_frame : frame
}.

(** [CodeIter(code)] *)
Definition CodeIter_init (code : list Code) : CodeIter :=
  mkCodeIter code None [] AtTop.

(** [CodeIter.insert(code)]: [InsertIter.insert] chains [code] before the
    rest of the sequence. *)
Definition CodeIter_insert (self : CodeIter) (code : list Code) : CodeIter :=
  mkCodeIter (code ++ ci_code self) (ci_loop self) (ci_loops self) (ci_frame self).

(** [CodeIter.create_loop(loop)] for a new [LoopIter] object. *)
Definition CodeIter_create_loop (self : CodeIter) (loop : LoopIter) : CodeIter :=
  mkCodeIter (ci_code self) (Some (List.length (ci_loops self)))
             (ci_loops self ++ [loop]) (ci_frame self).

(** [yield next(self.code)]: the generator ends when the sequence does. *)
Definition yield_next_code (self : CodeIter) : option (Code * CodeIter) :=
  match ci_code self with
  | [] => None
  | c :: code' =>
      Some (c, mkCodeIter code' (ci_loop self) (ci_loops self) AtTop)
  end.

(** One round of [for loop in <LoopIter l>]: ask it for the next [loop] and
    yield the first instruction of that chain; when it is exhausted the
    [for] ends and the generator goes on to [yield next(self.code)]. *)
Definition for_loop_in (self : CodeIter) (l : nat) : option (Code * CodeIter) :=
  match ci_loops self !! l with
  | Some li =>
      match LoopIter_next li with
      | Some (obj, rest, li') =>
          Some (obj, mkCodeIter (ci_code self) (ci_loop self)
                                (<[l := li']> (ci_loops self)) (InFor l rest))
      | None => yield_next_code self
      end
  | None => yield_next_code self
  end.

(** [next] on the generator [CodeIter.__iter__]; [None] when it ends. *)
Definition CodeIter_next (self : CodeIter) : option (Code * CodeIter) :=
  match ci_frame self with
  | InFor l (obj :: rest) =>
      Some (obj, mkCodeIter (ci_code self) (ci_loop self) (ci_loops self)
                            (InFor l rest))
  | InFor l [] => for_loop_in self l
  | AtTop =>
      match ci_loop self with
      | Some l => for_loop_in self l
      | None => yield_next_code self     (* iter(None): TypeError, caught *)
      end
  end.

(** ** Function.__call__ *)

(** The dictionary comprehension [{k: calculate(v, e) for k, v in data.items()}] *)
Fixpoint calculate_items (k : nat) (h : heap) (e : value) (data : list (string * value))
  : res (list (string * value)) :=
  match data with
  | [] => Ok []
  | (key, v) :: data' =>
      v' ← calculate k h v e;
      rest ← calculate_items k h e data';
      Ok ((key, v') :: rest)
  end.

(** The dispatcher [for opc, data in code: ...] of [Function.__call__], for
    the call environment at location [e]; [n] bounds the number of
    instructions drawn, [k] the evaluation of each expression.  The result
    carries the heap at the time of return. *)
Fixpoint Function_run (k n : nat) (h : heap) (e : nat) (stack : list value)
    (code : CodeIter) : res (value * heap) :=
  match n with
  | O => OutOfFuel
  | S n' =>
      match CodeIter_next code with
      | None => Ok (VNone, h)
      | Some (Code_update data, code) =>
          kw ← calculate_items k h (VRef e) data;
          h' ← Environment_set k h e (dict_of kw);
          Function_run k n' h' e stack code
      | Some (Code_push data, code) =>
          v ← calculate k h data (VRef e);
          Function_run k n' h e (stack ++ [v]) code
      | Some (Code_ret, code) =>
          match last stack with
          | Some v => Ok (v, h)
          | None => Raise IndexError
          end
      | Some (Code_condition data, code) =>
          body ← Condition_code_to_exec k h data (VRef e);
          Function_run k n' h e stack (CodeIter_insert code body)
      | Some (Code_loop data, code) =>
          loop ← Loop_block_to_exec k h data (VRef e);
          Function_run k n' h e stack (CodeIter_create_loop code loop)
      | Some (Code_other _, code) => Raise ValueError
      end
  end.

(** The binding of arguments in [Function.__call__] (up to [e.set( **kw)]):
    the location of the new environment and the heap holding it. *)
Definition Function_bind (k : nat) (self : Function) (args : list value)
    (kw : list (string * value)) (h : heap) : res (nat * heap) :=
  if has_key "self" kw then Raise (TypeError MultipleValues) else
  let '(args, kw) := fix_self args kw in
  let '(e, h) := Environment_init h in
  h ← Environment_set k h e [("__parent__", Function_environ self)];
  '(args, h) ←
    match Function_unpack self with
    | None => Ok (args, h)
    | Some unpack =>
        '(args, unpack_args) ← unpack_last args;
        let lsu := List.length unpack in
        lu ← py_len unpack_args;
        if negb (Nat.eqb lsu lu) then Raise (TypeError (ExpectedUnpack lsu lu))
        else
          elems ← py_iter unpack_args;
          h ← Environment_set k h e (dict_of (combine unpack elems));
          Ok (args, h)
    end;
  let la := (List.length args + List.length kw)%nat in
  let lsa := List.length (Function_args self) in
  if negb (Nat.eqb lsa la) then Raise (TypeError (ExpectedArguments lsa la))
  else
    h ← Environment_set k h e (dict_of (combine (Function_args self) args));
    h ← Environment_set k h e kw;
    Ok (e, h).

(** [Function.__call__(self, *args, **kw)] *)
Definition Function_call (k n : nat) (self : Function) (args : list value)
    (kw : list (string * value)) (h : heap) : res (value * heap) :=
  '(e, h) ← Function_bind k self args kw h;
  Function_run k n h e [] (CodeIter_init (Function_code self)).

(** ** The definition-time builder of Condition

    During definition [self.code] is an alias of one of the lists of the
    condition: [code_if[i]], [code_else], or (after [end]) a fresh list that
    no branch holds.  [cb_code] records which. *)

Inductive branch :=
| InIf (i : nat)
| InElse
| Detached (code : list Code).

Record CondBuilder := mkCondBuilder {
  cb_expr_if : list value;
  cb_code_if : list (list Code);
  cb_code_else : list Code;
  cb_code : branch
}.

(** [Condition.__init__(self, expression, parent)] *)
Definition Condition_init (expression : value) : CondBuilder :=
  mkCondBuilder [expression] [[]] [] (InIf 0).

(** [self.code.append(c)] *)
Definition Condition_append (self : CondBuilder) (c : list Code) : CondBuilder :=
  match cb_code self with
  | InIf i =>
      mkCondBuilder (cb_expr_if self)
                    (alter (fun b => b ++ c) i (cb_code_if self))
                    (cb_code_else self) (InIf i)
  | InElse =>
      mkCondBuilder (cb_expr_if self) (cb_code_if self)
                    (cb_code_else self ++ c) InElse
  | Detached l =>
      mkCondBuilder (cb_expr_if self) (cb_code_if self)
                    (cb_code_else self) (Detached (l ++ c))
  end.

(** [set] and [ret], inherited from [Function] *)
Definition Condition_set (self : CondBuilder) (kw : list (string * value)) :=
  Condition_append self [Code_update kw].

Definition Condition_ret (self : CondBuilder) (expr : value) :=
  Condition_append self [Code_push expr; Code_ret].

(** [Condition.elif_(self, expr)] *)
Definition Condition_elif_ (self : CondBuilder) (expr : value) : CondBuilder :=
  mkCondBuilder (cb_expr_if self ++ [expr]) (cb_code_if self ++ [[]])
                (cb_code_else self) (InIf (List.length (cb_code_if self))).

(** [Condition.else_] *)
Definition Condition_else_ (self : CondBuilder) : CondBuilder :=
  mkCondBuilder (cb_expr_if self) (cb_code_if self) (cb_code_else self) InElse.

(** [Condition.end]: [self.code = []]; the condition stays in the code of
    its parent. *)
Definition Condition_end (self : CondBuilder) : Condition :=
  mkCondition (cb_expr_if self) (cb_code_if self) (cb_code_else self).

(** ** Class scopes *)

(** [Class(name, bases, parent)] *)
Definition Class_init (h : heap) (name : string) (bases : list value) (parent : value)
  : nat * heap :=
  alloc h (OEnvironment ClassCls ∅
             (<["name" := VStr name]> (<["bases" := VList bases]>
               (<["parent" := parent]> {[ "last" := VUdef ]})))).

Definition is_type (h : heap) (v : value) : bool :=
  match v with
  | VRef l => match h !! l with Some (OType _ _ _) => true | _ => false end
  | _ => false
  end.

(** [type(name, bases, dict)] of the host, for a namespace without the keys
    the host gives a meaning at class creation, and at most one base. *)
Definition py_type (h : heap) (name bases : value) (dict : gmap string value)
  : res (nat * heap) :=
  match name, bases with
  | VStr nm, VList bs =>
      if bool_decide (is_Some (dict !! "__slots__") ∨ is_Some (dict !! "__qualname__")
                      ∨ is_Some (dict !! "__classcell__"))
      then Raise Unmodelled
      else match bs with
           | [] => Ok (alloc h (OType nm bs dict))
           | [b] => if is_type h b then Ok (alloc h (OType nm bs dict))
                    else Raise Unmodelled
           | _ => Raise Unmodelled
           end
  | _, _ => Raise Unmodelled
  end.

(** The instance attribute [self.<name>] of a class scope. *)
Definition instance_attr (attrs : gmap string value) (name : string) : res value :=
  match attrs !! name with
  | Some v => Ok v
  | None => Raise Unmodelled
  end.

(** [Class.end] for the class scope at [l]: the value returned and the heap. *)
Definition Class_end (k : nat) (h : heap) (l : nat) : res (value * heap) :=
  match h !! l with
  | Some (OEnvironment ClassCls d attrs) =>
      name ← instance_attr attrs "name";
      bases ← instance_attr attrs "bases";
      parent ← instance_attr attrs "parent";
      '(c, h) ← py_type h name bases d;
      let cls := VRef c in
      match parent with
      | VNone => Ok (cls, h)
      | VRef p =>
          match h !! p, name with
          | Some (OEnvironment _ _ pattrs), VStr nm =>
              if bool_decide (is_Some (pattrs !! "set")) then Raise Unmodelled
              else h ← Environment_set k h p [(nm, cls)]; Ok (parent, h)
          | _, _ => Raise Unmodelled
          end
      | _ => Raise Unmodelled
      end
  | _ => Raise Unmodelled
  end.

(** Induction over values, expression objects and closures together. *)
Scheme value_mut := Induction for value Sort Prop
  with FuncBuilder_mut := Induction for FuncBuilder Sort Prop
  with closure_mut := Induction for closure Sort Prop.

(** ** Observations used in the statements *)

(** [isinstance(data, funcbuilder.FuncBuilder)] *)
Definition isinstance_FuncBuilder (data : value) : bool :=
  match data with VFB _ => true | _ => false end.

(** The value bound to [key] in the dictionary of the environment at [e]. *)
Definition binding (h : heap) (e : nat) (key : string) : option value :=
  match h !! e with
  | Some (OEnvironment _ d _) => d !! key
  | _ => None
  end.

Definition val_of (r : res (value * heap)) : res value :=
  '(v, _) ← r; Ok v.

(** The successive values of [data] in the loop of [calculate]: from [v],
    evaluating with bound [k], the loop stops at the concrete value [w]. *)
Inductive reduces (k : nat) (h : heap) (environ : value) : value → value → Prop :=
| reduces_concrete v :
    isinstance_FuncBuilder v = false → reduces k h environ v v
| reduces_step fb v w :
    FuncBuilder_do k h fb environ = Ok v →
    reduces k h environ v w →
    reduces k h environ (VFB fb) w.

(** The dispatcher as the specification words it, with a single-slot
    accumulator in place of the stack: a Push overwrites the slot, a Return
    yields what the slot holds. *)
Fixpoint Dispatcher_spec (k n : nat) (h : heap) (e : nat) (acc : option value)
    (code : CodeIter) : res (value * heap) :=
  match n with
  | O => OutOfFuel
  | S n' =>
      match CodeIter_next code with
      | None => Ok (VNone, h)
      | Some (Code_update data, code) =>
          kw ← calculate_items k h (VRef e) data;
          h' ← Environment_set k h e (dict_of kw);
          Dispatcher_spec k n' h' e acc code
      | Some (Code_push data, code) =>
          v ← calculate k h data (VRef e);
          Dispatcher_spec k n' h e (Some v) code
      | Some (Code_ret, code) =>
          match acc with
          | Some v => Ok (v, h)
          | None => Raise IndexError
          end
      | Some (Code_condition data, code) =>
          body ← Condition_code_to_exec k h data (VRef e);
          Dispatcher_spec k n' h e acc (CodeIter_insert code body)
      | Some (Code_loop data, code) =>
          loop ← Loop_block_to_exec k h data (VRef e);
          Dispatcher_spec k n' h e acc (CodeIter_create_loop code loop)
      | Some (Code_other _, code) => Raise ValueError
      end
  end.

(** [r'] is [r], unless [r] ran out of fuel. *)
Definition refines {A} (r r' : res A) : Prop := r ≠ OutOfFuel → r' = r.

(** The dispatcher of the specification, one instruction at a time: a
    state is the heap, the single-slot accumulator and the stream, and a
    step is an instruction that is neither a Return nor the end of the
    stream.  A Push puts its value in the slot, whatever the slot held. *)
Inductive Dispatcher_step (k : nat) (e : nat)
  : heap * option value * CodeIter → heap * option value * CodeIter → Prop :=
| step_update h acc ci data ci' kw h' :
    CodeIter_next ci = Some (Code_update data, ci') →
    calculate_items k h (VRef e) data = Ok kw →
    Environment_set k h e (dict_of kw) = Ok h' →
    Dispatcher_step k e (h, acc, ci) (h', acc, ci')
| step_push h acc ci data ci' v :
    CodeIter_next ci = Some (Code_push data, ci') →
    calculate k h data (VRef e) = Ok v →
    Dispatcher_step k e (h, acc, ci) (h, Some v, ci')
| step_condition h acc ci data ci' body :
    CodeIter_next ci = Some (Code_condition data, ci') →
    Condition_code_to_exec k h data (VRef e) = Ok body →
    Dispatcher_step k e (h, acc, ci) (h, acc, CodeIter_insert ci' body)
| step_loop h acc ci data ci' loop :
    CodeIter_next ci = Some (Code_loop data, ci') →
    Loop_block_to_exec k h data (VRef e) = Ok loop →
    Dispatcher_step k e (h, acc, ci) (h, acc, CodeIter_create_loop ci' loop).

(** [m] steps in a row. *)
Inductive Dispatcher_steps (k : nat) (e : nat)
  : nat → heap * option value * CodeIter → heap * option value * CodeIter → Prop :=
| steps_none s : Dispatcher_steps k e 0 s s
| steps_more m s1 s2 s3 :
    Dispatcher_step k e s1 s2 →
    Dispatcher_steps k e m s2 s3 →
    Dispatcher_steps k e (S m) s1 s3.

(** ** The programs of the module's own tests *)

(** [var.<name>] *)
Definition var_ (name : string) : FuncBuilder := FuncBuilder_attr var name.

(** An environment binding [x = 2], [y = 3], [z = 4]. *)
Definition xyz_heap : heap :=
  [OEnvironment EnvironmentCls
     (<["x" := VInt 2]> (<["y" := VInt 3]> (<["z" := VInt 4]> ∅)))
     {[ "last" := VUdef ]}].

(** [var.x + var.y * var.z], the expression named in [calculate]. *)
Definition x_plus_y_times_z : FuncBuilder :=
  FuncBuilder_func (var_ "x")
    [VFB (FuncBuilder_func (var_ "y") [VFB (var_ "z")] op_mul)] op_add.

(** The condition of the test [foo]:
    [if_(var.x).ret(var.x + var.y).elif_(var.x == None).ret(var.y + 1)
     .else_.ret(var.y).end] *)
Definition foo_condition : Condition :=
  mkCondition
    [VFB (var_ "x"); VFB (FuncBuilder_func (var_ "x") [VNone] op_eq)]
    [[Code_push (VFB (FuncBuilder_func (var_ "x") [VFB (var_ "y")] op_add)); Code_ret];
     [Code_push (VFB (FuncBuilder_func (var_ "y") [VInt 1] op_add)); Code_ret]]
    [Code_push (VFB (var_ "y")); Code_ret].

(** [foo = Function('foo', 'x', 'y').if_(...) ... .end.end] *)
Definition foo : Function :=
  mkFunction "foo" ["x"; "y"] None VNone [Code_condition foo_condition].

(** A predicate that reduces to a false, respectively true, value. *)
Definition falsy (k : nat) (h : heap) (environ : value) (expr : value) : Prop :=
  ∃ v, calculate k h expr environ = Ok v ∧ truthy v = false.

Definition truthful (k : nat) (h : heap) (environ : value) (expr : value) : Prop :=
  ∃ v, calculate k h expr environ = Ok v ∧ truthy v = true.

(** The next [n] instructions of a stream that nothing touches meanwhile,
    and the stream after them. *)
Fixpoint draw (n : nat) (ci : CodeIter) : list Code * CodeIter :=
  match n with
  | O => ([], ci)
  | S n' =>
      match CodeIter_next ci with
      | None => ([], ci)
      | Some (c, ci') => let '(cs, ci'') := draw n' ci' in (c :: cs, ci'')
      end
  end.

(** [Function('f', 'x', 'y').ret(var.x)] *)
Definition ret_x : Function :=
  Function_ret (Function_init "f" ["x"; "y"] None VNone) (VFB (var_ "x")).

(** [Function('f', 'x', unpack=('a', 'b'))] *)
Definition with_unpack : Function :=
  Function_init "f" ["x"] (Some ["a"; "b"]) VNone.

(** A key that [real_attribute] uses as it stands. *)
Definition plain_key (attr : string) : bool :=
  negb (String.eqb attr "self")
  && match literal_key attr (re_findall attr) with
     | Ok true => true
     | _ => false
     end.

(** [d[k] = v] for the bindings [kw], in order. *)
Definition bind_all (d : gmap string value) (kw : list (string * value))
  : gmap string value :=
  fold_left (fun d p => <[fst p := snd p]> d) kw d.

(** [Function('f', 'x', unpack=('a__b',))] *)
Definition unpack_path : Function :=
  Function_init "f" ["x"] (Some ["a__b"]) VNone.

(** The effect on the heap and the stack of a block of Update and Push
    instructions run in order for the call environment [e], as the
    dispatcher runs them; a block holding another instruction has none. *)
Fixpoint run_straight (k : nat) (e : nat) (cs : list Code) (st : heap * list value)
  : res (heap * list value) :=
  match cs with
  | [] => Ok st
  | Code_update data :: cs' =>
      kw ← calculate_items k (fst st) (VRef e) data;
      h' ← Environment_set k (fst st) e (dict_of kw);
      run_straight k e cs' (h', snd st)
  | Code_push data :: cs' =>
      v ← calculate k (fst st) data (VRef e);
      run_straight k e cs' (fst st, snd st ++ [v])
  | _ => Raise Unmodelled
  end.

(** One run of "bind [name] to the element, then the body" per element of
    [xs], in order. *)
Fixpoint run_rounds (k : nat) (e : nat) (name : string) (body : list Code)
    (xs : list value) (st : heap * list value) : res (heap * list value) :=
  match xs with
  | [] => Ok st
  | x :: xs' =>
      st' ← run_straight k e (Code_update [(name, x)] :: body) st;
      run_rounds k e name body xs' st'
  end.

(** No loop is waiting: the generator is at the top of its [while] and the
    [LoopIter] in [self.loop], if any, is exhausted. *)
Definition idle (ci : CodeIter) : Prop :=
  ci_frame ci = AtTop
  ∧ ∀ l li, ci_loop ci = Some l → ci_loops ci !! l = Some li → li_iterator li = [].

(** The test [bar]:
    [Function('bar', 'x').set(w = 0).for_(i = var.x)
       .set(w = var.w + var.i ** 2).end.ret(var.w + 12).end] *)
Definition bar_body : list Code :=
  [Code_update
     [("w", VFB (FuncBuilder_func (var_ "w")
                   [VFB (FuncBuilder_func (var_ "i") [VInt 2] op_pow)] op_add))]].

Definition bar : Function :=
  mkFunction "bar" ["x"] None VNone
    [Code_update [("w", VInt 0)];
     Code_loop (mkLoop [("i", VFB (var_ "x"))] bar_body);
     Code_push (VFB (FuncBuilder_func (var_ "w") [VInt 12] op_add));
     Code_ret].

(** A loop in the body of a loop:
    [Function('nest', 'x').set(w = 0).for_(i = var.x).for_(j = var.x)
       .set(w = var.w + 1).end.end.ret(var.w).end] *)
Definition nest : Function :=
  mkFunction "nest" ["x"] None VNone
    [Code_update [("w", VInt 0)];
     Code_loop (mkLoop [("i", VFB (var_ "x"))]
       [Code_loop (mkLoop [("j", VFB (var_ "x"))]
          [Code_update [("w", VFB (FuncBuilder_func (var_ "w") [VInt 1] op_add))]])]);
     Code_push (VFB (var_ "w"));
     Code_ret].

(** [Function('f', 'x').for_(i = var.x).end.ret(var.i)] *)
Definition loop_then_read : Function :=
  mkFunction "f" ["x"] None VNone
    [Code_loop (mkLoop [("i", VFB (var_ "x"))] []);
     Code_push (VFB (var_ "i"));
     Code_ret].

(** Ordinary lookup of [name] on an [Environment] instance finds nothing,
    so that [getattr] falls back on [Environment.__getattr__]. *)
Definition reaches_hook (cls : env_class) (attrs : gmap string value) (name : string)
  : bool :=
  negb (String.eqb name "d")
  && negb (is_ClassCls cls && String.eqb name "end")
  && bool_decide (attrs !! name = None)
  && negb (Environment_class_attr name).

(** A parent environment at location 0 and, at location 1, the class scope
    [class_('Foo')] opened in it, holding the binding [x = 1]. *)
Definition Foo_heap : heap :=
  let h := snd (Environment_init []) in
  let h := snd (Class_init h "Foo" [] (VRef 0)) in
  match Environment_set 0 h 1 [("x", VInt 1)] with
  | Ok h => h
  | _ => h
  end.

(** An environment at location 0 binding [_] and [a] to the plain object at
    location 1. *)
Definition underscore_heap : heap :=
  [OEnvironment EnvironmentCls
     (<["_" := VRef 1]> (<["a" := VRef 1]> ∅)) {[ "last" := VUdef ]};
   OInstance ∅].

(** The scopes reached from the environment at [l] by following
    [__parent__], up to a scope without parent. *)
Inductive scope_chain (h : heap) : nat → list nat → Prop :=
| chain_root l cls d attrs :
    h !! l = Some (OEnvironment cls d attrs) →
    d !! "__parent__" = None ∨ d !! "__parent__" = Some VNone →
    scope_chain h l [l]
| chain_parent l cls d attrs p ps :
    h !! l = Some (OEnvironment cls d attrs) →
    d !! "__parent__" = Some (VRef p) →
    scope_chain h p ps →
    scope_chain h l (l :: ps).

(** The first binding of [name] along a list of scopes. *)
Fixpoint chain_lookup (h : heap) (name : string) (ls : list nat) : option value :=
  match ls with
  | [] => None
  | l :: ls' =>
      match binding h l name with
      | Some v => Some v
      | None => chain_lookup h name ls'
      end
  end.

(** [name] is no attribute of the environment object at [l] itself. *)
Definition hook_reached_at (h : heap) (name : string) (l : nat) : Prop :=
  match h !! l with
  | Some (OEnvironment cls _ attrs) => reaches_hook cls attrs name = true
  | _ => False
  end.

(** A scope at location 0 whose parent is the empty scope at location 1. *)
Definition child_parent_heap : heap :=
  [OEnvironment EnvironmentCls {[ "__parent__" := VRef 1 ]} {[ "last" := VUdef ]};
   OEnvironment EnvironmentCls ∅ {[ "last" := VUdef ]}].

(** A name made of word characters only. *)
Fixpoint word_string (s : string) : bool :=
  match s with
  | EmptyString => true
  | String c s' => is_word c && word_string s'
  end.

(** The heap during a call of [bar] on [x]: the call environment at
    location 0, with [w] bound to [a] and the loop variable [i] to [oi],
    if it is bound at all. *)
Definition bar_heap (x : value) (a : Z) (oi : option value) : heap :=
  let d0 : gmap string value := <["x" := x]> {[ "__parent__" := VNone ]} in
  [OEnvironment EnvironmentCls
     (<["w" := VInt a]> (match oi with Some v => <["i" := v]> d0 | None => d0 end))
     {[ "last" := VUdef ]}].

(** [w = w + i ** 2] for [i] in [xs], from [w = a]. *)
Definition sum_squares (xs : list Z) (a : Z) : Z :=
  fold_left (fun w i => w + i ^ 2)%Z xs a.

(** The binding of the loop variable after a loop over [xs]. *)
Definition last_bound (xs : list Z) (oi : option value) : option value :=
  fold_left (fun _ i => Some (VInt i)) xs oi.

(** [Function('f', 'x', 'y').ret(var.x).ret(var.y)] *)
Definition ret_twice : Function :=
  Function_ret (Function_ret (Function_init "f" ["x"; "y"] None VNone) (VFB (var_ "x")))
               (VFB (var_ "y")).

(** [Function('f', 'x').set(w=var.x)] *)
Definition set_only : Function :=
  Function_set (Function_init "f" ["x"] None VNone) [("w", VFB (var_ "x"))].

(** A function whose code holds two Pushes before its Return: such code is
    built by hand, [ret] appending a Push and a Return together. *)
Definition push_twice : Function :=
  mkFunction "f" ["x"; "y"] None VNone
    [Code_push (VFB (var_ "x")); Code_push (VFB (var_ "y")); Code_ret;
     Code_update [("x", VInt 0)]].

(** ** Arithmetic expressions over [var]

    What a user writes with [var.attr(name)], integer literals and the
    operators [+], [-] and [*]. *)

Inductive expr :=
| e_int (z : Z)
| e_var (name : string)
| e_bin (oper : operator) (a b : expr).

(** The operators of the fragment. *)
Definition arith_oper (oper : operator) : bool :=
  match oper with
  | op_add | op_sub | op_mul => true
  | _ => false
  end.

Fixpoint arith_expr (e : expr) : bool :=
  match e with
  | e_bin oper a b => arith_oper oper && arith_expr a && arith_expr b
  | _ => true
  end.

(** The object the host builds when it evaluates the expression at
    definition time: the operands left to right, then the operator, which
    the host dispatches to [__add__], [__radd__], ... as [py_oper] does. *)
Fixpoint expr_value (e : expr) : res value :=
  match e with
  | e_int z => Ok (VInt z)
  | e_var name => Ok (VFB (var_ name))
  | e_bin oper a b =>
      va ← expr_value a;
      vb ← expr_value b;
      py_oper oper va vb
  end.

(** The integer the expression stands for when [name] stands for
    [rho name]. *)
Definition oper_Z (oper : operator) (x y : Z) : Z :=
  match oper with
  | op_add => x + y
  | op_sub => x - y
  | op_mul => x * y
  | _ => 0
  end%Z.

Fixpoint expr_denote (rho : string → Z) (e : expr) : Z :=
  match e with
  | e_int z => z
  | e_var name => rho name
  | e_bin oper a b => oper_Z oper (expr_denote rho a) (expr_denote rho b)
  end.

Fixpoint expr_vars (e : expr) : list string :=
  match e with
  | e_int _ => []
  | e_var name => [name]
  | e_bin _ a b => expr_vars a ++ expr_vars b
  end.

(** [fb] yields the integer [z] after exactly [d] calls with [env], the
    calls before the last one each yielding another expression object; and
    [fb] asks [do] for no more than [d] calls. *)
Fixpoint yields_after (k : nat) (h : heap) (env : value) (d : nat)
    (fb : FuncBuilder) (z : Z) : Prop :=
  match d with
  | O => False
  | S d' =>
      (1 ≤ var_cnt fb ≤ S d')%nat
      ∧ match d' with
        | O => apply_closure k h (func fb) env = Ok (VInt z)
        | S _ => ∃ fb', apply_closure k h (func fb) env = Ok (VFB fb')
                        ∧ yields_after k h env d' fb' z
        end
  end.

(** [kw.get(key)] on a dictionary of keyword arguments. *)
Definition dict_get (key : string) (kw : list (string * value)) : option value :=
  snd <$> List.find (fun p => String.eqb (fst p) key) kw.

(** A name fit for a parameter or a variable of a function body: a literal
    key without dot that is no attribute of an [Environment] object. *)
Definition simple_name (x : string) : bool :=
  plain_key x && negb (has_dot x)
  && reaches_hook EnvironmentCls {[ "last" := VUdef ]} x.

(** Instructions that bind literal keys only, at any depth. *)
Inductive plain_code : Code → Prop :=
| plain_update data :
    Forall (λ p, plain_key (fst p) = true) data → plain_code (Code_update data)
| plain_push data : plain_code (Code_push data)
| plain_ret : plain_code Code_ret
| plain_condition c :
    Forall (Forall plain_code) (code_if c) →
    Forall plain_code (code_else c) →
    plain_code (Code_condition c)
| plain_loop l :
    (∀ name v rest, loop_data l = (name, v) :: rest → plain_key name = true) →
    Forall plain_code (loop_code l) →
    plain_code (Code_loop l)
| plain_other opcode : plain_code (Code_other opcode).

(** The same for a stream of instructions: what is left of the sequence,
    the loops registered so far and the round being yielded. *)
Definition plain_iter (ci : CodeIter) : Prop :=
  Forall plain_code (ci_code ci)
  ∧ Forall (λ li, plain_key (li_name li) = true ∧ Forall plain_code (li_code li))
           (ci_loops ci)
  ∧ match ci_frame ci with
    | AtTop => True
    | InFor _ rest => Forall plain_code rest
    end.

(** The closure environment [environ] binds [x] to [v], where lookup
    through [getattr] finds it. *)
Definition closure_binds (h : heap) (environ : value) (x : string) (v : value) : Prop :=
  simple_name x = true
  ∧ ∃ p cls d attrs,
      environ = VRef p
      ∧ h !! p = Some (OEnvironment cls d attrs)
      ∧ reaches_hook cls attrs x = true
      ∧ d !! x = Some v.

(** The environment of the module's first test after
    [set(a = 1).set(b = e.a + 1)]. *)
Definition ab_heap : heap :=
  [OEnvironment EnvironmentCls (<["a" := VInt 1]> (<["b" := VInt 2]> ∅))
     {[ "last" := VUdef ]}].

(** [Function.call(self, *args, **kw)]:
    [self.environ.last = self( *args, **kw); return self.environ] *)
Definition Function_dot_call (k n : nat) (self : Function) (args : list value)
    (kw : list (string * value)) (h : heap) : res (value * heap) :=
  '(v, h) ← Function_call k n self args kw h;
  h ← py_setattr h (Function_environ self) "last" v;
  Ok (Function_environ self, h).

(** [Lambda( *args, unpack=unpack)]: a [Function] named [<Lambda>] without
    closure environment. *)
Definition Lambda_init (args : list string) (unpack : option (list string)) : Function :=
  Function_init "<Lambda>" args unpack VNone.

(** The sort key of the module's test:
    [Lambda(unpack=('x', 'y')).set(a = 1).set(z = var.x ** 2 + var.a)
       .ret(var.y + var.z).end] *)
Definition lamb : Function :=
  Function_ret
    (Function_set
       (Function_set (Lambda_init [] (Some ["x"; "y"])) [("a", VInt 1)])
       [("z", VFB (FuncBuilder_func (FuncBuilder_func (var_ "x") [VInt 2] op_pow)
                     [VFB (var_ "a")] op_add))])
    (VFB (FuncBuilder_func (var_ "y") [VFB (var_ "z")] op_add)).

(** Expressions in which the right operand of an operator holds at most
    one variable whenever the left operand holds one. *)
Fixpoint leans_left (e : expr) : bool :=
  match e with
  | e_bin _ a b =>
      leans_left a && leans_left b
      && match expr_vars a with
         | [] => true
         | _ => Nat.leb (List.length (expr_vars b)) 1
         end
  | _ => true
  end.

(** The failures of [Environment.class_]: its three [TypeError]s, by
    message, and the [StopIteration] of [next] on an empty dictionary. *)
Inductive class_failure :=
| Supply_one_name_only      (* TypeError('Supply one name only') *)
| One_kw_arg_only           (* TypeError('"fun" can have 1 kw arg only') *)
| Supply_a_name             (* TypeError('Supply a name') *)
| No_item.                  (* StopIteration *)

(** [Environment.class_(self, name=None, **kw)] for the environment at
    [self], [name] being [None] or a string and the keyword, if any,
    giving a tuple of bases: the new class scope and the heap. *)
Definition Environment_class_ (h : heap) (self : nat) (name : option string)
    (kw : list (string * list value)) : class_failure + nat * heap :=
  let named := match name with Some s => negb (String.eqb s "") | None => false end in
  let has_kw := match kw with [] => false | _ => true end in
  if named && has_kw then inl Supply_one_name_only
  else if Nat.ltb 1 (List.length kw) then inl One_kw_arg_only
  else if bool_decide (name = None) && negb has_kw then inl Supply_a_name
  else
    match (if named then name else None) with
    | Some s => inr (Class_init h s [] (VRef self))       (* bases = () *)
    | None =>
        match kw with
        | [] => inl No_item
        | (name, bases) :: _ => inr (Class_init h name bases (VRef self))
        end
    end.

(** ** The fluent interface: [set], [ret], [if_], [elif_], [else_], [for_], [end]

    A definition is written as one chain of method calls, each call made on
    the object that the call before it returned: [set] and [ret] return the
    object itself, [if_] and [for_] the new [Condition] or [Loop], whose
    parent is the object that made it, and [end] the parent.  A chain is
    therefore always at one object, below which stand the parents that are
    still open.  [if_] and [for_] append the new object to the code of
    their receiver at once; as nothing else can be appended to that list
    before the matching [end], the embedding appends it there when [end]
    gets back to the parent, with all that the object holds by then. *)

Inductive block :=
| BFunction (f : Function)
| BCondition (cb : CondBuilder)
| BLoop (data : list (string * value)) (code : list Code).

(** [self.code.append(...)] on the object of a block. *)
Definition block_append (b : block) (c : list Code) : block :=
  match b with
  | BFunction f =>
      BFunction (mkFunction (Function_name f) (Function_args f) (Function_unpack f)
                            (Function_environ f) (Function_code f ++ c))
  | BCondition cb => BCondition (Condition_append cb c)
  | BLoop data code => BLoop data (code ++ c)
  end.

(** One call of the chain. *)
Inductive builder_call :=
| call_set (kw : list (string * value))
| call_ret (expr : value)
| call_if_ (expr : value)
| call_elif_ (expr : value)
| call_else_
| call_for_ (kw : list (string * value))
| call_end.

(** The chain after one more call: the object it is at, first, and the
    open parents.  [elif_] and [else_] exist on a [Condition] only; [end]
    on a function without parent returns the function itself. *)
Definition chain_call (c : builder_call) (chain : list block) : res (list block) :=
  match chain with
  | [] => Raise Unmodelled
  | b :: parents =>
      match c with
      | call_set kw => Ok (block_append b [Code_update kw] :: parents)
      | call_ret expr => Ok (block_append b [Code_push expr; Code_ret] :: parents)
      | call_if_ expr => Ok (BCondition (Condition_init expr) :: b :: parents)
      | call_for_ kw => Ok (BLoop kw [] :: b :: parents)
      | call_elif_ expr =>
          match b with
          | BCondition cb => Ok (BCondition (Condition_elif_ cb expr) :: parents)
          | _ => Raise (AttributeError "elif_")
          end
      | call_else_ =>
          match b with
          | BCondition cb => Ok (BCondition (Condition_else_ cb) :: parents)
          | _ => Raise (AttributeError "else_")
          end
      | call_end =>
          match b, parents with
          | BCondition cb, p :: parents' =>
              Ok (block_append p [Code_condition (Condition_end cb)] :: parents')
          | BLoop data code, p :: parents' =>
              Ok (block_append p [Code_loop (mkLoop data code)] :: parents')
          | BFunction f, [] =>
              match Function_environ f with
              | VNone => Ok [BFunction f]
              | _ => Raise Unmodelled     (* the chain goes on in the environment *)
              end
          | _, _ => Raise Unmodelled
          end
      end
  end.

Fixpoint chain_calls (cs : list builder_call) (chain : list block) : res (list block) :=
  match cs with
  | [] => Ok chain
  | c :: cs' => chain' ← chain_call c chain; chain_calls cs' chain'
  end.

(** Structured function bodies: bindings, returns, [if]/[elif]/[else] and
    [for], nested at will. *)
Inductive stmt :=
| s_set (kw : list (string * value))
| s_ret (expr : value)
| s_if (test : value) (body : suite) (rest : orelse)
| s_for (kw : list (string * value)) (body : suite)
with suite :=
| suite_nil
| suite_cons (s : stmt) (b : suite)
with orelse :=
| no_else
| else_suite (body : suite)
| elif_suite (test : value) (body : suite) (rest : orelse).

(** The chain of calls that writes a body down. *)
Fixpoint stmt_calls (s : stmt) : list builder_call :=
  match s with
  | s_set kw => [call_set kw]
  | s_ret expr => [call_ret expr]
  | s_if test body rest => call_if_ test :: suite_calls body ++ orelse_calls rest
  | s_for kw body => call_for_ kw :: suite_calls body ++ [call_end]
  end
with suite_calls (b : suite) : list builder_call :=
  match b with
  | suite_nil => []
  | suite_cons s b' => stmt_calls s ++ suite_calls b'
  end
with orelse_calls (r : orelse) : list builder_call :=
  match r with
  | no_else => [call_end]
  | else_suite body => call_else_ :: suite_calls body ++ [call_end]
  | elif_suite test body rest => call_elif_ test :: suite_calls body ++ orelse_calls rest
  end.

Fixpoint orelse_tests (r : orelse) : list value :=
  match r with
  | elif_suite test _ rest => test :: orelse_tests rest
  | _ => []
  end.

(** The code that the body stands for. *)
Fixpoint stmt_code (s : stmt) : list Code :=
  match s with
  | s_set kw => [Code_update kw]
  | s_ret expr => [Code_push expr; Code_ret]
  | s_if test body rest =>
      [Code_condition (mkCondition (test :: orelse_tests rest)
                                   (suite_code body :: orelse_bodies rest)
                                   (orelse_default rest))]
  | s_for kw body => [Code_loop (mkLoop kw (suite_code body))]
  end
with suite_code (b : suite) : list Code :=
  match b with
  | suite_nil => []
  | suite_cons s b' => stmt_code s ++ suite_code b'
  end
with orelse_bodies (r : orelse) : list (list Code) :=
  match r with
  | elif_suite _ body rest => suite_code body :: orelse_bodies rest
  | _ => []
  end
with orelse_default (r : orelse) : list Code :=
  match r with
  | no_else => []
  | else_suite body => suite_code body
  | elif_suite _ _ rest => orelse_default rest
  end.

(** A condition whose [if] and [elif] branches so far are [tests] and
    [bodies], the chain being in the last of them. *)
Definition in_last_branch (tests : list value) (bodies : list (list Code)) (c : list Code)
  : CondBuilder :=
  mkCondBuilder tests (bodies ++ [c]) [] (InIf (List.length bodies)).

Scheme stmt_mut := Induction for stmt Sort Prop
  with suite_mut := Induction for suite Sort Prop
  with orelse_mut := Induction for orelse Sort Prop.

(** The same condition once [else_] has been called. *)
Definition in_else (tests : list value) (bodies : list (list Code)) (c : list Code)
  : CondBuilder :=
  mkCondBuilder tests bodies c InElse.

(** The bodies of the tests [foo] and [bar] of the module. *)
Definition foo_body : suite :=
  suite_cons
    (s_if (VFB (var_ "x"))
       (suite_cons
          (s_ret (VFB (FuncBuilder_func (var_ "x") [VFB (var_ "y")] op_add))) suite_nil)
       (elif_suite (VFB (FuncBuilder_func (var_ "x") [VNone] op_eq))
          (suite_cons (s_ret (VFB (FuncBuilder_func (var_ "y") [VInt 1] op_add))) suite_nil)
          (else_suite (suite_cons (s_ret (VFB (var_ "y"))) suite_nil))))
    suite_nil.

Definition bar_suite : suite :=
  suite_cons (s_set [("w", VInt 0)])
    (suite_cons
       (s_for [("i", VFB (var_ "x"))]
          (suite_cons
             (s_set [("w", VFB (FuncBuilder_func (var_ "w")
                                  [VFB (FuncBuilder_func (var_ "i") [VInt 2] op_pow)]
                                  op_add))])
             suite_nil))
       (suite_cons (s_ret (VFB (FuncBuilder_func (var_ "w") [VInt 12] op_add))) suite_nil)).

Combined Scheme stmt_suite_orelse_ind from stmt_mut, suite_mut, orelse_mut.

(** Code in which every condition, at any depth, has as many bodies as it
    has tests. *)
Inductive paired_code : Code → Prop :=
| paired_update data : paired_code (Code_update data)
| paired_push data : paired_code (Code_push data)
| paired_ret : paired_code Code_ret
| paired_other opcode : paired_code (Code_other opcode)
| paired_condition c :
    List.length (expr_if c) = List.length (code_if c) →
    Forall (Forall paired_code) (code_if c) →
    Forall paired_code (code_else c) →
    paired_code (Code_condition c)
| paired_loop l :
    Forall paired_code (loop_code l) → paired_code (Code_loop l).

(** The same for an object of the chain; for a condition, the list that
    [self.code] stands for is moreover one of its own. *)
Definition paired_block (b : block) : Prop :=
  match b with
  | BFunction f => Forall paired_code (Function_code f)
  | BCondition cb =>
      List.length (cb_expr_if cb) = List.length (cb_code_if cb)
      ∧ Forall (Forall paired_code) (cb_code_if cb)
      ∧ Forall paired_code (cb_code_else cb)
      ∧ match cb_code cb with
        | InIf i => (i < List.length (cb_code_if cb))%nat
        | InElse => True
        | Detached _ => False
        end
  | BLoop _ code => Forall paired_code code
  end.

(** ** What a structured body means

    The meaning of a body as its docstrings give it: the statements run in
    order; [ret] ends the call with the value of its expression; an [if]
    evaluates its tests in the order written and runs the body of the first
    one that is true, or else the [else] body if there is one; a [for]
    evaluates its source once and runs, for each element in order, its body
    with the loop variable bound to the element.  Everything is evaluated
    in, and bound in, the environment [e] of the call. *)

Inductive outcome :=
| Normal (h : heap)                 (* the statements ran to their end *)
| Returned (v : value) (h : heap).  (* a [ret] was reached *)

(** A result of the body followed by what comes after it. *)
Definition follows (r : res outcome) (next : heap → res (value * heap))
  : res (value * heap) :=
  match r with
  | Ok (Normal h) => next h
  | Ok (Returned v h) => Ok (v, h)
  | Raise x => Raise x
  | OutOfFuel => OutOfFuel
  end.

Section Exec.
Variable k : nat.     (* the bound on the evaluation of each expression *)
Variable e : nat.     (* the environment of the call *)

Definition exec_set (kw : list (string * value)) (h : heap) : res outcome :=
  kw' ← calculate_items k h (VRef e) kw;
  h' ← Environment_set k h e (dict_of kw');
  Ok (Normal h').

Definition exec_ret (expr : value) (h : heap) : res outcome :=
  v ← calculate k h expr (VRef e);
  Ok (Returned v h).

Fixpoint exec_rounds (name : string) (body : heap → res outcome) (xs : list value)
    (h : heap) : res outcome :=
  match xs with
  | [] => Ok (Normal h)
  | x :: xs' =>
      o ← exec_set [(name, x)] h;
      match o with
      | Normal h1 =>
          o' ← body h1;
          match o' with
          | Normal h2 => exec_rounds name body xs' h2
          | Returned _ _ => Ok o'
          end
      | Returned _ _ => Ok o
      end
  end.

Fixpoint exec_stmt (s : stmt) (h : heap) : res outcome :=
  match s with
  | s_set kw => exec_set kw h
  | s_ret expr => exec_ret expr h
  | s_if test body rest =>
      r ← calculate k h test (VRef e);
      if truthy r then exec_suite body h else exec_orelse rest h
  | s_for kw body =>
      match kw with
      | [] => Raise StopIteration
      | (name, source) :: _ =>
          v ← calculate k h source (VRef e);
          xs ← py_iter v;
          exec_rounds name (exec_suite body) xs h
      end
  end
with exec_suite (b : suite) (h : heap) : res outcome :=
  match b with
  | suite_nil => Ok (Normal h)
  | suite_cons s b' =>
      o ← exec_stmt s h;
      match o with
      | Normal h' => exec_suite b' h'
      | Returned _ _ => Ok o
      end
  end
with exec_orelse (r : orelse) (h : heap) : res outcome :=
  match r with
  | no_else => Ok (Normal h)
  | else_suite body => exec_suite body h
  | elif_suite test body rest =>
      r0 ← calculate k h test (VRef e);
      if truthy r0 then exec_suite body h else exec_orelse rest h
  end.
End Exec.

(** Bodies made of bindings and returns only. *)
Fixpoint straight (b : suite) : bool :=
  match b with
  | suite_nil => true
  | suite_cons (s_set _) b' | suite_cons (s_ret _) b' => straight b'
  | suite_cons _ _ => false
  end.

(** Bodies in which no loop holds a condition or another loop. *)
Fixpoint flat_stmt (s : stmt) : bool :=
  match s with
  | s_set _ | s_ret _ => true
  | s_if _ body rest => flat_suite body && flat_orelse rest
  | s_for _ body => straight body
  end
with flat_suite (b : suite) : bool :=
  match b with
  | suite_nil => true
  | suite_cons s b' => flat_stmt s && flat_suite b'
  end
with flat_orelse (r : orelse) : bool :=
  match r with
  | no_else => true
  | else_suite body => flat_suite body
  | elif_suite _ body rest => flat_suite body && flat_orelse rest
  end.

(** No loop is waiting in the slot [lp] of a stream. *)
Definition quiet (lp : option nat) (lps : list LoopIter) : Prop :=
  ∀ l li, lp = Some l → lps !! l = Some li → li_iterator li = [].

(** ** A condition in the body of a loop *)

(** [.set(w = 0).for_(i = var.x).if_(var.i == 1).set(w = var.i).end.end.ret(var.w)] *)
Definition pick_suite : suite :=
  suite_cons (s_set [("w", VInt 0)])
    (suite_cons
       (s_for [("i", VFB (var_ "x"))]
          (suite_cons
             (s_if (VFB (FuncBuilder_func (var_ "i") [VInt 1] op_eq))
                   (suite_cons (s_set [("w", VFB (var_ "i"))]) suite_nil)
                   no_else)
             suite_nil))
       (suite_cons (s_ret (VFB (var_ "w"))) suite_nil)).

(** [pick = Function('pick', 'x')] with that body. *)
Definition pick : Function :=
  mkFunction "pick" ["x"] None VNone (suite_code pick_suite).

(** [.set(w = 0).for_(i = var.x).if_(var.i).set(w = 1).end.ret(var.w).end] *)
Definition mark_suite : suite :=
  suite_cons (s_set [("w", VInt 0)])
    (suite_cons
       (s_for [("i", VFB (var_ "x"))]
          (suite_cons
             (s_if (VFB (var_ "i"))
                   (suite_cons (s_set [("w", VInt 1)]) suite_nil)
                   no_else)
             (suite_cons (s_ret (VFB (var_ "w"))) suite_nil)))
       suite_nil).

(** [mark = Function('mark', 'x')] with that body. *)
Definition mark : Function :=
  mkFunction "mark" ["x"] None VNone (suite_code mark_suite).

(** ** What a loop body leaves of the loop variable *)

(** The instruction [c] binds plain keys only, and none of them is
    [name]. *)
Definition binds_others (name : string) (c : Code) : Prop :=
  match c with
  | Code_update data => Forall (λ p, plain_key (fst p) = true ∧ fst p ≠ name) data
  | _ => True
  end.

(** * Properties *)

(** ** More fuel never changes a result *)


Lemma refines_refl {A} (r : res A) : refines r r.
Proof. by intros _. Qed.

Lemma refines_bind {A B} (m m' : res A) (f f' : A → res B) :
  refines m m' → (∀ a, refines (f a) (f' a)) → refines (m ≫= f) (m' ≫= f').
Proof.
  unfold refines. intros Hm Hf H.
  destruct m as [a| e|]; simpl in *; try done.
  - rewrite Hm by done. simpl. by apply Hf.
  - by rewrite Hm.
Qed.

Lemma getattr_chain_refines (g g' : value → string → res value) o getters :
  (∀ o n, refines (g o n) (g' o n)) →
  refines (getattr_chain g o getters) (getattr_chain g' o getters).
Proof.
  intros Hg. revert o. induction getters as [|n ns IH]; intros o; simpl.
  - apply refines_refl.
  - apply refines_bind; [apply Hg | intros a; apply IH].
Qed.

Lemma real_attribute_refines (g g' : value → string → res value) h l attr v do_set :
  (∀ o n, refines (g o n) (g' o n)) →
  refines (real_attribute g h l attr v do_set) (real_attribute g' h l attr v do_set).
Proof.
  intros Hg. unfold real_attribute.
  destruct (h !! l) as [[| cls dic attrs |]|]; try apply refines_refl.
  apply refines_bind; [apply refines_refl|]. intros lit.
  destruct lit; [apply refines_refl|].
  destruct (re_findall _) as [|obj names]; [apply refines_refl|].
  destruct (dic !! _); [|apply refines_refl].
  apply refines_bind; [apply refines_refl|]. intros fixed.
  apply refines_bind; [apply refines_refl|]. intros [getters setter].
  apply refines_bind; [by apply getattr_chain_refines|]. intros target.
  destruct do_set; [apply refines_refl|].
  apply refines_bind; [apply Hg | intros; apply refines_refl].
Qed.

Lemma Environment_getattr_refines (g g' : value → string → res value) h l name :
  (∀ o n, refines (g o n) (g' o n)) →
  refines (Environment_getattr g h l name) (Environment_getattr g' h l name).
Proof.
  intros Hg. unfold Environment_getattr.
  destruct (h !! l) as [[| cls d attrs |]|]; try apply refines_refl.
  pose proof (real_attribute_refines g g' h l name VNone false Hg) as Hr.
  unfold refines in Hr.
  destruct (real_attribute g h l name VNone false) as [[v h']|e|] eqn:E.
  - rewrite Hr by done. apply refines_refl.
  - rewrite Hr by done. destruct e; try apply refines_refl.
    destruct (d !! "__parent__") as [[]|]; try apply refines_refl; apply Hg.
  - by intros ?.
Qed.

Lemma py_getattr_mono k k' h o name :
  (k ≤ k')%nat → refines (py_getattr k h o name) (py_getattr k' h o name).
Proof.
  revert k' o name. induction k as [|k IH]; intros k' o name Hle; [by intros ?|].
  destruct k' as [|k']; [lia|]. simpl.
  destruct o; try apply refines_refl.
  destruct (h !! l) as [[| cls d attrs |]|]; try apply refines_refl.
  destruct (String.eqb name "d"); [apply refines_refl|].
  destruct (is_ClassCls cls && String.eqb name "end"); [apply refines_refl|].
  destruct (attrs !! name); [apply refines_refl|].
  destruct (Environment_class_attr name); [apply refines_refl|].
  apply Environment_getattr_refines. intros o n. apply IH. lia.
Qed.


Lemma apply_closure_mono k k' h c x :
  (k ≤ k')%nat → refines (apply_closure k h c x) (apply_closure k' h c x).
Proof.
  intros Hle. revert x.
  induction c using closure_mut with
    (P := fun _ => True)
    (P0 := fun fb => ∀ x, refines (apply_closure k h (func fb) x)
                                   (apply_closure k' h (func fb) x));
    try done; intros x; simpl.
  - destruct out as [name]. apply refines_bind; [apply IHc|]. intros r.
    destruct (has_dot name); [apply refines_refl|by apply py_getattr_mono].
  - apply refines_bind; [apply IHc|]. intros; apply refines_refl.
  - apply refines_bind; [apply IHc0|]. intros; apply refines_refl.
Qed.

Lemma FuncBuilder_call_mono k k' h self args :
  (k ≤ k')%nat →
  refines (FuncBuilder_call k h self args) (FuncBuilder_call k' h self args).
Proof.
  intros Hle. revert self. induction args as [|required args IH]; intros self; simpl.
  - apply refines_refl.
  - apply refines_bind; [by apply apply_closure_mono|]. intros out.
    destruct args; [apply refines_refl|].
    destruct out; try apply refines_refl. apply IH.
Qed.

Lemma FuncBuilder_do_mono k k' h self arg :
  (k ≤ k')%nat →
  refines (FuncBuilder_do k h self arg) (FuncBuilder_do k' h self arg).
Proof. intros. by apply FuncBuilder_call_mono. Qed.

Lemma calculate_mono k k' h data environ :
  (k ≤ k')%nat →
  refines (calculate k h data environ) (calculate k' h data environ).
Proof.
  revert k' data. induction k as [|k IH]; intros k' data Hle.
  - destruct data; try (destruct k'; apply refines_refl). by intros ?.
  - destruct k' as [|k']; [lia|].
    destruct data; try apply refines_refl. simpl.
    apply refines_bind; [apply FuncBuilder_do_mono; lia|].
    intros a. apply IH. lia.
Qed.

Lemma calculate_items_mono k k' h e data :
  (k ≤ k')%nat →
  refines (calculate_items k h e data) (calculate_items k' h e data).
Proof.
  intros Hle. induction data as [|[key v] data IH]; simpl; [apply refines_refl|].
  apply refines_bind; [by apply calculate_mono|]. intros v'.
  apply refines_bind; [apply IH|]. intros; apply refines_refl.
Qed.

Lemma Environment_set_loop_mono k k' h l kw :
  (k ≤ k')%nat →
  refines (Environment_set_loop k h l kw) (Environment_set_loop k' h l kw).
Proof.
  intros Hle. revert h. induction kw as [|[key v] kw IH]; intros h; simpl;
    [apply refines_refl|].
  apply refines_bind.
  - apply real_attribute_refines. intros o n. by apply py_getattr_mono.
  - intros [_ h']. apply IH.
Qed.

Lemma Environment_set_mono k k' h l kw :
  (k ≤ k')%nat →
  refines (Environment_set k h l kw) (Environment_set k' h l kw).
Proof.
  intros Hle. unfold Environment_set. destruct (has_key _ _); [apply refines_refl|].
  by apply Environment_set_loop_mono.
Qed.

Lemma code_to_exec_loop_mono k k' h environ branches code_else :
  (k ≤ k')%nat →
  refines (code_to_exec_loop k h environ branches code_else)
          (code_to_exec_loop k' h environ branches code_else).
Proof.
  intros Hle. induction branches as [|[expr code] bs IH]; simpl; [apply refines_refl|].
  apply refines_bind; [by apply calculate_mono|]. intros r.
  destruct (truthy r); [apply refines_refl|apply IH].
Qed.

Lemma Loop_block_to_exec_mono k k' h self environ :
  (k ≤ k')%nat →
  refines (Loop_block_to_exec k h self environ) (Loop_block_to_exec k' h self environ).
Proof.
  intros Hle. unfold Loop_block_to_exec.
  destruct (loop_data self) as [|[name v] ?]; [apply refines_refl|].
  apply refines_bind; [by apply calculate_mono|]. intros; apply refines_refl.
Qed.

Lemma Function_run_mono k k' n n' h e stack code :
  (k ≤ k')%nat → (n ≤ n')%nat →
  refines (Function_run k n h e stack code) (Function_run k' n' h e stack code).
Proof.
  intros Hk. revert n' h stack code.
  induction n as [|n IH]; intros n' h stack code Hn; [by intros ?|].
  destruct n' as [|n']; [lia|]. simpl.
  destruct (CodeIter_next code) as [[c code']|]; [|apply refines_refl].
  destruct c.
  - apply refines_bind; [by apply calculate_items_mono|]. intros kw.
    apply refines_bind; [by apply Environment_set_mono|]. intros h'. apply IH; lia.
  - apply refines_bind; [by apply calculate_mono|]. intros v. apply IH; lia.
  - apply refines_refl.
  - apply refines_bind; [by apply code_to_exec_loop_mono|]. intros b. apply IH; lia.
  - apply refines_bind; [by apply Loop_block_to_exec_mono|]. intros b. apply IH; lia.
  - apply refines_refl.
Qed.

Lemma Function_bind_mono k k' self args kw h :
  (k ≤ k')%nat →
  refines (Function_bind k self args kw h) (Function_bind k' self args kw h).
Proof.
  intros Hle. unfold Function_bind.
  destruct (has_key "self" kw); [apply refines_refl|].
  destruct (fix_self args kw) as [args' kw'].
  destruct (Environment_init h) as [e h0].
  apply refines_bind; [by apply Environment_set_mono|]. intros h1.
  apply refines_bind.
  - destruct (Function_unpack self) as [unpack|]; [|apply refines_refl].
    apply refines_bind; [apply refines_refl|]. intros [a ua].
    apply refines_bind; [apply refines_refl|]. intros lu.
    destruct (negb _); [apply refines_refl|].
    apply refines_bind; [apply refines_refl|]. intros elems.
    apply refines_bind; [by apply Environment_set_mono|]. intros; apply refines_refl.
  - intros [a h2]. destruct (negb _); [apply refines_refl|].
    apply refines_bind; [by apply Environment_set_mono|]. intros h3.
    apply refines_bind; [by apply Environment_set_mono|]. intros; apply refines_refl.
Qed.

Lemma Function_call_mono k k' n n' self args kw h :
  (k ≤ k')%nat → (n ≤ n')%nat →
  refines (Function_call k n self args kw h) (Function_call k' n' self args kw h).
Proof.
  intros Hk Hn. unfold Function_call.
  apply refines_bind; [by apply Function_bind_mono|].
  intros [e h']. by apply Function_run_mono.
Qed.

(** A result obtained with some fuel stands for every larger fuel. *)
Lemma Function_call_enough k n k' n' self args kw h v h' :
  Function_call k n self args kw h = Ok (v, h') →
  (k ≤ k')%nat → (n ≤ n')%nat →
  Function_call k' n' self args kw h = Ok (v, h').
Proof.
  intros H Hk Hn.
  rewrite (Function_call_mono k k' n n' self args kw h Hk Hn); rewrite H; done.
Qed.

Lemma Function_call_raise_enough k n k' n' self args kw h e :
  Function_call k n self args kw h = Raise e →
  (k ≤ k')%nat → (n ≤ n')%nat →
  Function_call k' n' self args kw h = Raise e.
Proof.
  intros H Hk Hn.
  rewrite (Function_call_mono k k' n n' self args kw h Hk Hn); rewrite H; done.
Qed.

(** ** calculate *)

Lemma calculate_concrete k h data environ :
  isinstance_FuncBuilder data = false → calculate k h data environ = Ok data.
Proof. by destruct data, k. Qed.

Lemma reduces_concrete_end k h environ v w :
  reduces k h environ v w → isinstance_FuncBuilder w = false.
Proof. by induction 1. Qed.

Lemma reduces_calculate k h environ v w :
  reduces k h environ v w →
  ∃ K, ∀ k', (K ≤ k')%nat → calculate k' h v environ = Ok w.
Proof.
  induction 1 as [v Hv | fb v w Hdo _ [K IH]].
  - exists 0%nat. intros k' _. by apply calculate_concrete.
  - exists (S (Nat.max K k)). intros [|k'] Hle; [lia|]. simpl.
    rewrite (FuncBuilder_do_mono k k' h fb environ) by (rewrite ?Hdo; done || lia).
    rewrite Hdo. simpl. apply IH. lia.
Qed.

(** C9. Reducing a value that is not a deferred expression returns it
    unchanged, with any bound on the loop, zero included: the loop body
    never runs.  Reducing a deferred expression replaces it by its
    evaluation against the environment, again and again, and returns the
    first value of that sequence that is not a deferred expression. *)
Theorem calculate_reduction :
  (∀ k h data environ,
     isinstance_FuncBuilder data = false → calculate k h data environ = Ok data)
  ∧ (∀ k h fb environ,
       calculate (S k) h (VFB fb) environ
       = FuncBuilder_do k h fb environ ≫= λ data', calculate k h data' environ)
  ∧ (∀ k h environ v w,
       reduces k h environ v w →
       isinstance_FuncBuilder w = false
       ∧ ∃ K, ∀ k', (K ≤ k')%nat → calculate k' h v environ = Ok w).
Proof.
  split; [|split].
  - apply calculate_concrete.
  - reflexivity.
  - intros k h environ v w H. split.
    + by eapply reduces_concrete_end.
    + by eapply reduces_calculate.
Qed.

Lemma calculate_reduction_witness :
  calculate 0 [] (VInt 5) VNone = Ok (VInt 5)
  ∧ (isinstance_FuncBuilder (VInt 14) = false
     ∧ ∃ K, ∀ k', (K ≤ k')%nat →
         calculate k' xyz_heap (VFB x_plus_y_times_z) (VRef 0) = Ok (VInt 14)).
Proof.
  split.
  - apply (proj1 calculate_reduction). reflexivity.
  - apply (proj2 (proj2 calculate_reduction) 3%nat xyz_heap (VRef 0)).
    eapply reduces_step; [vm_compute; reflexivity|].
    eapply reduces_step; [vm_compute; reflexivity|].
    apply reduces_concrete. reflexivity.
Defined.

(** ** The dispatcher *)

Lemma Function_run_Dispatcher_spec k n h e stack code :
  Function_run k n h e stack code = Dispatcher_spec k n h e (last stack) code.
Proof.
  revert h stack code. induction n as [|n IH]; intros h stack code; [done|].
  simpl. destruct (CodeIter_next code) as [[[] code']|]; try done.
  - destruct (calculate_items _ _ _ _); simpl; try done.
    destruct (Environment_set _ _ _ _); simpl; try done.
  - destruct (calculate _ _ _ _); simpl; try done.
    by rewrite IH, last_snoc.
  - destruct (Condition_code_to_exec _ _ _ _); simpl; try done.
  - destruct (Loop_block_to_exec _ _ _ _); simpl; try done.
Qed.

Lemma Function_call_Dispatcher_spec k n self args kw h :
  Function_call k n self args kw h
  = '(e, h1) ← Function_bind k self args kw h;
    Dispatcher_spec k n h1 e None (CodeIter_init (Function_code self)).
Proof.
  unfold Function_call. destruct (Function_bind k self args kw h) as [[e h1]| |]; [|done..].
  cbn [mbind res_bind bind]. apply Function_run_Dispatcher_spec.
Qed.

Lemma Dispatcher_spec_steps k e m s s' :
  Dispatcher_steps k e m s s' →
  ∀ n, Dispatcher_spec k (m + n) s.1.1 e s.1.2 s.2
       = Dispatcher_spec k n s'.1.1 e s'.1.2 s'.2.
Proof.
  induction 1 as [s|m s1 s2 s3 Hstep _ IH]; intros n; [done|].
  rewrite <- IH. cbn [Nat.add Dispatcher_spec].
  destruct Hstep as [h acc ci data ci' kw h' Hn Hkw Hset
                    |h acc ci data ci' v Hn Hv
                    |h acc ci data ci' body Hn Hbody
                    |h acc ci data ci' loop Hn Hloop]; cbn [fst snd]; rewrite Hn.
  - rewrite Hkw. cbn [mbind res_bind bind]. by rewrite Hset.
  - by rewrite Hv.
  - by rewrite Hbody.
  - by rewrite Hloop.
Qed.

Lemma Dispatcher_spec_returns k e n h acc ci v h' :
  Dispatcher_spec k n h e acc ci = Ok (v, h') →
  ∃ m acc' ci',
    (m < n)%nat
    ∧ Dispatcher_steps k e m (h, acc, ci) (h', acc', ci')
    ∧ ((∃ ci'', CodeIter_next ci' = Some (Code_ret, ci'') ∧ acc' = Some v)
       ∨ (CodeIter_next ci' = None ∧ v = VNone)).
Proof.
  revert h acc ci. induction n as [|n IH]; intros h acc ci H; [done|].
  cbn [Dispatcher_spec] in H.
  destruct (CodeIter_next ci) as [[c ci1]|] eqn:Hn; last first.
  { simplify_eq. exists 0%nat, acc, ci. split; [lia|]. split; [constructor|]. by right. }
  destruct c as [data|data| |data|data|opcode]; try done.
  - destruct (calculate_items k h (VRef e) data) as [kw| |] eqn:Hkw; try done.
    cbn [mbind res_bind bind] in H.
    destruct (Environment_set k h e (dict_of kw)) as [h1| |] eqn:Hset; try done.
    cbn [mbind res_bind bind] in H.
    destruct (IH _ _ _ H) as (m & acc' & ci' & Hm & Hsteps & Hend).
    exists (S m), acc', ci'. split; [lia|]. split; [|done].
    eapply steps_more; [|exact Hsteps]. by eapply step_update.
  - destruct (calculate k h data (VRef e)) as [v1| |] eqn:Hv; try done.
    cbn [mbind res_bind bind] in H.
    destruct (IH _ _ _ H) as (m & acc' & ci' & Hm & Hsteps & Hend).
    exists (S m), acc', ci'. split; [lia|]. split; [|done].
    eapply steps_more; [|exact Hsteps]. by eapply step_push.
  - destruct acc as [v1|]; [|done]. simplify_eq.
    exists 0%nat, (Some v), ci. split; [lia|]. split; [constructor|]. left. eauto.
  - destruct (Condition_code_to_exec k h data (VRef e)) as [body| |] eqn:Hb; try done.
    cbn [mbind res_bind bind] in H.
    destruct (IH _ _ _ H) as (m & acc' & ci' & Hm & Hsteps & Hend).
    exists (S m), acc', ci'. split; [lia|]. split; [|done].
    eapply steps_more; [|exact Hsteps]. by eapply step_condition.
  - destruct (Loop_block_to_exec k h data (VRef e)) as [loop| |] eqn:Hl; try done.
    cbn [mbind res_bind bind] in H.
    destruct (IH _ _ _ H) as (m & acc' & ci' & Hm & Hsteps & Hend).
    exists (S m), acc', ci'. split; [lia|]. split; [|done].
    eapply steps_more; [|exact Hsteps]. by eapply step_loop.
Qed.

(** What stands after a Return of the top level of the code is never
    drawn. *)
Lemma CodeIter_next_up_to_ret pre post post' lp lps fr :
  match CodeIter_next (mkCodeIter (pre ++ Code_ret :: post) lp lps fr),
        CodeIter_next (mkCodeIter (pre ++ Code_ret :: post') lp lps fr) with
  | Some (c, ci), Some (c', ci') =>
      c = c'
      ∧ ((c = Code_ret) ∨
         ∃ pre', ci = mkCodeIter (pre' ++ Code_ret :: post) (ci_loop ci) (ci_loops ci) (ci_frame ci)
                 ∧ ci' = mkCodeIter (pre' ++ Code_ret :: post') (ci_loop ci) (ci_loops ci)
                                    (ci_frame ci)
                 ∧ ∀ body, CodeIter_insert ci body
                           = mkCodeIter ((body ++ pre') ++ Code_ret :: post) (ci_loop ci)
                                        (ci_loops ci) (ci_frame ci))
  | _, _ => False
  end.
Proof.
  assert (Hy : ∀ lp lps fr,
    match yield_next_code (mkCodeIter (pre ++ Code_ret :: post) lp lps fr),
          yield_next_code (mkCodeIter (pre ++ Code_ret :: post') lp lps fr) with
    | Some (c, ci), Some (c', ci') =>
        c = c'
        ∧ ((c = Code_ret) ∨
           ∃ pre', ci = mkCodeIter (pre' ++ Code_ret :: post) (ci_loop ci) (ci_loops ci)
                                   (ci_frame ci)
                   ∧ ci' = mkCodeIter (pre' ++ Code_ret :: post') (ci_loop ci) (ci_loops ci)
                                      (ci_frame ci)
                   ∧ ∀ body, CodeIter_insert ci body
                             = mkCodeIter ((body ++ pre') ++ Code_ret :: post) (ci_loop ci)
                                          (ci_loops ci) (ci_frame ci))
    | _, _ => False
    end).
  { intros lp0 lps0 fr0. unfold yield_next_code. cbn [ci_code ci_loop ci_loops].
    destruct pre as [|c pre']; cbn [app].
    - split; [done|by left].
    - split; [done|]. right. exists pre'. cbn. repeat split.
      intros body. unfold CodeIter_insert. cbn. by rewrite app_assoc. }
  assert (Hf : ∀ l,
    match for_loop_in (mkCodeIter (pre ++ Code_ret :: post) lp lps fr) l,
          for_loop_in (mkCodeIter (pre ++ Code_ret :: post') lp lps fr) l with
    | Some (c, ci), Some (c', ci') =>
        c = c'
        ∧ ((c = Code_ret) ∨
           ∃ pre', ci = mkCodeIter (pre' ++ Code_ret :: post) (ci_loop ci) (ci_loops ci)
                                   (ci_frame ci)
                   ∧ ci' = mkCodeIter (pre' ++ Code_ret :: post') (ci_loop ci) (ci_loops ci)
                                      (ci_frame ci)
                   ∧ ∀ body, CodeIter_insert ci body
                             = mkCodeIter ((body ++ pre') ++ Code_ret :: post) (ci_loop ci)
                                          (ci_loops ci) (ci_frame ci))
    | _, _ => False
    end).
  { intros l. unfold for_loop_in. cbn [ci_loops].
    destruct (lps !! l) as [li|]; [|apply Hy].
    destruct (LoopIter_next li) as [[[obj rest] li']|]; [|apply Hy].
    split; [done|]. right. exists pre. cbn. repeat split.
    intros body. unfold CodeIter_insert. cbn. by rewrite app_assoc. }
  unfold CodeIter_next. cbn [ci_frame ci_loop].
  destruct fr as [|l [|obj rest]].
  - destruct lp as [l|]; [apply Hf|apply Hy].
  - apply Hf.
  - split; [done|]. right. exists pre. cbn. repeat split.
    intros body. unfold CodeIter_insert. cbn. by rewrite app_assoc.
Qed.

Lemma Function_run_up_to_ret k n h e stack pre post post' lp lps fr :
  Function_run k n h e stack (mkCodeIter (pre ++ Code_ret :: post) lp lps fr)
  = Function_run k n h e stack (mkCodeIter (pre ++ Code_ret :: post') lp lps fr).
Proof.
  revert h stack pre lp lps fr. induction n as [|n IH]; intros h stack pre lp lps fr; [done|].
  cbn [Function_run].
  pose proof (CodeIter_next_up_to_ret pre post post' lp lps fr) as H.
  destruct (CodeIter_next (mkCodeIter (pre ++ Code_ret :: post) lp lps fr))
    as [[c ci]|]; destruct (CodeIter_next (mkCodeIter (pre ++ Code_ret :: post') lp lps fr))
    as [[c' ci']|]; try done.
  destruct H as [<- [->|(pre' & -> & -> & Hins)]]; [done|].
  destruct c as [data|data| |data|data|opcode]; try done.
  - destruct (calculate_items k h (VRef e) data) as [kw| |]; try done.
    cbn [mbind res_bind bind].
    destruct (Environment_set k h e (dict_of kw)) as [h1| |]; try done.
    cbn [mbind res_bind bind]. apply IH.
  - destruct (calculate k h data (VRef e)) as [v| |]; try done.
    cbn [mbind res_bind bind]. apply IH.
  - destruct (Condition_code_to_exec k h data (VRef e)) as [body| |]; try done.
    cbn [mbind res_bind bind]. unfold CodeIter_insert. cbn [ci_code ci_loop ci_loops ci_frame].
    rewrite !app_assoc. apply IH.
  - destruct (Loop_block_to_exec k h data (VRef e)) as [loop| |]; try done.
    cbn [mbind res_bind bind]. unfold CodeIter_create_loop.
    cbn [ci_code ci_loop ci_loops ci_frame]. apply IH.
Qed.

(** C2. The result of a call.  A call binds its arguments and then runs,
    on the function's own code and from an empty slot, the dispatcher
    with a single-slot accumulator: the stack of the source is read only
    at its top.  When the run comes to a Return with [v] in the slot, the
    call returns [v] and the heap of that moment, whatever the stream
    still holds; with an empty slot it raises IndexError.  When the run
    comes to the end of the stream the call returns [None], whatever the
    slot holds.  Every call that returns does so in one of these two
    ways.  Of two Pushes before a Return the call returns the second, and
    what the code holds after a Return of its top level changes no
    call. *)
Theorem Function_call_result :
  (∀ k n self args kw h,
     Function_call k n self args kw h
     = '(e, h1) ← Function_bind k self args kw h;
       Dispatcher_spec k n h1 e None (CodeIter_init (Function_code self)))
  ∧ (∀ k n self args kw h e h1 m h' acc ci ci',
       Function_bind k self args kw h = Ok (e, h1) →
       Dispatcher_steps k e m (h1, None, CodeIter_init (Function_code self)) (h', acc, ci) →
       CodeIter_next ci = Some (Code_ret, ci') →
       (m < n)%nat →
       Function_call k n self args kw h
       = match acc with Some v => Ok (v, h') | None => Raise IndexError end)
  ∧ (∀ k n self args kw h e h1 m h' acc ci,
       Function_bind k self args kw h = Ok (e, h1) →
       Dispatcher_steps k e m (h1, None, CodeIter_init (Function_code self)) (h', acc, ci) →
       CodeIter_next ci = None →
       (m < n)%nat →
       Function_call k n self args kw h = Ok (VNone, h'))
  ∧ (∀ k n self args kw h v h',
       Function_call k n self args kw h = Ok (v, h') →
       ∃ e h1 m acc ci,
         (m < n)%nat
         ∧ Function_bind k self args kw h = Ok (e, h1)
         ∧ Dispatcher_steps k e m (h1, None, CodeIter_init (Function_code self)) (h', acc, ci)
         ∧ ((∃ ci', CodeIter_next ci = Some (Code_ret, ci') ∧ acc = Some v)
            ∨ (CodeIter_next ci = None ∧ v = VNone)))
  ∧ (∀ k n self args kw h e h1 d1 d2 post v1 v2,
       Function_code self = Code_push d1 :: Code_push d2 :: Code_ret :: post →
       Function_bind k self args kw h = Ok (e, h1) →
       calculate k h1 d1 (VRef e) = Ok v1 →
       calculate k h1 d2 (VRef e) = Ok v2 →
       (3 ≤ n)%nat →
       Function_call k n self args kw h = Ok (v2, h1))
  ∧ (∀ k n name fargs unpack environ pre post post' args kw h,
       Function_call k n (mkFunction name fargs unpack environ (pre ++ Code_ret :: post))
                     args kw h
       = Function_call k n (mkFunction name fargs unpack environ (pre ++ Code_ret :: post'))
                       args kw h).
Proof.
  split; [|split; [|split; [|split; [|split]]]].
  - apply Function_call_Dispatcher_spec.
  - intros k n self args kw h e h1 m h' acc ci ci' Hbind Hsteps Hret Hm.
    rewrite Function_call_Dispatcher_spec, Hbind. cbn [mbind res_bind bind].
    replace n with (m + S (n - S m))%nat by lia.
    rewrite (Dispatcher_spec_steps _ _ _ _ _ Hsteps). cbn [fst snd Dispatcher_spec].
    by rewrite Hret.
  - intros k n self args kw h e h1 m h' acc ci Hbind Hsteps Hend Hm.
    rewrite Function_call_Dispatcher_spec, Hbind. cbn [mbind res_bind bind].
    replace n with (m + S (n - S m))%nat by lia.
    rewrite (Dispatcher_spec_steps _ _ _ _ _ Hsteps). cbn [fst snd Dispatcher_spec].
    by rewrite Hend.
  - intros k n self args kw h v h' Hcall.
    rewrite Function_call_Dispatcher_spec in Hcall.
    destruct (Function_bind k self args kw h) as [[e h1]| |] eqn:Hbind; try done.
    cbn [mbind res_bind bind] in Hcall.
    destruct (Dispatcher_spec_returns _ _ _ _ _ _ _ _ Hcall) as (m & acc & ci & Hm & Hsteps & Hend).
    by exists e, h1, m, acc, ci.
  - intros k n self args kw h e h1 d1 d2 post v1 v2 Hcode Hbind E1 E2 Hn.
    unfold Function_call. rewrite Hbind, Hcode. cbn [mbind res_bind bind].
    destruct n as [|[|[|n]]]; try lia.
    cbn [Function_run CodeIter_init CodeIter_next ci_frame ci_loop yield_next_code ci_code
         ci_loops].
    rewrite E1. cbn [mbind res_bind bind CodeIter_next ci_frame ci_loop yield_next_code ci_code
         ci_loops].
    rewrite E2. cbn [mbind res_bind bind CodeIter_next ci_frame ci_loop yield_next_code ci_code
         ci_loops app].
    reflexivity.
  - intros k n name fargs unpack environ pre post post' args kw h.
    unfold Function_call.
    change (Function_bind k (mkFunction name fargs unpack environ (pre ++ Code_ret :: post')))
      with (Function_bind k (mkFunction name fargs unpack environ (pre ++ Code_ret :: post))).
    destruct (Function_bind k _ args kw h) as [[e h1]| |]; [|done..].
    cbn [mbind res_bind bind Function_code]. apply Function_run_up_to_ret.
Qed.

Lemma Function_call_result_witness :
  (∃ h', Function_call 5 5 ret_twice [VInt 1; VInt 2] [] [] = Ok (VInt 1, h'))
  ∧ (∃ h', Function_call 5 5 set_only [VInt 1] [] [] = Ok (VNone, h')
           ∧ binding h' 0 "w" = Some (VInt 1))
  ∧ (∃ h', Function_call 5 5 push_twice [VInt 1; VInt 2] [] [] = Ok (VInt 2, h')).
Proof.
  destruct Function_call_result as (_ & Hret & Hend & _ & Hpush & _).
  split; [|split].
  - eexists.
    eapply (Hret 5%nat 5%nat ret_twice [VInt 1; VInt 2] [] [] _ _ 1%nat _ (Some (VInt 1))).
    + vm_compute. reflexivity.
    + eapply steps_more; [|apply steps_none].
      eapply step_push; reflexivity.
    + reflexivity.
    + lia.
  - eexists. split.
    + eapply (Hend 5%nat 5%nat set_only [VInt 1] [] [] _ _ 1%nat).
      * vm_compute. reflexivity.
      * eapply steps_more; [|apply steps_none].
        eapply step_update; reflexivity.
      * reflexivity.
      * lia.
    + vm_compute. reflexivity.
  - eexists.
    eapply (Hpush 5%nat 5%nat push_twice [VInt 1; VInt 2] [] []).
    + reflexivity.
    + vm_compute. reflexivity.
    + reflexivity.
    + reflexivity.
    + lia.
Defined.

(** ** Condition *)

Lemma combine_app_same {A B} (l1 l2 : list A) (m1 m2 : list B) :
  List.length l1 = List.length m1 →
  combine (l1 ++ l2) (m1 ++ m2) = combine l1 m1 ++ combine l2 m2.
Proof.
  revert m1. induction l1 as [|a l1 IH]; intros [|b m1] H; simpl in *; try done.
  f_equal. apply IH. lia.
Qed.

Lemma code_to_exec_loop_skip k h environ pre cpre branches code_else :
  List.length pre = List.length cpre →
  Forall (falsy k h environ) pre →
  code_to_exec_loop k h environ (combine pre cpre ++ branches) code_else
  = code_to_exec_loop k h environ branches code_else.
Proof.
  revert cpre. induction pre as [|p pre IH]; intros [|c cpre] Hlen Hf;
    simpl in *; try done.
  inversion Hf as [|? ? (v & Hv & Ht) Hf']; subst.
  rewrite Hv. simpl. rewrite Ht. apply IH; [lia|done].
Qed.

Lemma Condition_builds_foo :
  Condition_end
    (Condition_ret
       (Condition_else_
          (Condition_ret
             (Condition_elif_
                (Condition_ret (Condition_init (VFB (var_ "x")))
                   (VFB (FuncBuilder_func (var_ "x") [VFB (var_ "y")] op_add)))
                (VFB (FuncBuilder_func (var_ "x") [VNone] op_eq)))
             (VFB (FuncBuilder_func (var_ "y") [VInt 1] op_add))))
       (VFB (var_ "y")))
  = foo_condition.
Proof. reflexivity. Qed.

Lemma foo_calls k n :
  (3 ≤ k)%nat → (4 ≤ n)%nat →
  val_of (Function_call k n foo [VInt 30; VInt 12] [] []) = Ok (VInt 42)
  ∧ val_of (Function_call k n foo [VNone; VInt 41] [] []) = Ok (VInt 42)
  ∧ val_of (Function_call k n foo [VList []; VInt 42] [] []) = Ok (VInt 42).
Proof.
  intros Hk Hn.
  assert (Hrun : ∀ args v,
    val_of (Function_call 3 4 foo args [] []) = Ok v →
    val_of (Function_call k n foo args [] []) = Ok v).
  { intros args v H. unfold val_of in *.
    destruct (Function_call 3 4 foo args [] []) as [[v' h']|?|] eqn:E; try done.
    by rewrite (Function_call_enough _ _ k n _ _ _ _ _ _ E). }
  split; [|split]; apply Hrun; vm_compute; reflexivity.
Qed.

Lemma draw_inserted body code :
  ci_frame code = AtTop → ci_loop code = None →
  draw (List.length body) (CodeIter_insert code body) = (body, code).
Proof.
  intros Hf Hl. destruct code as [cs lp lps fr]. simpl in *. subst.
  induction body as [|c body IH]; simpl; [done|].
  unfold CodeIter_insert in IH. simpl in IH. by rewrite IH.
Qed.

(** Selection in a Condition.  The predicates are reduced in declared
    order against the calling environment: when those before a predicate
    all reduce to false values and it reduces to a true one, the body
    declared with it is selected; when all reduce to false values the
    default body is.  The dispatcher splices the selected body into the
    stream, where (no loop being registered) it is what is drawn next.  For
    the test [foo] the three calls of the source each return 42. *)
Theorem Condition_selects_first_truthy :
  (∀ k h (c : Condition) environ pre p post cpre body cpost,
     expr_if c = pre ++ p :: post →
     code_if c = cpre ++ body :: cpost →
     List.length pre = List.length cpre →
     Forall (falsy k h environ) pre →
     truthful k h environ p →
     Condition_code_to_exec k h c environ = Ok body)
  ∧ (∀ k h (c : Condition) environ,
       List.length (expr_if c) = List.length (code_if c) →
       Forall (falsy k h environ) (expr_if c) →
       Condition_code_to_exec k h c environ = Ok (code_else c))
  ∧ (∀ k n h e stack code code' (c : Condition) body,
       CodeIter_next code = Some (Code_condition c, code') →
       Condition_code_to_exec k h c (VRef e) = Ok body →
       Function_run k (S n) h e stack code
       = Function_run k n h e stack (CodeIter_insert code' body)
       ∧ (ci_frame code' = AtTop → ci_loop code' = None →
          draw (List.length body) (CodeIter_insert code' body) = (body, code')))
  ∧ (∀ k n, (3 ≤ k)%nat → (4 ≤ n)%nat →
       val_of (Function_call k n foo [VInt 30; VInt 12] [] []) = Ok (VInt 42)
       ∧ val_of (Function_call k n foo [VNone; VInt 41] [] []) = Ok (VInt 42)
       ∧ val_of (Function_call k n foo [VList []; VInt 42] [] []) = Ok (VInt 42)).
Proof.
  split; [|split; [|split]].
  - intros k h c environ pre p post cpre body cpost He Hc Hlen Hpre (v & Hv & Ht).
    unfold Condition_code_to_exec. rewrite He, Hc.
    rewrite combine_app_same by done. simpl.
    rewrite code_to_exec_loop_skip by done. simpl.
    rewrite Hv. simpl. by rewrite Ht.
  - intros k h c environ Hlen Hf. unfold Condition_code_to_exec.
    rewrite <- (app_nil_r (combine _ _)).
    by rewrite code_to_exec_loop_skip.
  - intros k n h e stack code code' c body Hn Hsel. split.
    + simpl. rewrite Hn, Hsel. done.
    + apply draw_inserted.
  - apply foo_calls.
Qed.

Lemma Condition_selects_first_truthy_witness :
  Condition_code_to_exec 3 xyz_heap
    (mkCondition [VInt 0; VFB (var_ "x"); VInt 1] [[Code_ret]; [Code_push VNone]; []]
                 [Code_ret; Code_ret])
    (VRef 0) = Ok [Code_push VNone]
  ∧ Condition_code_to_exec 3 xyz_heap
      (mkCondition [VInt 0; VNone] [[Code_ret]; [Code_push VNone]] [Code_ret; Code_ret])
      (VRef 0) = Ok [Code_ret; Code_ret]
  ∧ val_of (Function_call 3 4 foo [VInt 30; VInt 12] [] []) = Ok (VInt 42).
Proof.
  destruct Condition_selects_first_truthy as (Hsel & Helse & _ & Hfoo).
  split; [|split].
  - apply (Hsel 3%nat xyz_heap _ (VRef 0) [VInt 0] (VFB (var_ "x")) [VInt 1]
             [[Code_ret]] [Code_push VNone] [[]]); try reflexivity.
    + repeat constructor. exists (VInt 0). split; reflexivity.
    + exists (VInt 2). split; reflexivity.
  - apply Helse; [reflexivity|].
    repeat constructor; eexists; split; reflexivity.
  - apply (Hfoo 3%nat 4%nat); lia.
Defined.

(** ** Setting plain keys *)

Lemma self_to_dollar_plain attr : plain_key attr = true → self_to_dollar attr = attr.
Proof.
  unfold plain_key, self_to_dollar. destruct (String.eqb attr "self"); [done|done].
Qed.

Lemma plain_key_literal attr :
  plain_key attr = true → literal_key attr (re_findall attr) = Ok true.
Proof.
  unfold plain_key. intros H. apply andb_true_iff in H as [_ H].
  by destruct (literal_key _ _) as [[]| |].
Qed.

Lemma real_attribute_set_plain g h l cls d attrs attr v :
  h !! l = Some (OEnvironment cls d attrs) →
  plain_key attr = true →
  real_attribute g h l attr v true
  = Ok (VNone, <[l := OEnvironment cls (<[attr := v]> d) attrs]> h).
Proof.
  intros Hl Hp. unfold real_attribute. rewrite Hl.
  rewrite (self_to_dollar_plain _ Hp), (plain_key_literal _ Hp). done.
Qed.

Lemma real_attribute_get_plain g h l cls d attrs attr :
  h !! l = Some (OEnvironment cls d attrs) →
  plain_key attr = true →
  real_attribute g h l attr VNone false
  = match d !! attr with Some v => Ok (v, h) | None => Raise (KeyError attr) end.
Proof.
  intros Hl Hp. unfold real_attribute. rewrite Hl.
  rewrite (self_to_dollar_plain _ Hp), (plain_key_literal _ Hp). done.
Qed.

Lemma has_key_plain kw :
  Forall (λ p, plain_key (fst p) = true) kw → has_key "self" kw = false.
Proof.
  induction 1 as [|[key v] kw Hp _ IH]; [done|]. simpl in *.
  rewrite IH, orb_false_r. unfold plain_key in Hp.
  by destruct (String.eqb key "self").
Qed.

Lemma Environment_set_loop_plain k h l cls d attrs kw :
  h !! l = Some (OEnvironment cls d attrs) →
  Forall (λ p, plain_key (fst p) = true) kw →
  Environment_set_loop k h l kw
  = Ok (<[l := OEnvironment cls (bind_all d kw) attrs]> h).
Proof.
  intros Hl Hkw. revert h d Hl.
  induction Hkw as [|[key v] kw Hp _ IH]; intros h d Hl; simpl.
  - by rewrite list_insert_id.
  - rewrite (real_attribute_set_plain _ _ _ _ _ _ _ _ Hl Hp). simpl.
    rewrite (IH _ (<[key := v]> d)).
    + by rewrite list_insert_insert_eq.
    + apply list_lookup_insert_eq. by eapply lookup_lt_Some.
Qed.

Lemma Environment_set_plain k h l cls d attrs kw :
  h !! l = Some (OEnvironment cls d attrs) →
  Forall (λ p, plain_key (fst p) = true) kw →
  Environment_set k h l kw
  = Ok (<[l := OEnvironment cls (bind_all d kw) attrs]> h).
Proof.
  intros Hl Hkw. unfold Environment_set. rewrite (has_key_plain _ Hkw).
  by apply Environment_set_loop_plain.
Qed.

Lemma Environment_init_set_parent k h environ :
  Environment_set k (h ++ [OEnvironment EnvironmentCls ∅ {[ "last" := VUdef ]}])
                  (List.length h) [("__parent__", environ)]
  = Ok (h ++ [OEnvironment EnvironmentCls {[ "__parent__" := environ ]}
                           {[ "last" := VUdef ]}]).
Proof.
  erewrite Environment_set_plain; last first.
  - repeat constructor.
  - apply list_lookup_middle. done.
  - simpl. f_equal.
    rewrite insert_app_r_alt by done. by rewrite Nat.sub_diag.
Qed.

Lemma dict_pop_absent key kw :
  has_key key kw = false → dict_pop key kw = (VUdef, kw).
Proof.
  unfold dict_pop. induction kw as [|[k' v] kw IH]; simpl; [done|].
  intros H. apply orb_false_iff in H as [Hk Hkw]. rewrite Hk. simpl.
  specialize (IH Hkw). injection IH as IH1 IH2. by rewrite IH1, IH2.
Qed.

Lemma fix_self_no_self args kw :
  has_key "self" kw = false → fix_self args kw = (map fix_self_arg args, kw).
Proof.
  intros H. unfold fix_self. by rewrite (dict_pop_absent _ _ H).
Qed.

(** ** Arity *)

(** C10. The arity check counts arguments and never looks at keyword
    names.  A call of [Function('f', 'x', 'y').ret(var.x)] with one
    positional argument and the keyword [z], which is no parameter, has the
    declared count, binds [x] and [z], leaves the parameter [y] unbound and
    returns normally; with the keyword [x] instead, the keyword binding,
    applied after the positional one, replaces it, and [y] is again left
    unbound. *)
Theorem arity_check_ignores_keyword_names :
  (∃ (self : Function) args kw e h',
     (List.length args + List.length kw = List.length (Function_args self))%nat
     ∧ (∃ key, has_key key kw = true ∧ key ∉ Function_args self)
     ∧ (∀ k, Function_bind k self args kw [] = Ok (e, h'))
     ∧ (∃ p, p ∈ Function_args self ∧ binding h' e p = None)
     ∧ (∀ k n, (2 ≤ k)%nat → (3 ≤ n)%nat →
          ∃ v, Function_call k n self args kw [] = Ok (v, h')))
  ∧ (∃ (self : Function) args kw e h' p v v',
       (List.length args + List.length kw = List.length (Function_args self))%nat
       ∧ Function_args self !! 0%nat = Some p ∧ args !! 0%nat = Some v
       ∧ kw = [(p, v')] ∧ v ≠ v'
       ∧ (∀ k, Function_bind k self args kw [] = Ok (e, h'))
       ∧ binding h' e p = Some v'
       ∧ (∃ q, q ∈ Function_args self ∧ binding h' e q = None)
       ∧ (∀ k n, (2 ≤ k)%nat → (3 ≤ n)%nat →
            Function_call k n self args kw [] = Ok (v', h'))).
Proof.
  split.
  - exists ret_x, [VInt 1], [("z", VInt 2)], 0%nat.
    eexists. split; [reflexivity|]. split.
    { exists "z". split; [reflexivity|].
      apply (bool_decide_unpack _). vm_compute. exact I. }
    split; [intros k; vm_compute; reflexivity|]. split.
    { exists "y". split; [|vm_compute; reflexivity].
      apply (bool_decide_unpack _). vm_compute. exact I. }
    intros k n Hk Hn. eexists.
    eapply (Function_call_enough 2 3); [vm_compute; reflexivity|lia|lia].
  - exists ret_x, [VInt 1], [("x", VInt 5)], 0%nat.
    eexists. exists "x", (VInt 1), (VInt 5).
    split; [reflexivity|]. split; [reflexivity|]. split; [reflexivity|].
    split; [reflexivity|]. split; [discriminate|].
    split; [intros k; vm_compute; reflexivity|].
    split; [vm_compute; reflexivity|]. split.
    { exists "y". split; [|vm_compute; reflexivity].
      apply (bool_decide_unpack _). vm_compute. exact I. }
    intros k n Hk Hn.
    eapply (Function_call_enough 2 3); [vm_compute; reflexivity|lia|lia].
Qed.

(** C1, at the call [Function('f', 'x', unpack=('a', 'b'))()]: no argument
    is given where one parameter and an unpack tail are declared, and the
    call fails with [ValueError], raised by the host when it splits the
    empty argument tuple, not with one of the arity errors. *)
Theorem unpack_call_without_arguments :
  ∀ k n h,
    Function_unpack with_unpack = Some ["a"; "b"]
    ∧ (List.length (@nil value) + List.length (@nil (string * value))
       ≠ List.length (Function_args with_unpack))%nat
    ∧ Function_call k n with_unpack [] [] h = Raise ValueError
    ∧ is_Arity ValueError = false.
Proof.
  intros k n h. split; [reflexivity|]. split; [simpl; lia|]. split; [|reflexivity].
  unfold Function_call, Function_bind, Environment_init, alloc. simpl.
  by rewrite Environment_init_set_parent.
Qed.

(** ** Dictionaries built from pairs *)

Lemma bind_all_cons d key v kw :
  bind_all d ((key, v) :: kw) = bind_all (<[key := v]> d) kw.
Proof. done. Qed.

Lemma bind_all_lookup_notin d (kw : list (string * value)) key :
  key ∉ kw.*1 → bind_all d kw !! key = d !! key.
Proof.
  revert d. induction kw as [|[k' v] kw IH]; intros d Hn; [done|].
  rewrite fmap_cons in Hn. apply not_elem_of_cons in Hn as [Hne Hn].
  rewrite bind_all_cons, IH by done. by rewrite lookup_insert_ne.
Qed.

Lemma bind_all_insert_notin d (kw : list (string * value)) key v :
  key ∉ kw.*1 → bind_all (<[key := v]> d) kw = <[key := v]> (bind_all d kw).
Proof.
  revert d. induction kw as [|[k' v'] kw IH]; intros d Hn; [done|].
  rewrite fmap_cons in Hn. apply not_elem_of_cons in Hn as [Hne Hn].
  rewrite !bind_all_cons, <- IH by done.
  by rewrite insert_insert_ne.
Qed.

Lemma dict_setitem_keys key v (d : list (string * value)) :
  (dict_setitem key v d).*1 = if bool_decide (key ∈ d.*1) then d.*1 else d.*1 ++ [key].
Proof.
  induction d as [|[k' v'] d IH]; [done|].
  cbn [dict_setitem]. rewrite (fmap_cons fst _ d). cbn [fst].
  destruct (String.eqb_spec k' key) as [->|Hne].
  - rewrite bool_decide_eq_true_2 by apply list_elem_of_here. done.
  - rewrite fmap_cons, IH. cbn [fst]. destruct (bool_decide (key ∈ d.*1)) eqn:E.
    + apply bool_decide_eq_true in E.
      rewrite bool_decide_eq_true_2 by (by apply list_elem_of_further). done.
    + apply bool_decide_eq_false in E.
      rewrite bool_decide_eq_false_2; [done|].
      intros [?|?]%elem_of_cons; congruence.
Qed.

Lemma dict_setitem_NoDup key v (d : list (string * value)) :
  NoDup d.*1 → NoDup (dict_setitem key v d).*1.
Proof.
  intros H. rewrite dict_setitem_keys. case_bool_decide; [done|].
  apply NoDup_app. split; [done|]. split; [|apply NoDup_singleton].
  intros x Hx Hx'. apply list_elem_of_singleton in Hx'. by subst.
Qed.

Lemma bind_all_dict_setitem d0 key v (d : list (string * value)) :
  NoDup d.*1 → bind_all d0 (dict_setitem key v d) = <[key := v]> (bind_all d0 d).
Proof.
  revert d0. induction d as [|[k' v'] d IH]; intros d0 Hnd; [done|].
  rewrite fmap_cons in Hnd. apply NoDup_cons in Hnd as [Hk' Hnd]. cbn [fst] in Hk'.
  cbn [dict_setitem]. destruct (String.eqb_spec k' key) as [->|Hne].
  - rewrite !bind_all_cons, <- bind_all_insert_notin by done.
    by rewrite insert_insert_eq.
  - rewrite !bind_all_cons. by apply IH.
Qed.

Lemma dict_of_acc_NoDup (pairs acc : list (string * value)) :
  NoDup acc.*1 →
  NoDup (fold_left (λ d p, dict_setitem (fst p) (snd p) d) pairs acc).*1.
Proof.
  revert acc. induction pairs as [|[key v] pairs IH]; intros acc H; [done|].
  simpl. apply IH. by apply dict_setitem_NoDup.
Qed.

Lemma bind_all_dict_of_acc d0 (pairs acc : list (string * value)) :
  NoDup acc.*1 →
  bind_all d0 (fold_left (λ d p, dict_setitem (fst p) (snd p) d) pairs acc)
  = bind_all (bind_all d0 acc) pairs.
Proof.
  revert acc. induction pairs as [|[key v] pairs IH]; intros acc H; [done|].
  cbn [fold_left fst snd]. rewrite IH by (by apply dict_setitem_NoDup).
  by rewrite bind_all_dict_setitem, bind_all_cons.
Qed.

(** Binding a dictionary built from pairs is binding the pairs in order. *)
Lemma bind_all_dict_of d0 pairs : bind_all d0 (dict_of pairs) = bind_all d0 pairs.
Proof. unfold dict_of. rewrite bind_all_dict_of_acc; [done|apply NoDup_nil_2]. Qed.

Lemma dict_of_NoDup pairs : NoDup (dict_of pairs).*1.
Proof. apply dict_of_acc_NoDup, NoDup_nil_2. Qed.

Lemma elem_of_combine_fst (names : list string) (vs : list value) key :
  key ∈ (combine names vs).*1 → key ∈ names.
Proof.
  revert vs. induction names as [|n names IH]; intros [|v vs] Hin;
    cbn [combine] in Hin; try by inversion Hin.
  rewrite fmap_cons in Hin. apply elem_of_cons in Hin as [->|Hin];
    [apply list_elem_of_here | apply list_elem_of_further; eauto].
Qed.

Lemma bind_all_combine_lookup d0 (names : list string) (vs : list value) i name v :
  NoDup names → names !! i = Some name → vs !! i = Some v →
  bind_all d0 (combine names vs) !! name = Some v.
Proof.
  revert d0 vs i. induction names as [|n names IH]; intros d0 [|v0 vs] [|i] Hnd Hn Hv;
    try done; cbn [combine]; simpl in Hn, Hv; simplify_eq.
  - apply NoDup_cons in Hnd as [Hnot _].
    rewrite bind_all_cons, bind_all_lookup_notin; [by rewrite lookup_insert_eq|].
    intros Hin. by apply Hnot, (elem_of_combine_fst _ vs).
  - apply NoDup_cons in Hnd as [_ Hnd]. rewrite bind_all_cons. by eapply IH.
Qed.

Lemma keys_dict_setitem key v d :
  Forall (λ p, plain_key (fst p) = true) d → plain_key key = true →
  Forall (λ p, plain_key (fst p) = true) (dict_setitem key v d).
Proof.
  intros Hd Hk. induction Hd as [|[k' v'] d Hp Hd IH]; simpl.
  - by repeat constructor.
  - destruct (String.eqb k' key); constructor; done.
Qed.

Lemma keys_dict_of pairs :
  Forall (λ p, plain_key (fst p) = true) pairs →
  Forall (λ p, plain_key (fst p) = true) (dict_of pairs).
Proof.
  unfold dict_of. generalize (@nil (string * value)) (Forall_nil_2 (λ p : string * value, plain_key (fst p) = true)).
  intros d Hd H. revert d Hd. induction H as [|[key v] ps Hp _ IH]; intros d Hd; simpl; [done|].
  apply IH. by apply keys_dict_setitem.
Qed.

Lemma keys_combine (names : list string) (vs : list value) :
  Forall (λ s, plain_key s = true) names →
  Forall (λ p, plain_key (fst p) = true) (combine names vs).
Proof.
  intros H. revert vs. induction H as [|s names Hs _ IH]; intros [|v vs]; simpl;
    try constructor; auto.
Qed.

(** The failures of the argument binding, for any function, call and heap.
    Without unpack tail, a number of arguments other than the number of
    parameters is refused with the arity error (a keyword [self] is refused
    by the host before that).  With an unpack tail the last positional
    argument is taken off first: when its length is not the number of
    unpack names the call is refused with the unpack arity error; a value
    without length is refused by [len]; and when the length fits and the
    unpack names are plain keys, the count of the other arguments is
    checked as before.  When that count fits too (and all names are plain
    keys) the call binds, in a new environment whose parent is the closure
    environment, each unpack name to its own element of the last argument,
    then the parameters to the other positional arguments, then the
    keywords. *)
Theorem Function_call_arity :
  (∀ k n self args kw h,
     has_key "self" kw = true →
     Function_call k n self args kw h = Raise (TypeError MultipleValues))
  ∧ (∀ k n self args kw h,
       Function_unpack self = None →
       has_key "self" kw = false →
       (List.length args + List.length kw ≠ List.length (Function_args self))%nat →
       Function_call k n self args kw h
       = Raise (TypeError (ExpectedArguments (List.length (Function_args self))
                                             (List.length args + List.length kw))))
  ∧ (∀ k n self args last kw h unpack lu,
       Function_unpack self = Some unpack →
       has_key "self" kw = false →
       py_len (fix_self_arg last) = Ok lu →
       lu ≠ List.length unpack →
       Function_call k n self (args ++ [last]) kw h
       = Raise (TypeError (ExpectedUnpack (List.length unpack) lu)))
  ∧ (∀ k n self args last kw h unpack e,
       Function_unpack self = Some unpack →
       has_key "self" kw = false →
       py_len (fix_self_arg last) = Raise e →
       Function_call k n self (args ++ [last]) kw h = Raise e)
  ∧ (∀ k n self args last kw h unpack elems,
       Function_unpack self = Some unpack →
       has_key "self" kw = false →
       Forall (λ s, plain_key s = true) unpack →
       py_len (fix_self_arg last) = Ok (List.length unpack) →
       py_iter (fix_self_arg last) = Ok elems →
       (List.length args + List.length kw ≠ List.length (Function_args self))%nat →
       Function_call k n self (args ++ [last]) kw h
       = Raise (TypeError (ExpectedArguments (List.length (Function_args self))
                                             (List.length args + List.length kw))))
  ∧ (∀ k self args last kw h unpack elems,
       Function_unpack self = Some unpack →
       Forall (λ s, plain_key s = true) unpack →
       Forall (λ s, plain_key s = true) (Function_args self) →
       Forall (λ p, plain_key (fst p) = true) kw →
       py_len (fix_self_arg last) = Ok (List.length unpack) →
       py_iter (fix_self_arg last) = Ok elems →
       (List.length args + List.length kw = List.length (Function_args self))%nat →
       ∃ d,
         Function_bind k self (args ++ [last]) kw h
         = Ok (List.length h,
               h ++ [OEnvironment EnvironmentCls d {[ "last" := VUdef ]}])
         ∧ d = bind_all
                 (bind_all
                    (bind_all {[ "__parent__" := Function_environ self ]}
                              (combine unpack elems))
                    (combine (Function_args self) (map fix_self_arg args)))
                 kw
         ∧ (∀ i name v,
              NoDup unpack → unpack !! i = Some name → elems !! i = Some v →
              name ∉ Function_args self → name ∉ kw.*1 →
              d !! name = Some v)).
Proof.
  split; [|split; [|split; [|split; [|split]]]].
  - intros k n self args kw h Hs. unfold Function_call, Function_bind. by rewrite Hs.
  - intros k n self args kw h Hu Hs Hne.
    unfold Function_call, Function_bind, Environment_init, alloc.
    rewrite Hs, (fix_self_no_self _ _ Hs), Environment_init_set_parent, Hu.
    cbn [mbind res_bind bind]. rewrite length_map.
    destruct (Nat.eqb_spec (List.length (Function_args self))
                (List.length args + List.length kw)); [lia|done].
  - intros k n self args last kw h unpack lu Hu Hs Hlen Hne.
    unfold Function_call, Function_bind, Environment_init, alloc.
    rewrite Hs, (fix_self_no_self _ _ Hs), Environment_init_set_parent, Hu.
    cbn [mbind res_bind bind]. rewrite map_app. simpl map.
    unfold unpack_last. rewrite last_snoc, removelast_last.
    cbn [mbind res_bind bind]. rewrite Hlen. cbn [mbind res_bind bind].
    destruct (Nat.eqb_spec (List.length unpack) lu); [lia|done].
  - intros k n self args last kw h unpack e Hu Hs Hlen.
    unfold Function_call, Function_bind, Environment_init, alloc.
    rewrite Hs, (fix_self_no_self _ _ Hs), Environment_init_set_parent, Hu.
    cbn [mbind res_bind bind]. rewrite map_app. simpl map.
    unfold unpack_last. rewrite last_snoc, removelast_last.
    cbn [mbind res_bind bind]. by rewrite Hlen.
  - intros k n self args last kw h unpack elems Hu Hs Hplain Hlen Hit Hne.
    unfold Function_call, Function_bind, Environment_init, alloc.
    rewrite Hs, (fix_self_no_self _ _ Hs), Environment_init_set_parent, Hu.
    cbn [mbind res_bind bind]. rewrite map_app. simpl map.
    unfold unpack_last. rewrite last_snoc, removelast_last.
    cbn [mbind res_bind bind]. rewrite Hlen. cbn [mbind res_bind bind].
    rewrite Nat.eqb_refl. cbn [negb]. rewrite Hit. cbn [mbind res_bind bind].
    erewrite Environment_set_plain; last first.
    + by apply keys_dict_of, keys_combine.
    + apply list_lookup_middle. done.
    + cbn [mbind res_bind bind]. rewrite length_map.
      destruct (Nat.eqb_spec (List.length (Function_args self))
                  (List.length args + List.length kw)); [lia|done].
  - intros k self args last kw h unpack elems Hu Hpu Hpa Hpk Hlen Hit Hcount.
    eexists. split; [|split; [reflexivity|]].
    + unfold Function_bind, Environment_init, alloc.
      rewrite (has_key_plain _ Hpk), (fix_self_no_self _ _ (has_key_plain _ Hpk)),
        Environment_init_set_parent, Hu.
      cbn [mbind res_bind bind]. rewrite map_app. simpl map.
      unfold unpack_last. rewrite last_snoc, removelast_last.
      cbn [mbind res_bind bind]. rewrite Hlen. cbn [mbind res_bind bind].
      rewrite Nat.eqb_refl. cbn [negb]. rewrite Hit. cbn [mbind res_bind bind].
      erewrite Environment_set_plain; last first.
      { by apply keys_dict_of, keys_combine. }
      { apply list_lookup_middle. done. }
      cbn [mbind res_bind bind]. rewrite length_map.
      rewrite <- Hcount, Nat.eqb_refl. cbn [negb].
      rewrite insert_app_r_alt, Nat.sub_diag by done. cbn [insert list_insert].
      erewrite Environment_set_plain; last first.
      { by apply keys_dict_of, keys_combine. }
      { apply list_lookup_middle. done. }
      cbn [mbind res_bind bind].
      rewrite insert_app_r_alt, Nat.sub_diag by done. cbn [insert list_insert].
      erewrite Environment_set_plain; last first.
      { done. }
      { apply list_lookup_middle. done. }
      cbn [mbind res_bind bind].
      rewrite insert_app_r_alt, Nat.sub_diag by done. cbn [insert list_insert].
      by rewrite !bind_all_dict_of.
    + intros i name v Hnd Hn Hv Hna Hnk.
      rewrite bind_all_lookup_notin by done.
      rewrite bind_all_lookup_notin.
      * by eapply bind_all_combine_lookup.
      * intros Hin. by apply Hna, (elem_of_combine_fst _ (map fix_self_arg args)).
Qed.

Lemma Function_call_arity_witness :
  Function_call 0 0 ret_x [VInt 1] [("self", VInt 2)] [] = Raise (TypeError MultipleValues)
  ∧ Function_call 0 0 ret_x [VInt 1; VInt 2; VInt 3] [] []
    = Raise (TypeError (ExpectedArguments 2 3))
  ∧ Function_call 0 0 with_unpack ([VInt 1] ++ [VList [VInt 7]]) [] []
    = Raise (TypeError (ExpectedUnpack 2 1))
  ∧ Function_call 0 0 with_unpack ([VInt 1] ++ [VInt 7]) [] []
    = Raise (TypeError NoLen)
  ∧ Function_call 0 0 with_unpack ([] ++ [VList [VInt 7; VInt 8]]) [] []
    = Raise (TypeError (ExpectedArguments 1 0))
  ∧ ∃ d, Function_bind 0 with_unpack ([VInt 1] ++ [VList [VInt 7; VInt 8]]) [] []
         = Ok (List.length (@nil obj),
               [] ++ [OEnvironment EnvironmentCls d {[ "last" := VUdef ]}])
         ∧ d !! "a" = Some (VInt 7) ∧ d !! "b" = Some (VInt 8)
         ∧ d !! "x" = Some (VInt 1).
Proof.
  destruct Function_call_arity as (H1 & H2 & H3 & H4 & H5 & H6).
  split; [|split; [|split; [|split; [|split]]]].
  - apply H1. reflexivity.
  - apply (H2 0%nat 0%nat ret_x [VInt 1; VInt 2; VInt 3] []); [reflexivity..|simpl; lia].
  - apply (H3 0%nat 0%nat with_unpack [VInt 1] (VList [VInt 7]) [] [] ["a"; "b"] 1%nat);
      [reflexivity..|simpl; lia].
  - apply (H4 0%nat 0%nat with_unpack [VInt 1] (VInt 7) [] [] ["a"; "b"]); reflexivity.
  - apply (H5 0%nat 0%nat with_unpack [] (VList [VInt 7; VInt 8]) [] [] ["a"; "b"]
              [VInt 7; VInt 8]);
      [reflexivity|reflexivity|repeat constructor|reflexivity|reflexivity|simpl; lia].
  - destruct (H6 0%nat with_unpack [VInt 1] (VList [VInt 7; VInt 8]) [] [] ["a"; "b"]
                 [VInt 7; VInt 8]) as (d & Hb & -> & _);
      [reflexivity|repeat constructor..|reflexivity|reflexivity|reflexivity|].
    eexists. split; [exact Hb|]. repeat split.
Defined.

(** C1 as stated fails where the binding of the unpack names comes before
    the count check: calling [Function('f', 'x', unpack=('a__b',))] with
    [(1, 2, [7])], two arguments besides the unpack argument where one
    parameter is declared, fails with [KeyError], raised by the path
    decoding of [a__b], not with an arity error. *)
Lemma arity_error_preempted :
  Function_unpack unpack_path = Some ["a__b"]
  ∧ List.length (Function_args unpack_path) = 1%nat
  ∧ Function_call 0 0 unpack_path [VInt 1; VInt 2; VList [VInt 7]] [] []
    = Raise (KeyError "a")
  ∧ is_Arity (KeyError "a") = false.
Proof. repeat split. Qed.

(** ** Loops *)

Lemma Function_run_same_next k n h e stack ci1 ci2 :
  CodeIter_next ci1 = CodeIter_next ci2 →
  Function_run k n h e stack ci1 = Function_run k n h e stack ci2.
Proof. intros H. destruct n; [done|]. simpl. by rewrite H. Qed.

Lemma Function_run_straight k n h e stack code lp lps l cs h' stack' :
  run_straight k e cs (h, stack) = Ok (h', stack') →
  Function_run k (List.length cs + n) h e stack (mkCodeIter code lp lps (InFor l cs))
  = Function_run k n h' e stack' (mkCodeIter code lp lps (InFor l [])).
Proof.
  revert h stack. induction cs as [|c cs IH]; intros h stack Hrun.
  - simpl in Hrun. by simplify_eq.
  - destruct c; try done; cbn [run_straight fst snd] in Hrun;
      cbn [List.length Nat.add Function_run CodeIter_next ci_frame ci_code ci_loop ci_loops].
    + destruct (calculate_items k h (VRef e) data) as [kw| |]; try done.
      cbn [mbind res_bind bind] in *.
      destruct (Environment_set k h e (dict_of kw)) as [h1| |]; try done.
      cbn [mbind res_bind bind] in *. by apply IH.
    + destruct (calculate k h data (VRef e)) as [v| |]; try done.
      cbn [mbind res_bind bind] in *. by apply IH.
Qed.

Lemma Function_run_rounds k n h e stack code lp lps l name body xs h' stack' :
  lps !! l = Some (mkLoopIter name xs body) →
  run_rounds k e name body xs (h, stack) = Ok (h', stack') →
  Function_run k (List.length xs * S (List.length body) + n) h e stack
               (mkCodeIter code lp lps (InFor l []))
  = Function_run k n h' e stack'
                 (mkCodeIter code lp (<[l := mkLoopIter name [] body]> lps) (InFor l [])).
Proof.
  revert h stack lps. induction xs as [|x xs IH]; intros h stack lps Hl Hrun.
  - simpl in Hrun. simplify_eq. simpl. by rewrite list_insert_id.
  - cbn [run_rounds] in Hrun.
    destruct (run_straight k e (Code_update [(name, x)] :: body) (h, stack))
      as [[h1 stack1]| |] eqn:Hround; try done.
    cbn [mbind res_bind bind] in Hrun.
    cbn [run_straight fst snd] in Hround.
    replace (List.length (x :: xs) * S (List.length body) + n)%nat
      with (S (List.length body + (List.length xs * S (List.length body) + n)))
      by (simpl; lia).
    cbn [Function_run CodeIter_next ci_frame]. unfold for_loop_in.
    cbn [ci_loops ci_code ci_loop]. rewrite Hl. cbn [LoopIter_next li_iterator li_name li_code].
    destruct (calculate_items k h (VRef e) [(name, x)]) as [kw| |]; try done.
    cbn [mbind res_bind bind] in *.
    destruct (Environment_set k h e (dict_of kw)) as [h2| |]; try done.
    cbn [mbind res_bind bind] in *.
    rewrite (Function_run_straight _ _ _ _ _ _ _ _ _ _ _ _ Hround).
    rewrite (IH h1 stack1 (<[l := mkLoopIter name xs body]> lps)).
    + by rewrite list_insert_insert_eq.
    + apply list_lookup_insert_eq. by eapply lookup_lt_Some.
    + done.
Qed.

Lemma idle_next ci : idle ci → CodeIter_next ci = yield_next_code ci.
Proof.
  intros [Hf Hl]. unfold CodeIter_next. rewrite Hf.
  destruct (ci_loop ci) as [l|] eqn:E; [|done].
  unfold for_loop_in. destruct (ci_loops ci !! l) as [li|] eqn:El; [|done].
  unfold LoopIter_next. by rewrite (Hl l li).
Qed.

(** A Loop activated while no loop is waiting.  The source is reduced once
    and iterated; the dispatcher then runs, for each element in order, the
    instruction binding the loop variable to it followed by the body, and
    goes on with the instructions after the Loop with no loop waiting. *)
Theorem Function_run_loop k n h e stack ci (L : Loop) rest name xs body h' stack' :
  idle ci →
  ci_code ci = Code_loop L :: rest →
  Loop_block_to_exec k h L (VRef e) = Ok (mkLoopIter name xs body) →
  run_rounds k e name body xs (h, stack) = Ok (h', stack') →
  let ci' := mkCodeIter rest (Some (List.length (ci_loops ci)))
                        (ci_loops ci ++ [mkLoopIter name [] body]) AtTop in
  Function_run k (S (List.length xs * S (List.length body) + n)) h e stack ci
  = Function_run k n h' e stack' ci'
  ∧ idle ci'.
Proof.
  intros Hidle Hcode Hblock Hrun ci'. split.
  - cbn [Function_run]. rewrite (idle_next _ Hidle). unfold yield_next_code.
    rewrite Hcode, Hblock. cbn [mbind res_bind bind]. unfold CodeIter_create_loop.
    cbn [ci_code ci_loop ci_loops ci_frame].
    erewrite Function_run_same_next; last first.
    { instantiate (1 := mkCodeIter rest (Some (List.length (ci_loops ci)))
                          (ci_loops ci ++ [mkLoopIter name xs body])
                          (InFor (List.length (ci_loops ci)) [])). done. }
    erewrite Function_run_rounds; [|by apply list_lookup_middle|done].
    rewrite insert_app_r_alt, Nat.sub_diag by done. cbn [insert list_insert].
    apply Function_run_same_next.
    unfold CodeIter_next, for_loop_in. cbn [ci_frame ci_loop ci_loops]. done.
  - split; [done|]. subst ci'. cbn [ci_loop ci_loops]. intros l li [= <-] Hli.
    rewrite list_lookup_middle in Hli by done. by simplify_eq.
Qed.

Lemma draw_add a b ci cs1 ci1 :
  draw a ci = (cs1, ci1) → List.length cs1 = a →
  draw (a + b) ci = (cs1 ++ fst (draw b ci1), snd (draw b ci1)).
Proof.
  revert ci cs1. induction a as [|a IH]; intros ci cs1 Hd Hlen.
  - simpl in Hd. simplify_eq. simpl. by destruct (draw b ci1).
  - simpl in *. destruct (CodeIter_next ci) as [[c ci']|]; [|by simplify_eq].
    destruct (draw a ci') as [cs ci''] eqn:E. simplify_eq. simpl in Hlen.
    rewrite (IH ci' cs) by (done || lia). done.
Qed.

Lemma draw_InFor cs code lp lps l :
  draw (List.length cs) (mkCodeIter code lp lps (InFor l cs))
  = (cs, mkCodeIter code lp lps (InFor l [])).
Proof. induction cs as [|c cs IH]; [done|]. simpl in *. by rewrite IH. Qed.

Lemma draw_rounds code lp lps l name xs body :
  lps !! l = Some (mkLoopIter name xs body) →
  draw (List.length xs * S (List.length body)) (mkCodeIter code lp lps (InFor l []))
  = (flat_map (λ x, Code_update [(name, x)] :: body) xs,
     mkCodeIter code lp (<[l := mkLoopIter name [] body]> lps) (InFor l [])).
Proof.
  revert lps. induction xs as [|x xs IH]; intros lps Hl.
  - simpl. by rewrite list_insert_id.
  - replace (List.length (x :: xs) * S (List.length body))%nat
      with (S (List.length body) + List.length xs * S (List.length body))%nat
      by (simpl; lia).
    assert (H1 : draw (S (List.length body)) (mkCodeIter code lp lps (InFor l []))
      = (Code_update [(name, x)] :: body,
         mkCodeIter code lp (<[l := mkLoopIter name xs body]> lps) (InFor l []))).
    { cbn [draw CodeIter_next ci_frame]. unfold for_loop_in.
      cbn [ci_loops ci_code ci_loop]. rewrite Hl.
      cbn [LoopIter_next li_iterator li_name li_code]. by rewrite draw_InFor. }
    rewrite (draw_add _ _ _ _ _ H1) by done.
    rewrite IH by (apply list_lookup_insert_eq; by eapply lookup_lt_Some).
    cbn [fst snd flat_map]. by rewrite list_insert_insert_eq.
Qed.

Lemma draw_same_next n ci1 ci2 :
  CodeIter_next ci1 = CodeIter_next ci2 → is_Some (CodeIter_next ci2) →
  draw (S n) ci1 = draw (S n) ci2.
Proof. intros H [[c ci'] Hs]. cbn [draw]. by rewrite H, Hs. Qed.

(** What a Loop puts on the stream.  When a [LoopIter] over [xs] is
    registered while no loop is waiting, the instructions drawn next are,
    for each element of [xs] in order, the instruction binding the loop
    variable to that element followed by the instructions of the body; the
    instruction drawn after them is the next one of the enclosing
    sequence. *)
Theorem CodeIter_loop_stream ci name xs body :
  idle ci →
  let n := (List.length xs * S (List.length body))%nat in
  let ci0 := CodeIter_create_loop ci (mkLoopIter name xs body) in
  fst (draw n ci0) = flat_map (λ x, Code_update [(name, x)] :: body) xs
  ∧ fst (draw (n + 1) ci0)
    = flat_map (λ x, Code_update [(name, x)] :: body) xs ++ take 1 (ci_code ci).
Proof.
  intros [Hf Hidle] n ci0.
  assert (Hd : draw n ci0
    = (flat_map (λ x, Code_update [(name, x)] :: body) xs,
       match xs with
       | [] => ci0
       | _ => mkCodeIter (ci_code ci) (Some (List.length (ci_loops ci)))
                (ci_loops ci ++ [mkLoopIter name [] body])
                (InFor (List.length (ci_loops ci)) [])
       end)).
  { subst n ci0. destruct xs as [|x xs]; [done|].
    set (l := List.length (ci_loops ci)).
    pose proof (draw_rounds (ci_code ci) (Some l) (ci_loops ci ++ [mkLoopIter name (x :: xs) body])
                  l name (x :: xs) body (list_lookup_middle _ _ _ _ eq_refl)) as Hr.
    rewrite insert_app_r_alt, Nat.sub_diag in Hr by done. cbn [insert list_insert] in Hr.
    rewrite <- Hr. unfold CodeIter_create_loop. fold l.
    remember (List.length (x :: xs) * S (List.length body))%nat as m eqn:Hm.
    destruct m as [|m]; [simpl in Hm; lia|].
    apply draw_same_next.
    - unfold CodeIter_next. cbn [ci_frame ci_loop]. by rewrite Hf.
    - unfold CodeIter_next, for_loop_in. cbn [ci_frame ci_loop ci_loops].
      rewrite list_lookup_middle by done. by eexists. }
  split; [by rewrite Hd|].
  erewrite draw_add; [|exact Hd|].
  - cbn [fst]. f_equal. cbn [draw].
    assert (Hn : CodeIter_next
      match xs with
      | [] => ci0
      | _ :: _ => mkCodeIter (ci_code ci) (Some (List.length (ci_loops ci)))
                    (ci_loops ci ++ [mkLoopIter name [] body])
                    (InFor (List.length (ci_loops ci)) [])
      end
      = match ci_code ci with
        | [] => None
        | c :: code' =>
            Some (c, mkCodeIter code' (Some (List.length (ci_loops ci)))
                       (ci_loops ci ++ [mkLoopIter name
                                          [] body]) AtTop)
        end).
    { destruct xs; subst ci0; unfold CodeIter_next, CodeIter_create_loop, for_loop_in;
        cbn [ci_frame ci_loop ci_loops ci_code]; rewrite ?Hf;
        rewrite list_lookup_middle by done; done. }
    rewrite Hn. by destruct (ci_code ci).
  - subst n. clear. induction xs as [|x xs IH]; [done|].
    cbn [flat_map]. rewrite length_app, IH. simpl. lia.
Qed.

Lemma CodeIter_loop_stream_witness :
  idle (CodeIter_init [Code_ret])
  ∧ fst (draw 5 (CodeIter_create_loop (CodeIter_init [Code_ret])
                   (mkLoopIter "i" [VInt 1; VInt 2] bar_body)))
    = [Code_update [("i", VInt 1)]] ++ bar_body
      ++ [Code_update [("i", VInt 2)]] ++ bar_body ++ [Code_ret].
Proof.
  assert (Hidle : idle (CodeIter_init [Code_ret])).
  { split; [reflexivity|]. intros l li Hl. discriminate Hl. }
  split; [exact Hidle|].
  exact (proj2 (CodeIter_loop_stream (CodeIter_init [Code_ret]) "i"
                  [VInt 1; VInt 2] bar_body Hidle)).
Defined.

Lemma Function_call_val_enough k n k' n' self args kw h v :
  val_of (Function_call k n self args kw h) = Ok v →
  (k ≤ k')%nat → (n ≤ n')%nat →
  val_of (Function_call k' n' self args kw h) = Ok v.
Proof.
  unfold val_of. intros H Hk Hn.
  destruct (Function_call k n self args kw h) as [[v' h']| |] eqn:E; try done.
  by rewrite (Function_call_enough _ _ k' n' _ _ _ _ _ _ E).
Qed.

(** The test [bar] of the source: over [[1, 2, 3, 4]], starting from
    [w = 0], the loop leaves [w = 30] (and the call returns [w + 12]). *)
Lemma bar_result :
  ∃ h', (∀ k n, (4 ≤ k)%nat → (12 ≤ n)%nat →
           Function_call k n bar [VList [VInt 1; VInt 2; VInt 3; VInt 4]] [] []
           = Ok (VInt 42, h'))
        ∧ binding h' 0 "w" = Some (VInt 30).
Proof.
  eexists. split.
  - intros k n Hk Hn. eapply (Function_call_enough 4 12); [vm_compute; reflexivity|lia..].
  - vm_compute. reflexivity.
Qed.

(** C4, at the call [nest([1, 2])].  The inner Loop is activated once per
    element of the outer one, so its body should run four times and leave
    [w = 4], returned by the call.  Each activation only replaces the one
    loop slot of the stream while the outer loop is still being iterated:
    the first activation never runs, the second runs after the outer loop
    and after the Push of [w], and the call returns the 0 pushed before
    it, leaving [w = 2]. *)
Theorem nested_loop_runs_late :
  ∃ h', (∀ k n, (4 ≤ k)%nat → (12 ≤ n)%nat →
           Function_call k n nest [VList [VInt 1; VInt 2]] [] [] = Ok (VInt 0, h'))
        ∧ binding h' 0 "w" = Some (VInt 2).
Proof.
  eexists. split.
  - intros k n Hk Hn. eapply (Function_call_enough 4 12); [vm_compute; reflexivity|lia..].
  - vm_compute. reflexivity.
Qed.

(** ** The test [bar] on every list of integers *)

Lemma bar_round x a oi i stack :
  run_straight 4 0
    (Code_update [("i", VInt i)] :: bar_body)
    (bar_heap x a oi, stack)
  = Ok (bar_heap x (a + i ^ 2) (Some (VInt i)), stack).
Proof. destruct oi; vm_compute; reflexivity. Qed.

Lemma bar_rounds x xs a oi stack :
  run_rounds 4 0 "i" bar_body (map VInt xs) (bar_heap x a oi, stack)
  = Ok (bar_heap x (sum_squares xs a) (last_bound xs oi), stack).
Proof.
  revert a oi. induction xs as [|i xs IH]; intros a oi; [done|].
  cbn [map run_rounds]. rewrite (bar_round x a oi i stack).
  cbn [mbind res_bind bind]. by rewrite IH.
Qed.

(** The test [bar] on every list of integers (the loop of C4, alone in
    its function): the call [bar(xs)] leaves in [w] the sum of the squares
    of the elements of [xs], added one element after the other in the order
    of the list, returns that sum plus 12, and leaves the loop variable
    bound to the last element. *)
Theorem bar_sums_squares (xs : list Z) :
  ∃ h',
    (∀ k n, (4 ≤ k)%nat → (List.length xs * 2 + 4 ≤ n)%nat →
       Function_call k n bar [VList (map VInt xs)] [] []
       = Ok (VInt (sum_squares xs 0 + 12), h'))
    ∧ binding h' 0 "w" = Some (VInt (sum_squares xs 0))
    ∧ binding h' 0 "i" = last_bound xs None.
Proof.
  set (x := VList (map VInt xs)).
  exists (bar_heap x (sum_squares xs 0) (last_bound xs None)).
  split; [|split; [apply lookup_insert_eq|by destruct (last_bound xs None)]].
  intros k n Hk Hn.
  eapply (Function_call_enough 4 (List.length xs * 2 + 4)); [|done..].
  unfold Function_call.
  assert (Hbind : Function_bind 4 bar [x] [] []
                  = Ok (0%nat, [OEnvironment EnvironmentCls
                                  (<["x" := x]> {[ "__parent__" := VNone ]})
                                  {[ "last" := VUdef ]}]))
    by (vm_compute; reflexivity).
  rewrite Hbind. cbn [mbind res_bind bind].
  replace (List.length xs * 2 + 4)%nat
    with (S (S (List.length (map VInt xs) * 2 + 2))) by (rewrite length_map; lia).
  remember (S (List.length (map VInt xs) * 2 + 2)) as m eqn:Hm.
  cbn [Function_run].
  change (CodeIter_next (CodeIter_init (Function_code bar)))
    with (Some (Code_update [("w", VInt 0)],
                mkCodeIter (tail (Function_code bar)) None [] AtTop)).
  cbv iota beta.
  assert (Hset :
    (kw ← calculate_items 4 [OEnvironment EnvironmentCls
                              (<["x" := x]> {[ "__parent__" := VNone ]})
                              {[ "last" := VUdef ]}] (VRef 0) [("w", VInt 0)];
     Environment_set 4 [OEnvironment EnvironmentCls
                          (<["x" := x]> {[ "__parent__" := VNone ]})
                          {[ "last" := VUdef ]}] 0 (dict_of kw))
    = Ok (bar_heap x 0 None)) by (vm_compute; reflexivity).
  destruct (calculate_items 4 _ (VRef 0) [("w", VInt 0)]) as [kw| |]; try done.
  cbn [mbind res_bind bind] in Hset |- *. rewrite Hset. cbn [mbind res_bind bind].
  destruct (Function_run_loop 4 2 (bar_heap x 0 None) 0 []
              (mkCodeIter (tail (Function_code bar)) None [] AtTop)
              (mkLoop [("i", VFB (var_ "x"))] bar_body)
              [Code_push (VFB (FuncBuilder_func (var_ "w") [VInt 12] op_add)); Code_ret]
              "i" (map VInt xs) bar_body
              (bar_heap x (sum_squares xs 0) (last_bound xs None)) [])
    as [Hrun Hidle].
  - split; [done|]. intros l li Hl. done.
  - reflexivity.
  - vm_compute. reflexivity.
  - apply bar_rounds.
  - change (S (List.length bar_body)) with 2%nat in Hrun. rewrite Hm, Hrun.
    cbn [Function_run]. rewrite (idle_next _ Hidle). cbn [yield_next_code ci_code].
    assert (Hpush : calculate 4 (bar_heap x (sum_squares xs 0) (last_bound xs None))
                      (VFB (FuncBuilder_func (var_ "w") [VInt 12] op_add)) (VRef 0)
                    = Ok (VInt (sum_squares xs 0 + 12))).
    { destruct (last_bound xs None); vm_compute; reflexivity. }
    rewrite Hpush. reflexivity.
Qed.

(** ** The dispatcher allocates nothing *)

Lemma py_setattr_length h o name v h' :
  py_setattr h o name v = Ok h' → List.length h' = List.length h.
Proof.
  unfold py_setattr. intros H. destruct o; try done.
  destruct (is_dunder name); [done|].
  destruct (h !! l) as [[attrs|cls d attrs|nm bases dict]|]; try done.
  - simplify_eq. apply length_insert.
  - destruct (String.eqb name "d"); [done|].
    destruct (is_ClassCls cls && String.eqb name "end"); [done|].
    simplify_eq. apply length_insert.
  - simplify_eq. apply length_insert.
Qed.

Lemma real_attribute_length g h l attr v do_set r h' :
  real_attribute g h l attr v do_set = Ok (r, h') → List.length h' = List.length h.
Proof.
  unfold real_attribute. intros H.
  destruct (h !! l) as [[|cls dic attrs|]|]; try done.
  destruct (literal_key _ _) as [lit| |]; try done. cbn [mbind res_bind bind] in H.
  destruct lit.
  - destruct do_set; [simplify_eq; apply length_insert|].
    destruct (dic !! _); by simplify_eq.
  - destruct (re_findall _) as [|obj names]; [done|].
    destruct (dic !! _); [|done].
    destruct (fixed_names_loop None names); try done. cbn [mbind res_bind bind] in H.
    destruct (unpack_last _) as [[getters setter]| |]; try done.
    cbn [mbind res_bind bind] in H.
    destruct (getattr_chain g _ getters); try done. cbn [mbind res_bind bind] in H.
    destruct do_set.
    + destruct (py_setattr h a0 setter v) eqn:E; try done.
      cbn [mbind res_bind bind] in H. simplify_eq.
      by eapply py_setattr_length.
    + destruct (g a0 setter); cbn [mbind res_bind bind] in H; by simplify_eq.
Qed.

Lemma Environment_set_loop_length k h l kw h' :
  Environment_set_loop k h l kw = Ok h' → List.length h' = List.length h.
Proof.
  revert h. induction kw as [|[key v] kw IH]; intros h H; simpl in H; [by simplify_eq|].
  destruct (real_attribute _ h l key v true) as [[r h1]| |] eqn:E; try done.
  cbn [mbind res_bind bind] in H.
  rewrite (IH _ H). by eapply real_attribute_length.
Qed.

Lemma Environment_set_length k h l kw h' :
  Environment_set k h l kw = Ok h' → List.length h' = List.length h.
Proof.
  unfold Environment_set. destruct (has_key _ _); [done|].
  apply Environment_set_loop_length.
Qed.

Lemma Function_run_length k n h e stack code v h' :
  Function_run k n h e stack code = Ok (v, h') → List.length h' = List.length h.
Proof.
  revert h stack code. induction n as [|n IH]; intros h stack code H; [done|].
  simpl in H. destruct (CodeIter_next code) as [[[] code']|]; try done.
  - destruct (calculate_items _ _ _ _); try done. cbn [mbind res_bind bind] in H.
    destruct (Environment_set _ _ _ _) eqn:E; try done. cbn [mbind res_bind bind] in H.
    rewrite (IH _ _ _ H). by eapply Environment_set_length.
  - destruct (calculate _ _ _ _); try done. cbn [mbind res_bind bind] in H. eauto.
  - destruct (last stack); by simplify_eq.
  - destruct (Condition_code_to_exec _ _ _ _); try done.
    cbn [mbind res_bind bind] in H. eauto.
  - destruct (Loop_block_to_exec _ _ _ _); try done.
    cbn [mbind res_bind bind] in H. eauto.
  - by simplify_eq.
Qed.

(** ** Reading a variable *)

Lemma py_getattr_hook k h l cls d attrs name :
  h !! l = Some (OEnvironment cls d attrs) →
  reaches_hook cls attrs name = true →
  py_getattr (S k) h (VRef l) name = Environment_getattr (py_getattr k h) h l name.
Proof.
  intros Hl Hr. unfold reaches_hook in Hr.
  apply andb_true_iff in Hr as [Hr H4]. apply andb_true_iff in Hr as [Hr H3].
  apply andb_true_iff in Hr as [H1 H2].
  apply negb_true_iff in H1, H2, H4. apply bool_decide_eq_true in H3.
  cbn [py_getattr]. by rewrite Hl, H1, H2, H3, H4.
Qed.

Lemma Environment_getattr_bound g h l cls d attrs name v :
  h !! l = Some (OEnvironment cls d attrs) →
  plain_key name = true →
  d !! name = Some v →
  Environment_getattr g h l name = Ok v.
Proof.
  intros Hl Hp Hd. unfold Environment_getattr. rewrite Hl.
  rewrite (real_attribute_get_plain _ _ _ _ _ _ _ Hl Hp). by rewrite Hd.
Qed.

Lemma FuncBuilder_do_var k h name x :
  FuncBuilder_do k h (var_ name) x
  = if has_dot name then Raise Unmodelled else py_getattr k h x name.
Proof.
  unfold FuncBuilder_do, var_, FuncBuilder_attr, var, FuncBuilder_init.
  cbn [default var_cnt func id repeat FuncBuilder_call apply_closure mbind res_bind bind].
  destruct (has_dot name); [done|]. by destruct (py_getattr k h x name).
Qed.

(** [var.name] reduces to the value bound to [name] in the environment. *)
Lemma calculate_var k h e cls d attrs name v :
  h !! e = Some (OEnvironment cls d attrs) →
  reaches_hook cls attrs name = true →
  plain_key name = true →
  has_dot name = false →
  d !! name = Some v →
  isinstance_FuncBuilder v = false →
  calculate (S (S k)) h (VFB (var_ name)) (VRef e) = Ok v.
Proof.
  intros He Hr Hp Hdot Hd Hv.
  cbn [calculate]. rewrite FuncBuilder_do_var, Hdot.
  rewrite (py_getattr_hook _ _ _ _ _ _ _ He Hr).
  rewrite (Environment_getattr_bound _ _ _ _ _ _ _ _ He Hp Hd).
  cbn [mbind res_bind bind]. by destruct v.
Qed.

(** ** The loop variable *)

Lemma bind_all_app d kw1 kw2 :
  bind_all d (kw1 ++ kw2) = bind_all (bind_all d kw1) kw2.
Proof. unfold bind_all. by rewrite fold_left_app. Qed.

Lemma calculate_items_concrete k h e name x :
  isinstance_FuncBuilder x = false →
  calculate_items k h e [(name, x)] = Ok [(name, x)].
Proof. intros Hx. cbn [calculate_items]. by rewrite calculate_concrete. Qed.

Lemma run_rounds_bind k e name xs h cls d attrs stack :
  h !! e = Some (OEnvironment cls d attrs) →
  plain_key name = true →
  Forall (λ x, isinstance_FuncBuilder x = false) xs →
  run_rounds k e name [] xs (h, stack)
  = Ok (<[e := OEnvironment cls (bind_all d (map (λ x, (name, x)) xs)) attrs]> h, stack).
Proof.
  intros He Hp Hxs. revert h d He.
  induction Hxs as [|x xs Hx _ IH]; intros h d He.
  - simpl. by rewrite list_insert_id.
  - cbn [run_rounds run_straight fst snd].
    rewrite (calculate_items_concrete _ _ _ _ _ Hx). cbn [mbind res_bind bind].
    change (dict_of [(name, x)]) with [(name, x)].
    erewrite Environment_set_plain; [|done|by repeat constructor].
    cbn [mbind res_bind bind].
    rewrite (IH _ (<[name := x]> d)).
    + by rewrite list_insert_insert_eq.
    + apply list_lookup_insert_eq. by eapply lookup_lt_Some.
Qed.

Lemma loop_then_read_returns_last xs x :
  Forall (λ y, isinstance_FuncBuilder y = false) (xs ++ [x]) →
  ∃ h', Function_call 3 (S (List.length (xs ++ [x]) * 1 + 2)) loop_then_read
                      [VList (xs ++ [x])] [] []
        = Ok (x, h')
        ∧ binding h' 0 "i" = Some x
        ∧ List.length h' = 1%nat.
Proof.
  intros Hc. set (L := xs ++ [x]) in *.
  set (d0 := <["x" := VList L]> ({[ "__parent__" := VNone ]} : gmap string value)).
  set (attrs := ({[ "last" := VUdef ]} : gmap string value)).
  set (h0 := [OEnvironment EnvironmentCls d0 attrs]).
  set (d1 := bind_all d0 (map (λ y, ("i", y)) L)).
  set (h1 := [OEnvironment EnvironmentCls d1 attrs]).
  assert (Hbind : Function_bind 3 loop_then_read [VList L] [] [] = Ok (0%nat, h0))
    by (vm_compute; reflexivity).
  assert (Hd1 : d1 !! "i" = Some x).
  { subst d1 L. rewrite map_app, bind_all_app. cbn [map]. apply lookup_insert_eq. }
  exists h1. split; [|split; [exact Hd1|done]].
  unfold Function_call. rewrite Hbind. cbn [mbind res_bind bind].
  destruct (Function_run_loop 3 2 h0 0 [] (CodeIter_init (Function_code loop_then_read))
              (mkLoop [("i", VFB (var_ "x"))] [])
              [Code_push (VFB (var_ "i")); Code_ret] "i" L [] h1 [])
    as [Hrun Hidle].
  - split; [done|]. intros l li Hl. done.
  - reflexivity.
  - unfold Loop_block_to_exec. cbn [loop_data loop_code].
    rewrite (calculate_var 1 h0 0 EnvironmentCls d0 attrs "x" (VList L));
      reflexivity.
  - subst h1. rewrite (run_rounds_bind 3 0 "i" L h0 EnvironmentCls d0 attrs []);
      [reflexivity|reflexivity|reflexivity|exact Hc].
  - cbn [List.length] in Hrun. rewrite Hrun.
    cbn [Function_run]. rewrite (idle_next _ Hidle). cbn [yield_next_code ci_code].
    rewrite (calculate_var 1 h1 0 EnvironmentCls d1 attrs "i" x); try reflexivity;
      try exact Hd1.
    apply Forall_app in Hc as [_ Hx]. by inversion Hx.
Qed.

(** ** Class scopes *)

Lemma py_type_inv h name bases dict c h' :
  py_type h name bases dict = Ok (c, h') →
  ∃ nm bs, name = VStr nm ∧ bases = VList bs
           ∧ c = List.length h ∧ h' = h ++ [OType nm bs dict].
Proof.
  unfold py_type. intros H. destruct name; try done. destruct bases; try done.
  case_bool_decide; [done|].
  destruct l as [|b [|]]; try done.
  - simplify_eq. by eexists _, _.
  - destruct (is_type h b); [|done]. simplify_eq. by eexists _, _.
Qed.

Lemma is_type_mono h b o :
  is_type h b = true → is_type (h ++ [o]) b = true.
Proof.
  unfold is_type. destruct b; try done.
  destruct (h !! l) as [[]|] eqn:E; try done.
  intros _. by rewrite (lookup_app_l_Some _ _ _ _ E).
Qed.

Lemma is_type_insert_env h b p cls d attrs cls' d' attrs' :
  h !! p = Some (OEnvironment cls d attrs) →
  is_type h b = true →
  is_type (<[p := OEnvironment cls' d' attrs']> h) b = true.
Proof.
  unfold is_type. intros Hp. destruct b; try done.
  destruct (decide (l = p)) as [->|Hne]; [by rewrite Hp|].
  by rewrite list_lookup_insert_ne.
Qed.

Lemma py_type_again h nm bs dict c h' h2 :
  py_type h (VStr nm) (VList bs) dict = Ok (c, h') →
  (∀ b, is_type h b = true → is_type h2 b = true) →
  py_type h2 (VStr nm) (VList bs) dict = Ok (List.length h2, h2 ++ [OType nm bs dict]).
Proof.
  unfold py_type. intros H Hmono. case_bool_decide; [done|].
  destruct bs as [|b [|]]; try done.
  destruct (is_type h b) eqn:E; [|done]. by rewrite (Hmono _ E).
Qed.

(** C8, as the code has it.  Closing a class scope whose name is a plain
    key materialises a type from its name, its bases and its bindings, and
    binds it under that name in the parent scope when there is one (the
    parent is then what closing returns, otherwise the type).  Closing
    records nothing in the scope, and closing the same scope again does the
    same again: it succeeds, materialises one more type from the same name,
    bases and bindings, and binds that one in the parent. *)
Theorem Class_end_again :
  ∀ k h l d attrs nm bases parent v1 h1,
    h !! l = Some (OEnvironment ClassCls d attrs) →
    attrs !! "name" = Some (VStr nm) →
    attrs !! "bases" = Some (VList bases) →
    attrs !! "parent" = Some parent →
    plain_key nm = true →
    parent ≠ VRef l →
    Class_end k h l = Ok (v1, h1) →
    h1 !! List.length h = Some (OType nm bases d)
    ∧ (parent = VNone → v1 = VRef (List.length h))
    ∧ (∀ p, parent = VRef p →
         v1 = parent ∧ binding h1 p nm = Some (VRef (List.length h)))
    ∧ ∃ v2 h2,
        Class_end k h1 l = Ok (v2, h2)
        ∧ h2 !! List.length h1 = Some (OType nm bases d)
        ∧ (parent = VNone → v2 = VRef (List.length h1))
        ∧ (∀ p, parent = VRef p →
             v2 = parent ∧ binding h2 p nm = Some (VRef (List.length h1))).
Proof.
  intros k h l d attrs nm bases parent v1 h1 Hl Hname Hbases Hparent Hplain Hself Hend.
  unfold Class_end in Hend. rewrite Hl in Hend. unfold instance_attr in Hend.
  rewrite Hname, Hbases, Hparent in Hend. cbn [mbind res_bind bind] in Hend.
  destruct (py_type h (VStr nm) (VList bases) d) as [[c h0]| |] eqn:Hty; try done.
  cbn [mbind res_bind bind] in Hend.
  destruct (py_type_inv _ _ _ _ _ _ Hty) as (nm' & bs' & [= <-] & [= <-] & -> & ->).
  assert (Hll : (l < List.length h)%nat) by (by eapply lookup_lt_Some).
  destruct parent as [| | | | | |p|]; try done.
  - (* no parent *)
    injection Hend as <- <-.
    split; [by apply list_lookup_middle|]. split; [done|]. split; [done|].
    exists (VRef (List.length (h ++ [OType nm bases d]))),
      ((h ++ [OType nm bases d]) ++ [OType nm bases d]).
    split; [|split; [|split; [done|done]]].
    + unfold Class_end. rewrite (lookup_app_l_Some _ _ _ _ Hl). unfold instance_attr.
      rewrite Hname, Hbases, Hparent. cbn [mbind res_bind bind].
      rewrite (py_type_again _ _ _ _ _ _ (h ++ [OType nm bases d]) Hty)
        by (intros; by apply is_type_mono).
      cbn [mbind res_bind bind]. reflexivity.
    + by apply list_lookup_middle.
  - (* a parent environment *)
    assert (Hpl : p ≠ l) by congruence.
    destruct ((h ++ [OType nm bases d]) !! p) as [[|pcls pd pattrs|]|] eqn:Hp; try done.
    case_bool_decide as Hset; [done|].
    assert (Hph : h !! p = Some (OEnvironment pcls pd pattrs)).
    { apply lookup_app_Some in Hp as [Hp|[Hge Hp]]; [done|].
      destruct (p - List.length h)%nat; [done|]. by destruct n. }
    assert (Hpp : (p < List.length h)%nat) by (by eapply lookup_lt_Some).
    erewrite Environment_set_plain in Hend; [|exact Hp|by repeat constructor].
    cbn [mbind res_bind bind bind_all fold_left fst snd] in Hend.
    injection Hend as <- <-.
    set (h1 := <[p := OEnvironment pcls (<[nm := VRef (List.length h)]> pd) pattrs]>
                 (h ++ [OType nm bases d])).
    assert (Hlen1 : List.length h1 = S (List.length h)).
    { subst h1. rewrite length_insert, length_app. simpl. lia. }
    split.
    { subst h1. rewrite list_lookup_insert_ne by lia. by apply list_lookup_middle. }
    split; [done|]. split.
    { intros p' [= <-]. split; [done|]. unfold binding. subst h1.
      rewrite list_lookup_insert_eq by (rewrite length_app; lia).
      apply lookup_insert_eq. }
    assert (Hl1 : h1 !! l = Some (OEnvironment ClassCls d attrs)).
    { subst h1. rewrite list_lookup_insert_ne by done.
      by apply lookup_app_l_Some. }
    assert (Hp1 : h1 !! p
      = Some (OEnvironment pcls (<[nm := VRef (List.length h)]> pd) pattrs)).
    { subst h1. apply list_lookup_insert_eq. rewrite length_app. lia. }
    exists (VRef p),
      (<[p := OEnvironment pcls
                (<[nm := VRef (List.length h1)]> (<[nm := VRef (List.length h)]> pd))
                pattrs]> (h1 ++ [OType nm bases d])).
    split; [|split; [|split; [done|]]].
    + unfold Class_end. rewrite Hl1. unfold instance_attr.
      rewrite Hname, Hbases, Hparent. cbn [mbind res_bind bind].
      rewrite (py_type_again _ _ _ _ _ _ h1 Hty); last first.
      { intros b Hb. subst h1. eapply is_type_insert_env; [exact Hp|].
        by apply is_type_mono. }
      cbn [mbind res_bind bind].
      rewrite (lookup_app_l_Some _ _ _ _ Hp1).
      rewrite bool_decide_eq_false_2 by done.
      erewrite Environment_set_plain;
        [|by apply lookup_app_l_Some|by repeat constructor].
      cbn [mbind res_bind bind]. reflexivity.
    + rewrite list_lookup_insert_ne by lia. by apply list_lookup_middle.
    + intros p' [= <-]. split; [done|]. unfold binding.
      rewrite list_lookup_insert_eq by (rewrite length_app; lia).
      apply lookup_insert_eq.
Qed.

(** C8 as stated fails: the second close of a class scope succeeds.  The
    scope [Foo] opened in a parent environment is closed twice; both closes
    return the parent, and each binds [Foo] in it to a type of its own. *)
Lemma Class_closes_twice :
  ∃ h1 h2,
    Class_end 0 Foo_heap 1 = Ok (VRef 0, h1)
    ∧ Class_end 0 h1 1 = Ok (VRef 0, h2)
    ∧ binding h1 0 "Foo" = Some (VRef 2)
    ∧ binding h2 0 "Foo" = Some (VRef 3)
    ∧ h2 !! 2%nat = Some (OType "Foo" [] {[ "x" := VInt 1 ]})
    ∧ h2 !! 3%nat = Some (OType "Foo" [] {[ "x" := VInt 1 ]}).
Proof.
  eexists _, _. split; [vm_compute; reflexivity|].
  split; [vm_compute; reflexivity|]. repeat split.
Qed.

Lemma Class_end_again_witness :
  ∃ h1,
    Class_end 0 Foo_heap 1 = Ok (VRef 0, h1)
    ∧ h1 !! List.length Foo_heap = Some (OType "Foo" [] {[ "x" := VInt 1 ]})
    ∧ ∃ v2 h2, Class_end 0 h1 1 = Ok (v2, h2)
               ∧ h2 !! List.length h1 = Some (OType "Foo" [] {[ "x" := VInt 1 ]}).
Proof.
  eexists. split; [vm_compute; reflexivity|].
  edestruct (Class_end_again 0 Foo_heap 1 {[ "x" := VInt 1 ]}
               (<["name" := VStr "Foo"]> (<["bases" := VList []]>
                  (<["parent" := VRef 0]> {[ "last" := VUdef ]})))
               "Foo" [] (VRef 0))
    as (H1 & _ & _ & v2 & h2 & H2 & H3 & _);
    [vm_compute; reflexivity|reflexivity|reflexivity|reflexivity|reflexivity|
     discriminate|vm_compute; reflexivity|].
  split; [exact H1|]. exists v2, h2. split; [exact H2|exact H3].
Defined.

(** ** The path rule of Environment.set *)

Lemma literal_key_cases attr :
  attr = "$"
  ∨ List.length (re_findall attr) = 1%nat
  ∨ (∃ n0 rest, re_findall attr = n0 :: rest ∧ dunder_prefix n0 = true
                ∧ last (re_findall attr) = Some "__") →
  literal_key attr (re_findall attr) = Ok true.
Proof.
  unfold literal_key. intros [->|[Hlen|(n0 & rest & Hn & Hp & Hlast)]]; [done|..].
  - destruct (String.eqb attr "$"); [done|].
    destruct (re_findall attr) as [|n0 [|]]; try done.
    by rewrite orb_true_r.
  - destruct (String.eqb attr "$"); [done|].
    rewrite Hn in *. rewrite Hp, Hlast.
    by rewrite bool_decide_eq_true_2.
Qed.

(** C6, as the code has it.  [set(a__b = v)], where [a] is bound to an
    existing object, sets the attribute [b] of that object and changes
    nothing else: no key [a__b] and no object is created.  [set(_a = v)]
    and [set(__foo__ = v)] bind the keys [_a] and [__foo__] as they are.
    In general a name is used as a literal key when it is the self-marker
    [$], when it splits into exactly one segment, or when its first segment
    starts with the separator and its last segment is the separator
    itself. *)
Theorem Environment_set_path_rule :
  (∀ k h l cls d attrs o oattrs v,
     h !! l = Some (OEnvironment cls d attrs) →
     d !! "a" = Some (VRef o) →
     h !! o = Some (OInstance oattrs) →
     Environment_set k h l [("a__b", v)]
     = Ok (<[o := OInstance (<["b" := v]> oattrs)]> h))
  ∧ (∀ k h l cls d attrs v,
       h !! l = Some (OEnvironment cls d attrs) →
       Environment_set k h l [("_a", v)]
       = Ok (<[l := OEnvironment cls (<["_a" := v]> d) attrs]> h)
       ∧ Environment_set k h l [("__foo__", v)]
         = Ok (<[l := OEnvironment cls (<["__foo__" := v]> d) attrs]> h))
  ∧ (∀ k h l cls d attrs attr v,
       h !! l = Some (OEnvironment cls d attrs) →
       attr ≠ "self" →
       attr = "$"
       ∨ List.length (re_findall attr) = 1%nat
       ∨ (∃ n0 rest, re_findall attr = n0 :: rest ∧ dunder_prefix n0 = true
                     ∧ last (re_findall attr) = Some "__") →
       Environment_set k h l [(attr, v)]
       = Ok (<[l := OEnvironment cls (<[attr := v]> d) attrs]> h)).
Proof.
  split; [|split].
  - intros k h l cls d attrs o oattrs v Hl Hd Ho.
    unfold Environment_set.
    change (has_key "self" [("a__b", v)]) with false.
    cbn [Environment_set_loop]. unfold real_attribute. rewrite Hl.
    change (self_to_dollar "a__b") with "a__b".
    change (re_findall "a__b") with ["a"; "__b"].
    change (literal_key "a__b" ["a"; "__b"]) with (@Ok bool false).
    cbn [mbind res_bind bind]. change (self_to_dollar "a") with "a". rewrite Hd.
    change (fixed_names_loop None ["__b"]) with (@Ok (list string) ["b"]).
    cbn [mbind res_bind bind].
    change (unpack_last ["b"]) with (@Ok (list string * string) ([], "b")).
    cbn [mbind res_bind bind getattr_chain]. unfold py_setattr.
    change (is_dunder "b") with false. rewrite Ho. done.
  - intros k h l cls d attrs v Hl. split.
    + erewrite Environment_set_plain; [done|done|by repeat constructor].
    + erewrite Environment_set_plain; [done|done|by repeat constructor].
  - intros k h l cls d attrs attr v Hl Hself Hlit.
    erewrite Environment_set_plain; [done|done|].
    repeat constructor. unfold plain_key. cbn [fst].
    rewrite (literal_key_cases _ Hlit).
    destruct (String.eqb_spec attr "self"); done.
Qed.

Lemma Environment_set_path_rule_witness :
  Environment_set 0 underscore_heap 0 [("a__b", VInt 1)]
  = Ok (<[1%nat := OInstance (<["b" := VInt 1]> ∅)]> underscore_heap)
  ∧ Environment_set 0 [OEnvironment EnvironmentCls ∅ ∅] 0 [("_a", VInt 1)]
    = Ok (<[0%nat := OEnvironment EnvironmentCls (<["_a" := VInt 1]> ∅) ∅]>
            [OEnvironment EnvironmentCls ∅ ∅])
  ∧ Environment_set 0 [OEnvironment EnvironmentCls ∅ ∅] 0 [("__f__o__o__", VInt 1)]
    = Ok (<[0%nat := OEnvironment EnvironmentCls (<["__f__o__o__" := VInt 1]> ∅) ∅]>
            [OEnvironment EnvironmentCls ∅ ∅]).
Proof.
  destruct Environment_set_path_rule as (H1 & H2 & H3).
  split; [|split].
  - eapply H1; reflexivity.
  - eapply (H2 0%nat [OEnvironment EnvironmentCls ∅ ∅] 0%nat). reflexivity.
  - apply H3; [reflexivity|discriminate|].
    right. right. exists "__f", ["__o"; "__o"; "__"]. repeat split.
Defined.

(** C6 as stated fails for a name that starts and ends with the separator
    yet starts with three underscores.  [____] splits into the segments
    [_], [_], [__], the first of which does not start with the separator:
    [set(____ = 1)] sets the attribute [_] of the object bound to [_] and
    binds no key [____]. *)
Lemma four_underscores_is_a_path :
  dunder_prefix "____" = true
  ∧ dunder_suffix "____" = true
  ∧ re_findall "____" = ["_"; "_"; "__"]
  ∧ Environment_set 0 underscore_heap 0 [("____", VInt 1)]
    = Ok (<[1%nat := OInstance (<["_" := VInt 1]> ∅)]> underscore_heap)
  ∧ binding (<[1%nat := OInstance (<["_" := VInt 1]> ∅)]> underscore_heap) 0 "____"
    = None.
Proof. repeat split. Qed.

(** ** Names that start and end with the separator *)

Lemma dunder_prefix_inv s :
  dunder_prefix s = true → ∃ r, s = String "_" (String "_" r).
Proof.
  unfold dunder_prefix. destruct s as [|a [|b r]]; cbn [String.prefix]; try done.
  - by destruct (ascii_dec "_" a).
  - destruct (ascii_dec "_" a) as [<-|]; [|done].
    destruct (ascii_dec "_" b) as [<-|]; [|done]. by exists r.
Qed.

Lemma dunder_prefix_cons c s :
  c ≠ "_"%char → dunder_prefix (String c s) = false.
Proof.
  intros Hc. unfold dunder_prefix. cbn [String.prefix].
  by destruct (ascii_dec "_" c); [congruence|].
Qed.

Lemma dunder_prefix_cons2 c s :
  c ≠ "_"%char → dunder_prefix (String "_" (String c s)) = false.
Proof.
  intros Hc. unfold dunder_prefix. cbn [String.prefix].
  destruct (ascii_dec "_" "_"); [|done].
  by destruct (ascii_dec "_" c); [congruence|].
Qed.

Lemma lookahead_word s :
  word_string s = true → lookahead s = dunder_prefix s || String.eqb s "".
Proof.
  intros Hw. unfold lookahead.
  destruct (String.eqb_spec s (String "010"%char "")) as [->|_]; [done|].
  by rewrite orb_false_r.
Qed.

Lemma lazy_word_cons c r :
  lazy_word (String c r)
  = if is_word c then
      if lookahead r then Some (String c "", r)
      else match lazy_word r with
           | Some (m, r') => Some (String c m, r')
           | None => None
           end
    else None.
Proof. done. Qed.

Lemma lazy_word_word s :
  word_string s = true → s ≠ "" →
  ∃ m r, lazy_word s = Some (m, r) ∧ s = m +:+ r ∧ m ≠ ""
         ∧ word_string r = true ∧ lookahead r = true.
Proof.
  induction s as [|c s IH]; [done|]. intros Hw _.
  cbn [word_string] in Hw. apply andb_true_iff in Hw as [Hc Hw].
  cbn [lazy_word]. rewrite Hc.
  destruct (lookahead s) eqn:Hla.
  - exists (String c ""), s. by repeat split.
  - destruct s as [|c' s']; [done|].
    destruct IH as (m & r & Hl & Hs & Hm & Hr & Hlr); [done|done|].
    rewrite Hl. exists (String c m), r. repeat split; try done.
    simpl. by rewrite Hs.
Qed.

Lemma lazy_word_to_end s m :
  lazy_word s = Some (m, "") → dunder_suffix s = true → s = "__".
Proof.
  revert m. induction s as [|c s IH]; intros m Hl Hs; [done|].
  cbn [lazy_word] in Hl. destruct (is_word c); [|done].
  destruct (lookahead s) eqn:Hla.
  - injection Hl as <- ->. simpl in Hs. by destruct (c =? "_")%char.
  - destruct (lazy_word s) as [[m' r']|] eqn:E; [|done]. injection Hl as <- ->.
    cbn [dunder_suffix] in Hs. apply orb_true_iff in Hs as [Hs|Hs].
    + by apply String.eqb_eq in Hs.
    + rewrite (IH m' eq_refl Hs) in Hla. done.
Qed.

Lemma dunder_suffix_app m r :
  dunder_suffix (m +:+ r) = true → (2 ≤ String.length r)%nat → dunder_suffix r = true.
Proof.
  induction m as [|c m IH]; intros Hs Hr; [done|].
  simpl in Hs. apply orb_true_iff in Hs as [Hs|Hs]; [|by apply IH].
  destruct (c =? "_")%char; [|done].
  destruct m as [|c2 m]; simpl in *.
  - destruct r as [|c3 [|c4 r]]; simpl in *; try lia.
    destruct (c3 =? "_")%char; done.
  - destruct (c2 =? "_")%char; [|done].
    destruct m; simpl in *; [|done]. destruct r; simpl in *; [lia|done].
Qed.

Lemma length_append m r :
  String.length (m +:+ r) = (String.length m + String.length r)%nat.
Proof. induction m; simpl; [done|]. by rewrite IHm. Qed.

Lemma findall_from_last fuel s :
  (String.length s < fuel)%nat →
  word_string s = true →
  dunder_suffix s = true →
  last (findall_from fuel s) = Some "__".
Proof.
  revert s. induction fuel as [|fuel IH]; intros s Hlen Hw Hs; [lia|].
  assert (Hne : s ≠ "") by (intros ->; done).
  destruct (lazy_word_word s Hw Hne) as (m & r & Hl & Heq & Hm & Hwr & Hla).
  cbn [findall_from]. rewrite Hl.
  destruct r as [|c r'].
  - rewrite (lazy_word_to_end _ _ Hl Hs) in Hl. injection Hl as <-.
    by destruct fuel.
  - remember (String c r') as r eqn:Er.
    assert (Hpre : dunder_prefix r = true).
    { rewrite (lookahead_word _ Hwr) in Hla. subst r.
      by rewrite orb_false_r in Hla. }
    assert (Hr2 : (2 ≤ String.length r)%nat).
    { destruct (dunder_prefix_inv _ Hpre) as [t ->]. simpl. lia. }
    assert (Hsr : dunder_suffix r = true).
    { rewrite Heq in Hs. by apply (dunder_suffix_app m). }
    assert (Hlr : (String.length r < fuel)%nat).
    { rewrite Heq, length_append in Hlen. destruct m; [done|]. simpl in Hlen. lia. }
    specialize (IH r Hlr Hwr Hsr).
    destruct (findall_from fuel r) as [|x l] eqn:E; [done|]. exact IH.
Qed.

(** A name of word characters that starts with the separator, but not with
    three underscores, and ends with the separator is used as a literal
    key. *)
Lemma dunder_name_plain attr :
  word_string attr = true →
  dunder_prefix attr = true →
  String.prefix "___" attr = false →
  dunder_suffix attr = true →
  plain_key attr = true.
Proof.
  intros Hw Hp H3 Hs.
  destruct (dunder_prefix_inv _ Hp) as [s2 ->].
  assert (Hlast : last (re_findall (String "_" (String "_" s2))) = Some "__").
  { apply findall_from_last; [lia|done|done]. }
  destruct s2 as [|c t]; [reflexivity|].
  assert (Hc : c ≠ "_"%char).
  { intros ->. destruct t; vm_compute in H3; done. }
  unfold plain_key, literal_key.
  change (String.eqb (String "_" (String "_" (String c t))) "self") with false.
  change (String.eqb (String "_" (String "_" (String c t))) "$") with false.
  cbn [negb andb].
  destruct (re_findall (String "_" (String "_" (String c t)))) as [|n0 rest] eqn:E;
    [done|].
  rewrite Hlast. rewrite bool_decide_eq_true_2 by done.
  assert (Hn0 : dunder_prefix n0 = true).
  { unfold re_findall in E. cbn [findall_from] in E.
    cbn [word_string] in Hw.
    apply andb_true_iff in Hw as [_ Hw]. apply andb_true_iff in Hw as [_ Hw].
    assert (Hw1 : word_string (String "_" (String c t)) = true) by done.
    change (word_string (String c t) = true) in Hw.
    rewrite lazy_word_cons in E.
    change (is_word "_") with true in E. cbv iota in E.
    rewrite (lookahead_word _ Hw1) in E.
    rewrite dunder_prefix_cons2 in E by done.
    change (String.eqb (String "_" (String c t)) "") with false in E.
    cbn [orb] in E.
    rewrite lazy_word_cons in E.
    change (is_word "_") with true in E. cbv iota in E.
    rewrite (lookahead_word _ Hw) in E.
    rewrite dunder_prefix_cons in E by done.
    change (String.eqb (String c t) "") with false in E. cbn [orb] in E.
    destruct (lazy_word_word (String c t)) as (m & r & Hl & _); [done|done|].
    rewrite Hl in E. injection E as <- _. by destruct m. }
  by rewrite Hn0.
Qed.

Lemma dunder_name_plain_witness :
  word_string "__init__" = true
  ∧ dunder_prefix "__init__" = true
  ∧ String.prefix "___" "__init__" = false
  ∧ dunder_suffix "__init__" = true
  ∧ plain_key "__init__" = true.
Proof.
  do 4 (split; [reflexivity|]).
  apply (dunder_name_plain "__init__"); reflexivity.
Defined.

(** ** Lookup along the parent chain *)

Lemma Environment_getattr_plain g h l cls d attrs name :
  h !! l = Some (OEnvironment cls d attrs) →
  plain_key name = true →
  Environment_getattr g h l name
  = match d !! name with
    | Some v => Ok v
    | None => match d !! "__parent__" with
              | None | Some VNone => Raise (AttributeError name)
              | Some parent => g parent name
              end
    end.
Proof.
  intros Hl Hp. unfold Environment_getattr. rewrite Hl.
  rewrite (real_attribute_get_plain _ _ _ _ _ _ _ Hl Hp).
  by destruct (d !! name).
Qed.

Lemma Environment_getattr_chain k h l ls name :
  scope_chain h l ls →
  plain_key name = true →
  Forall (hook_reached_at h name) (tail ls) →
  (List.length ls ≤ S k)%nat →
  Environment_getattr (py_getattr k h) h l name
  = match chain_lookup h name ls with
    | Some v => Ok v
    | None => Raise (AttributeError name)
    end.
Proof.
  intros Hc Hp. revert k.
  induction Hc as [l cls d attrs Hl Hpar | l cls d attrs p ps Hl Hpar Hc IH];
    intros k Hhook Hlen.
  - rewrite (Environment_getattr_plain _ _ _ _ _ _ _ Hl Hp).
    cbn [chain_lookup]. unfold binding. rewrite Hl.
    destruct (d !! name); [done|]. by destruct Hpar as [-> | ->].
  - rewrite (Environment_getattr_plain _ _ _ _ _ _ _ Hl Hp).
    cbn [chain_lookup]. unfold binding at 1. rewrite Hl.
    destruct (d !! name); [done|]. rewrite Hpar.
    cbn [tail] in Hhook.
    assert (Hps : ∃ ps', ps = p :: ps') by (inversion Hc; eauto).
    destruct Hps as [ps' ->].
    apply Forall_cons in Hhook as [Hhp Hhook].
    unfold hook_reached_at in Hhp.
    destruct (h !! p) as [[|pcls pd pattrs|]|] eqn:Hpl; try done.
    destruct k as [|k]; [simpl in Hlen; lia|].
    rewrite (py_getattr_hook _ _ _ _ _ _ _ Hpl Hhp).
    apply IH; [done|simpl in *; lia].
Qed.

(** C7, as the code has it, for a name that the path rule uses as a
    literal key.  The lookup of an environment returns its local binding of
    the name when it has one.  On a local miss with a parent present it
    returns what the host's attribute access finds on the parent, which for
    a parent environment is that environment's own lookup, unless the name
    is an attribute of the environment object itself ([last], [d], a
    method).  With no parent it fails with [AttributeError].  Along a
    parent chain of environments on which the name is no such attribute the
    result is therefore the first binding of the name, and
    [AttributeError] when no scope of the chain binds it. *)
Theorem Environment_lookup_chain :
  (∀ g h l cls d attrs name v,
     h !! l = Some (OEnvironment cls d attrs) →
     plain_key name = true →
     d !! name = Some v →
     Environment_getattr g h l name = Ok v)
  ∧ (∀ g h l cls d attrs name parent,
       h !! l = Some (OEnvironment cls d attrs) →
       plain_key name = true →
       d !! name = None →
       d !! "__parent__" = Some parent →
       parent ≠ VNone →
       Environment_getattr g h l name = g parent name)
  ∧ (∀ k h p cls d attrs name,
       h !! p = Some (OEnvironment cls d attrs) →
       reaches_hook cls attrs name = true →
       py_getattr (S k) h (VRef p) name
       = Environment_getattr (py_getattr k h) h p name)
  ∧ (∀ g h l cls d attrs name,
       h !! l = Some (OEnvironment cls d attrs) →
       plain_key name = true →
       d !! name = None →
       d !! "__parent__" = None ∨ d !! "__parent__" = Some VNone →
       Environment_getattr g h l name = Raise (AttributeError name))
  ∧ (∀ k h l ls name,
       scope_chain h l ls →
       plain_key name = true →
       Forall (hook_reached_at h name) (tail ls) →
       (List.length ls ≤ S k)%nat →
       Environment_getattr (py_getattr k h) h l name
       = match chain_lookup h name ls with
         | Some v => Ok v
         | None => Raise (AttributeError name)
         end).
Proof.
  split; [|split; [|split; [|split]]].
  - intros g h l cls d attrs name v Hl Hp Hd.
    by rewrite (Environment_getattr_plain _ _ _ _ _ _ _ Hl Hp), Hd.
  - intros g h l cls d attrs name parent Hl Hp Hd Hpar Hne.
    rewrite (Environment_getattr_plain _ _ _ _ _ _ _ Hl Hp), Hd, Hpar.
    by destruct parent.
  - intros. by eapply py_getattr_hook.
  - intros g h l cls d attrs name Hl Hp Hd Hpar.
    rewrite (Environment_getattr_plain _ _ _ _ _ _ _ Hl Hp), Hd.
    by destruct Hpar as [-> | ->].
  - intros. by apply Environment_getattr_chain.
Qed.

Lemma child_parent_chain : scope_chain child_parent_heap 0 [0; 1]%nat.
Proof.
  eapply chain_parent; [reflexivity|reflexivity|].
  eapply chain_root; [reflexivity|by left].
Qed.

Lemma Environment_lookup_chain_witness :
  Environment_getattr (py_getattr 0 xyz_heap) xyz_heap 0 "y" = Ok (VInt 3)
  ∧ Environment_getattr (py_getattr 1 child_parent_heap) child_parent_heap 0 "y"
    = py_getattr 1 child_parent_heap (VRef 1) "y"
  ∧ py_getattr 1 child_parent_heap (VRef 1) "y"
    = Environment_getattr (py_getattr 0 child_parent_heap) child_parent_heap 1 "y"
  ∧ Environment_getattr (py_getattr 0 xyz_heap) xyz_heap 0 "w"
    = Raise (AttributeError "w")
  ∧ Environment_getattr (py_getattr 1 child_parent_heap) child_parent_heap 0 "y"
    = match chain_lookup child_parent_heap "y" [0; 1]%nat with
      | Some v => Ok v
      | None => Raise (AttributeError "y")
      end.
Proof.
  destruct Environment_lookup_chain as (H1 & H2 & H3 & H4 & H5).
  split; [|split; [|split; [|split]]].
  - eapply H1; reflexivity.
  - eapply H2; [reflexivity|reflexivity|reflexivity|reflexivity|discriminate].
  - eapply H3; reflexivity.
  - eapply H4; [reflexivity|reflexivity|reflexivity|by left].
  - apply H5; [apply child_parent_chain|reflexivity| |simpl; lia].
    repeat constructor.
Defined.

(** C7 as stated fails for a name that is an attribute of the parent
    environment object itself.  The child scope has a parent, neither binds
    [last], and the lookup of [last] on the child does not fail: on the
    local miss it asks the parent object for its attribute [last] and
    returns the [udef] stored there by [Environment.__init__]. *)
Lemma lookup_finds_parent_attribute :
  scope_chain child_parent_heap 0 [0; 1]%nat
  ∧ binding child_parent_heap 0 "last" = None
  ∧ binding child_parent_heap 1 "last" = None
  ∧ Environment_getattr (py_getattr 1 child_parent_heap) child_parent_heap 0 "last"
    = Ok VUdef.
Proof. split; [apply child_parent_chain|]. repeat split. Qed.

(** The empty name has no segment at all, and its lookup fails with
    [IndexError], raised by [names[0]]. *)
Lemma lookup_of_empty_name :
  re_findall "" = []
  ∧ Environment_getattr (py_getattr 1 child_parent_heap) child_parent_heap 0 ""
    = Raise IndexError.
Proof. repeat split. Qed.

(** ** Arithmetic expressions reduce to what they denote *)

Lemma yields_after_pos k h env d fb z : yields_after k h env d fb z → (1 ≤ d)%nat.
Proof. destruct d; [done|lia]. Qed.

Lemma yields_after_var k h env name z :
  has_dot name = false →
  py_getattr k h env name = Ok (VInt z) →
  yields_after k h env 1 (var_ name) z.
Proof.
  intros Hdot Hget. split; [cbn; lia|].
  cbn. by rewrite Hdot.
Qed.

Lemma py_oper_int oper x y :
  arith_oper oper = true →
  py_oper oper (VInt x) (VInt y) = Ok (VInt (oper_Z oper x y)).
Proof. by destruct oper. Qed.

Lemma yields_after_func_int k h env oper c d self z :
  arith_oper oper = true →
  yields_after k h env d self z →
  yields_after k h env d (FuncBuilder_func self [VInt c] oper) (oper_Z oper z c).
Proof.
  intros Ho. revert self. induction d as [|d IH]; intros self; [done|].
  intros [Hcnt H]. split; [done|].
  cbn [FuncBuilder_func FuncBuilder_init default from_option id func apply_closure].
  destruct d as [|d].
  - rewrite H. cbn [mbind res_bind bind]. by apply py_oper_int.
  - destruct H as (fb' & -> & H). cbn [mbind res_bind bind].
    eexists. split; [reflexivity|]. by apply IH.
Qed.

Lemma yields_after_rfunc k h env oper c d self z :
  arith_oper oper = true →
  yields_after k h env d self z →
  yields_after k h env d (FuncBuilder_rfunc self (VInt c) oper) (oper_Z oper c z).
Proof.
  intros Ho. revert self. induction d as [|d IH]; intros self; [done|].
  intros [Hcnt H]. split; [done|].
  cbn [FuncBuilder_rfunc FuncBuilder_init default from_option id func apply_closure].
  destruct d as [|d].
  - rewrite H. cbn [mbind res_bind bind]. by apply py_oper_int.
  - destruct H as (fb' & -> & H). cbn [mbind res_bind bind].
    exists (FuncBuilder_rfunc fb' (VInt c) oper). split; [by destruct oper|].
    by apply IH.
Qed.

Lemma yields_after_SS k h env d fb z :
  yields_after k h env (S (S d)) fb z
  ↔ (1 ≤ var_cnt fb ≤ S (S d))%nat
    ∧ ∃ fb', apply_closure k h (func fb) env = Ok (VFB fb')
             ∧ yields_after k h env (S d) fb' z.
Proof. done. Qed.

Lemma yields_after_func k h env oper d1 d2 self other z1 z2 :
  arith_oper oper = true →
  yields_after k h env d1 self z1 →
  yields_after k h env d2 other z2 →
  yields_after k h env (d1 + d2) (FuncBuilder_func self [VFB other] oper)
               (oper_Z oper z1 z2).
Proof.
  intros Ho H1 H2. pose proof (yields_after_pos _ _ _ _ _ _ H2) as Hd2.
  revert self H1. induction d1 as [|d1 IH]; intros self H1; [done|].
  destruct d1 as [|d1].
  - destruct H1 as [Hcnt H1]. destruct d2 as [|d2]; [lia|].
    change (1 + S d2)%nat with (S (S d2)). apply yields_after_SS.
    split; [cbn; lia|].
    cbn [FuncBuilder_func FuncBuilder_init default from_option id func apply_closure].
    rewrite H1. cbn [mbind res_bind bind].
    exists (FuncBuilder_rfunc other (VInt z1) oper). split; [by destruct oper|].
    by apply yields_after_rfunc.
  - apply yields_after_SS in H1 as (Hcnt & fb' & Hfb' & H1).
    change (S (S d1) + d2)%nat with (S (S (d1 + d2))). apply yields_after_SS.
    split; [cbn; lia|].
    cbn [FuncBuilder_func FuncBuilder_init default from_option id func apply_closure].
    rewrite Hfb'. cbn [mbind res_bind bind].
    eexists. split; [reflexivity|]. by apply IH.
Qed.

(** [do] makes as many calls as [var_cnt] says, which is never more than
    the object needs. *)
Lemma FuncBuilder_call_yields k h env d fb z c :
  yields_after k h env d fb z → (1 ≤ c ≤ d)%nat →
  if Nat.eqb c d then FuncBuilder_call k h fb (repeat env c) = Ok (VInt z)
  else ∃ fb', FuncBuilder_call k h fb (repeat env c) = Ok (VFB fb')
              ∧ yields_after k h env (d - c) fb' z.
Proof.
  revert fb d. induction c as [|c IH]; intros fb d H Hc; [lia|].
  destruct d as [|[|d]]; [done| |].
  - assert (c = 0%nat) as -> by lia. destruct H as [_ H]. cbn. by rewrite H.
  - apply yields_after_SS in H as (_ & fb' & Hfb' & H).
    cbn [repeat FuncBuilder_call]. rewrite Hfb'. cbn [mbind res_bind bind].
    destruct c as [|c].
    + cbn. eauto.
    + specialize (IH fb' (S d) H ltac:(lia)).
      change (S (S c) =? S (S d))%nat with (S c =? S d)%nat.
      change (S (S d) - S (S c))%nat with (S d - S c)%nat.
      cbn [repeat] in IH |- *. exact IH.
Qed.

Lemma calculate_yields k0 h env d fb z k :
  yields_after k0 h env d fb z → (k0 + d ≤ k)%nat →
  calculate k h (VFB fb) env = Ok (VInt z).
Proof.
  revert fb k. induction (lt_wf d) as [d _ IH]. intros fb k H Hk.
  destruct k as [|k]; [apply yields_after_pos in H; lia|].
  cbn [calculate].
  assert (Hc : (1 ≤ var_cnt fb ≤ d)%nat) by (destruct d; [destruct H|apply H]).
  pose proof (FuncBuilder_call_yields _ _ _ _ _ _ _ H Hc) as Hcall.
  assert (Hdo : ∀ r, FuncBuilder_call k0 h fb (repeat env (var_cnt fb)) = Ok r →
                     FuncBuilder_do k h fb env = Ok r).
  { intros r Hr. unfold FuncBuilder_do.
    rewrite (FuncBuilder_call_mono k0 k h fb (repeat env (var_cnt fb))); [done|lia|].
    by rewrite Hr. }
  destruct (var_cnt fb =? d)%nat eqn:E.
  - rewrite (Hdo _ Hcall). cbn [mbind res_bind bind]. by destruct k.
  - destruct Hcall as (fb' & Hcall & H'). rewrite (Hdo _ Hcall).
    cbn [mbind res_bind bind]. apply (IH (d - var_cnt fb)%nat); [lia|done|lia].
Qed.

Lemma expr_value_yields k h env rho e :
  arith_expr e = true →
  (∀ x, x ∈ expr_vars e →
        has_dot x = false ∧ py_getattr k h env x = Ok (VInt (rho x))) →
  match expr_vars e with
  | [] => expr_value e = Ok (VInt (expr_denote rho e))
  | _ => ∃ fb, expr_value e = Ok (VFB fb)
               ∧ yields_after k h env (List.length (expr_vars e)) fb (expr_denote rho e)
  end.
Proof.
  induction e as [z|name|oper a IHa b IHb]; intros Ha Hv.
  - done.
  - destruct (Hv name) as [Hdot Hget]; [by left|].
    eexists. split; [done|]. by apply yields_after_var.
  - cbn [arith_expr] in Ha. apply andb_true_iff in Ha as [Ha Hb].
    apply andb_true_iff in Ha as [Ho Ha].
    cbn [expr_vars] in *.
    assert (Hva : ∀ x, x ∈ expr_vars a →
                  has_dot x = false ∧ py_getattr k h env x = Ok (VInt (rho x)))
      by (intros x Hx; apply Hv, elem_of_app; by left).
    assert (Hvb : ∀ x, x ∈ expr_vars b →
                  has_dot x = false ∧ py_getattr k h env x = Ok (VInt (rho x)))
      by (intros x Hx; apply Hv, elem_of_app; by right).
    specialize (IHa Ha Hva). specialize (IHb Hb Hvb). clear Hv Hva Hvb.
    cbn [expr_value expr_denote].
    destruct (expr_vars a) as [|xa la] eqn:Ea; destruct (expr_vars b) as [|xb lb] eqn:Eb.
    + rewrite IHa, IHb. cbn [mbind res_bind bind app]. by apply py_oper_int.
    + destruct IHb as (fb & -> & Hy). rewrite IHa. cbn [mbind res_bind bind app].
      exists (FuncBuilder_rfunc fb (VInt (expr_denote rho a)) oper).
      split; [by destruct oper|]. by apply yields_after_rfunc.
    + destruct IHa as (fa & -> & Hy). rewrite IHb. cbn [mbind res_bind bind].
      rewrite app_nil_r. eexists. split; [reflexivity|].
      by apply yields_after_func_int.
    + destruct IHa as (fa & -> & Hya). destruct IHb as (fb & -> & Hyb).
      cbn [mbind res_bind bind]. eexists. split; [reflexivity|].
      rewrite length_app. by apply yields_after_func.
Qed.

(** Every expression built from [var.attr(name)] and integer literals with
    [+], [-] and [*] is built without error, and [calculate] reduces it to
    the integer it denotes under the environment, whatever the number of
    variables: the loop of [calculate] makes up for what one [do] leaves
    unevaluated. *)
Theorem calculate_arith_expr k0 h env rho e :
  arith_expr e = true →
  (∀ x, x ∈ expr_vars e →
        has_dot x = false ∧ py_getattr k0 h env x = Ok (VInt (rho x))) →
  ∃ v, expr_value e = Ok v
       ∧ ∀ k, (k0 + List.length (expr_vars e) ≤ k)%nat →
              calculate k h v env = Ok (VInt (expr_denote rho e)).
Proof.
  intros Ha Hv. pose proof (expr_value_yields k0 h env rho e Ha Hv) as H.
  destruct (expr_vars e) as [|x l].
  - eexists. split; [exact H|]. intros k _. by destruct k.
  - destruct H as (fb & Hfb & Hy). eexists. split; [exact Hfb|].
    intros k Hk. by eapply calculate_yields.
Qed.

Lemma calculate_arith_expr_witness :
  ∃ v, expr_value (e_bin op_add (e_var "x") (e_bin op_mul (e_var "y") (e_var "z")))
       = Ok v
       ∧ ∀ k, (2 + 3 ≤ k)%nat → calculate k xyz_heap v (VRef 0) = Ok (VInt 14).
Proof.
  apply (calculate_arith_expr 2 xyz_heap (VRef 0)
           (λ x, if String.eqb x "x" then 2 else if String.eqb x "y" then 3 else 4)%Z
           (e_bin op_add (e_var "x") (e_bin op_mul (e_var "y") (e_var "z")))).
  - reflexivity.
  - intros x Hx. cbn in Hx.
    repeat (apply elem_of_cons in Hx as [->|Hx]; [by vm_compute|]).
    by apply elem_of_nil in Hx.
Defined.

(** ** FuncBuilder.do *)

Lemma expr_value_var_cnt e fb :
  arith_expr e = true →
  expr_value e = Ok (VFB fb) →
  (1 ≤ var_cnt fb ≤ List.length (expr_vars e))%nat
  ∧ (leans_left e = true → var_cnt fb = List.length (expr_vars e)).
Proof.
  revert fb. induction e as [z|name|oper a IHa b IHb]; intros fb Ha Hv.
  - done.
  - cbn in Hv. simplify_eq. cbn. split; [lia|done].
  - cbn [arith_expr] in Ha. apply andb_true_iff in Ha as [Ha Hb].
    apply andb_true_iff in Ha as [Ho Ha].
    cbn [expr_value] in Hv.
    destruct (expr_value a) as [va| |] eqn:Eva; try done.
    destruct (expr_value b) as [vb| |] eqn:Evb; try done.
    cbn [mbind res_bind bind] in Hv. cbn [expr_vars leans_left]. rewrite length_app.
    assert (Hconst : ∀ e' v, arith_expr e' = true → expr_value e' = Ok v →
              match v with
              | VFB _ => expr_vars e' ≠ []
              | VInt _ => expr_vars e' = []
              | _ => False
              end).
    { clear. induction e' as [z|name|oper a IHa b IHb]; intros v Ha Hv.
      - cbn in Hv. by simplify_eq.
      - cbn in Hv. by simplify_eq.
      - cbn [arith_expr] in Ha. apply andb_true_iff in Ha as [Ha Hb].
        apply andb_true_iff in Ha as [Ho Ha].
        cbn [expr_value] in Hv.
        destruct (expr_value a) as [va| |] eqn:Eva; try done.
        destruct (expr_value b) as [vb| |] eqn:Evb; try done.
        cbn [mbind res_bind bind] in Hv.
        specialize (IHa va Ha eq_refl). specialize (IHb vb Hb eq_refl).
        cbn [expr_vars].
        destruct va; try done; destruct vb; try done.
        + rewrite (py_oper_int _ _ _ Ho) in Hv. simplify_eq. by rewrite IHa, IHb.
        + destruct oper; try done; cbn in Hv; simplify_eq;
            intros Hnil; apply app_eq_nil in Hnil as [_ ?]; done.
        + destruct oper; try done; cbn in Hv; simplify_eq;
            intros Hnil; apply app_eq_nil in Hnil as [? _]; done.
        + destruct oper; try done; cbn in Hv; simplify_eq;
            intros Hnil; apply app_eq_nil in Hnil as [? _]; done. }
    pose proof (Hconst a va Ha Eva) as Hca. pose proof (Hconst b vb Hb Evb) as Hcb.
    destruct va as [| | |za| | | |fa]; try done; destruct vb as [| | |zb| | | |fb0]; try done.
    + by rewrite (py_oper_int _ _ _ Ho) in Hv.
    + assert (fb = FuncBuilder_rfunc fb0 (VInt za) oper) as ->
        by (destruct oper; try done; cbn in Hv; by simplify_eq).
      destruct (IHb fb0 Hb eq_refl) as [Hle Heq]. rewrite Hca. cbn. split; [lia|].
      intros Hl. apply andb_true_iff in Hl as [Hl _]. apply andb_true_iff in Hl as [_ Hl].
      by apply Heq.
    + assert (fb = FuncBuilder_func fa [VInt zb] oper) as ->
        by (cbn in Hv; by simplify_eq).
      destruct (IHa fa Ha eq_refl) as [Hle Heq]. rewrite Hcb, Nat.add_0_r. cbn.
      split; [lia|].
      intros Hl. apply andb_true_iff in Hl as [Hl _]. apply andb_true_iff in Hl as [Hl _].
      by apply Heq.
    + assert (fb = FuncBuilder_func fa [VFB fb0] oper) as ->
        by (cbn in Hv; by simplify_eq).
      destruct (IHa fa Ha eq_refl) as [Hlea Heqa].
      destruct (IHb fb0 Hb eq_refl) as [Hleb Heqb].
      cbn. split; [lia|].
      intros Hl. apply andb_true_iff in Hl as [Hl Hone].
      apply andb_true_iff in Hl as [Hla Hlb].
      destruct (expr_vars a) as [|xa la] eqn:Ea; [done|].
      apply Nat.leb_le in Hone. rewrite (Heqa Hla). lia.
Qed.

(** One [do] on an arithmetic expression object with variables: it makes
    [var_cnt] calls, never more than the expression needs.  When [var_cnt]
    is the number of variable occurrences, [do] returns the integer the
    expression denotes; when it is less, [do] returns another expression
    object, and a further [do] is needed.  The count is right whenever the
    expression leans left: the right operand of an operator holds at most
    one variable when the left one holds any. *)
Theorem FuncBuilder_do_arith k h env rho e fb :
  arith_expr e = true →
  (∀ x, x ∈ expr_vars e →
        has_dot x = false ∧ py_getattr k h env x = Ok (VInt (rho x))) →
  expr_value e = Ok (VFB fb) →
  (1 ≤ var_cnt fb ≤ List.length (expr_vars e))%nat
  ∧ (var_cnt fb = List.length (expr_vars e) →
     FuncBuilder_do k h fb env = Ok (VInt (expr_denote rho e)))
  ∧ (var_cnt fb ≠ List.length (expr_vars e) →
     ∃ fb', FuncBuilder_do k h fb env = Ok (VFB fb'))
  ∧ (leans_left e = true → var_cnt fb = List.length (expr_vars e)).
Proof.
  intros Ha Hv Hfb.
  destruct (expr_value_var_cnt e fb Ha Hfb) as [Hcnt Hlean].
  pose proof (expr_value_yields k h env rho e Ha Hv) as Hy.
  destruct (expr_vars e) as [|x l] eqn:Ev; [cbn in Hcnt; lia|].
  destruct Hy as (fb1 & Hfb1 & Hy). rewrite Hfb in Hfb1. simplify_eq.
  pose proof (FuncBuilder_call_yields _ _ _ _ _ _ (var_cnt fb1) Hy Hcnt) as Hcall.
  split; [done|]. split; [|split; [|done]].
  - intros Heq. unfold FuncBuilder_do. rewrite Heq in Hcall |- *.
    by rewrite Nat.eqb_refl in Hcall.
  - intros Hne. unfold FuncBuilder_do.
    destruct (Nat.eqb_spec (var_cnt fb1) (List.length (x :: l))); [done|].
    destruct Hcall as (fb' & Hcall & _). eauto.
Qed.

Lemma FuncBuilder_do_arith_witness :
  (1 ≤ var_cnt x_plus_y_times_z ≤ 3)%nat
  ∧ (var_cnt x_plus_y_times_z = 3%nat →
     FuncBuilder_do 2 xyz_heap x_plus_y_times_z (VRef 0) = Ok (VInt 14))
  ∧ (var_cnt x_plus_y_times_z ≠ 3%nat →
     ∃ fb', FuncBuilder_do 2 xyz_heap x_plus_y_times_z (VRef 0) = Ok (VFB fb'))
  ∧ (leans_left (e_bin op_add (e_var "x") (e_bin op_mul (e_var "y") (e_var "z"))) = true →
     var_cnt x_plus_y_times_z = 3%nat).
Proof.
  apply (FuncBuilder_do_arith 2 xyz_heap (VRef 0)
           (λ x, if String.eqb x "x" then 2 else if String.eqb x "y" then 3 else 4)%Z
           (e_bin op_add (e_var "x") (e_bin op_mul (e_var "y") (e_var "z")))
           x_plus_y_times_z).
  - reflexivity.
  - intros x Hx. cbn in Hx.
    repeat (apply elem_of_cons in Hx as [->|Hx]; [by vm_compute|]).
    by apply elem_of_nil in Hx.
  - reflexivity.
Defined.

(** ** Edge cases of the call and of the lookup *)

(** A function declared with an unpack tail and called without any
    positional argument fails with [ValueError], whatever its parameters,
    unpack names, keywords and closure: the starred assignment
    [*args, unpack_args = args] finds nothing to put in [unpack_args].  The
    arity checks are not reached. *)
Theorem unpack_without_positional k n self kw h unpack :
  Function_unpack self = Some unpack →
  has_key "self" kw = false →
  Function_call k n self [] kw h = Raise ValueError.
Proof.
  intros Hu Hs. unfold Function_call, Function_bind, Environment_init, alloc.
  rewrite Hs, (fix_self_no_self _ _ Hs), Environment_init_set_parent, Hu.
  reflexivity.
Qed.

Lemma unpack_without_positional_witness :
  Function_call 0 0 with_unpack [] [("x", VInt 1)] [] = Raise ValueError.
Proof. apply (unpack_without_positional 0 0 with_unpack _ [] ["a"; "b"]); reflexivity. Defined.

(** The empty name has no segment: looking it up in an environment, and
    binding it with [set], both fail with [IndexError] (from [names[0]]),
    whatever the environment holds; the lookup does not go on to the
    parent. *)
Theorem empty_name_IndexError g k h l cls d attrs v :
  h !! l = Some (OEnvironment cls d attrs) →
  Environment_getattr g h l "" = Raise IndexError
  ∧ Environment_set k h l [("", v)] = Raise IndexError.
Proof.
  intros Hl. unfold Environment_getattr, Environment_set. cbn [has_key existsb fst].
  cbn [Environment_set_loop]. unfold real_attribute. rewrite Hl. done.
Qed.

Lemma empty_name_IndexError_witness :
  Environment_getattr (py_getattr 1 child_parent_heap) child_parent_heap 0 ""
  = Raise IndexError
  ∧ Environment_set 1 child_parent_heap 0 [("", VInt 1)] = Raise IndexError.
Proof.
  apply (empty_name_IndexError _ 1 child_parent_heap 0 EnvironmentCls
           {[ "__parent__" := VRef 1 ]} {[ "last" := VUdef ]}).
  reflexivity.
Defined.

(** ** Binding a name and looking it up *)

(** [set(name = v)] followed by the lookup of [name], for a name that the
    path rule uses as a literal key.  The binding is made, the hook
    [__getattr__] then returns [v], and so does [getattr(e, name)] unless
    [name] is an attribute of the environment object itself: such an
    attribute, like [last], keeps being returned whatever is bound to
    its name.  No other binding and no other object is touched. *)
Theorem Environment_set_then_get k k' h l cls d attrs name v :
  h !! l = Some (OEnvironment cls d attrs) →
  plain_key name = true →
  ∃ h',
    Environment_set k h l [(name, v)] = Ok h'
    ∧ Environment_getattr (py_getattr k' h') h' l name = Ok v
    ∧ (reaches_hook cls attrs name = true →
       py_getattr (S k') h' (VRef l) name = Ok v)
    ∧ (∀ w, attrs !! name = Some w →
            String.eqb name "d" = false →
            is_ClassCls cls && String.eqb name "end" = false →
            py_getattr (S k') h' (VRef l) name = Ok w)
    ∧ (∀ other, other ≠ name → binding h' l other = binding h l other)
    ∧ (∀ l', l' ≠ l → h' !! l' = h !! l').
Proof.
  intros Hl Hp.
  assert (Hlt : (l < List.length h)%nat) by (by eapply lookup_lt_Some).
  exists (<[l := OEnvironment cls (<[name := v]> d) attrs]> h).
  assert (Hl' : <[l := OEnvironment cls (<[name := v]> d) attrs]> h !! l
                = Some (OEnvironment cls (<[name := v]> d) attrs))
    by (by apply list_lookup_insert_eq).
  split; [|split; [|split; [|split; [|split]]]].
  - erewrite Environment_set_plain; [done|done|by repeat constructor].
  - eapply Environment_getattr_bound; [done|done|]. apply lookup_insert_eq.
  - intros Hr. erewrite py_getattr_hook; [|done|done].
    eapply Environment_getattr_bound; [done|done|]. apply lookup_insert_eq.
  - intros w Hw Hd Hend. cbn [py_getattr]. by rewrite Hl', Hd, Hend, Hw.
  - intros other Hne. unfold binding. rewrite Hl', Hl. by apply lookup_insert_ne.
  - intros l' Hne. by apply list_lookup_insert_ne.
Qed.

Lemma Environment_set_then_get_witness :
  ∃ h',
    Environment_set 0 xyz_heap 0 [("last", VInt 5)] = Ok h'
    ∧ Environment_getattr (py_getattr 0 h') h' 0 "last" = Ok (VInt 5)
    ∧ (reaches_hook EnvironmentCls {[ "last" := VUdef ]} "last" = true →
       py_getattr 1 h' (VRef 0) "last" = Ok (VInt 5))
    ∧ (∀ w, ({[ "last" := VUdef ]} : gmap string value) !! "last" = Some w →
            String.eqb "last" "d" = false →
            is_ClassCls EnvironmentCls && String.eqb "last" "end" = false →
            py_getattr 1 h' (VRef 0) "last" = Ok w)
    ∧ (∀ other, other ≠ "last" → binding h' 0 other = binding xyz_heap 0 other)
    ∧ (∀ l', l' ≠ 0%nat → h' !! l' = xyz_heap !! l').
Proof.
  apply (Environment_set_then_get 0 0 xyz_heap 0 EnvironmentCls
           (<["x" := VInt 2]> (<["y" := VInt 3]> (<["z" := VInt 4]> ∅)))
           {[ "last" := VUdef ]} "last" (VInt 5)); reflexivity.
Defined.

(** ** fix_self *)

Lemma dict_get_cons key k' v kw :
  dict_get key ((k', v) :: kw) = if String.eqb k' key then Some v else dict_get key kw.
Proof. unfold dict_get. cbn [List.find fst]. by destruct (String.eqb k' key). Qed.

Lemma dict_get_has_key key kw : has_key key kw = bool_decide (is_Some (dict_get key kw)).
Proof.
  induction kw as [|[k' v] kw IH]; [done|].
  rewrite dict_get_cons. cbn [has_key existsb fst]. fold (has_key key kw).
  destruct (String.eqb k' key); [|by rewrite IH].
  symmetry. by apply bool_decide_eq_true_2.
Qed.

Lemma dict_get_filter key key' kw :
  key ≠ key' →
  dict_get key (List.filter (λ p, negb (String.eqb (fst p) key')) kw) = dict_get key kw.
Proof.
  intros Hne. induction kw as [|[k' v] kw IH]; [done|].
  cbn [List.filter fst]. rewrite dict_get_cons.
  destruct (String.eqb_spec k' key') as [->|Hk']; cbn [negb].
  - rewrite IH. by destruct (String.eqb_spec key' key) as [->|].
  - by rewrite dict_get_cons, IH.
Qed.

Lemma has_key_filter key kw :
  has_key key (List.filter (λ p, negb (String.eqb (fst p) key)) kw) = false.
Proof.
  induction kw as [|[k' v] kw IH]; [done|]. cbn [List.filter fst].
  destruct (String.eqb k' key) eqn:E; cbn [negb]; [done|].
  cbn [has_key existsb fst]. rewrite E. exact IH.
Qed.

Lemma dict_get_setitem key key' v kw :
  dict_get key (dict_setitem key' v kw)
  = if String.eqb key' key then Some v else dict_get key kw.
Proof.
  induction kw as [|[k' v'] kw IH].
  - cbn [dict_setitem]. by rewrite dict_get_cons.
  - cbn [dict_setitem]. destruct (String.eqb_spec k' key') as [->|Hk'].
    + rewrite !dict_get_cons. by destruct (String.eqb key' key).
    + rewrite !dict_get_cons, IH. destruct (String.eqb_spec k' key) as [->|]; [|done].
      by destruct (String.eqb_spec key' key) as [->|].
Qed.

Lemma has_key_setitem key key' v kw :
  key ≠ key' → has_key key (dict_setitem key' v kw) = has_key key kw.
Proof.
  intros Hne. rewrite !dict_get_has_key, dict_get_setitem.
  by destruct (String.eqb_spec key' key) as [->|].
Qed.

Lemma fix_self_arg_idem x : fix_self_arg (fix_self_arg x) = fix_self_arg x.
Proof.
  destruct x as [| | | |s| | |]; try done. cbn. unfold self_to_dollar.
  by destruct (String.eqb s "self") eqn:E; [|rewrite E].
Qed.

Lemma fix_self_arg_not_self x : fix_self_arg x ≠ VStr "self".
Proof.
  destruct x as [| | | |s| | |]; try done. cbn. unfold self_to_dollar.
  destruct (String.eqb_spec s "self"); [done|congruence].
Qed.

(** [fix_self(args, kw)].  Every positional argument equal to the string
    ['self'] becomes ['$'] and the others stay, in place.  The keyword
    [self] is taken out of [kw]; its value is stored under [$], replacing
    what was there, unless it is [udef], in which case it is dropped.
    Every other keyword keeps its value, and applying [fix_self] again
    changes nothing. *)
Theorem fix_self_renames args kw :
  let args' := fst (fix_self args kw) in
  let kw' := snd (fix_self args kw) in
  List.length args' = List.length args
  ∧ Forall (λ x, x ≠ VStr "self") args'
  ∧ (∀ i, args !! i = Some (VStr "self") → args' !! i = Some (VStr "$"))
  ∧ (∀ i x, args !! i = Some x → x ≠ VStr "self" → args' !! i = Some x)
  ∧ has_key "self" kw' = false
  ∧ (∀ x, dict_get "self" kw = Some x → x ≠ VUdef → dict_get "$" kw' = Some x)
  ∧ (dict_get "self" kw = None ∨ dict_get "self" kw = Some VUdef →
     dict_get "$" kw' = dict_get "$" kw)
  ∧ (∀ key, key ≠ "self" → key ≠ "$" → dict_get key kw' = dict_get key kw)
  ∧ fix_self args' kw' = (args', kw').
Proof.
  intros args' kw'.
  assert (Hargs : args' = map fix_self_arg args).
  { subst args'. unfold fix_self. destruct (dict_pop "self" kw) as [x kw1].
    by destruct x. }
  assert (Hx : dict_pop "self" kw
               = (default VUdef (dict_get "self" kw),
                  List.filter (λ p, negb (String.eqb (fst p) "self")) kw)) by done.
  assert (Hkw : kw' = match default VUdef (dict_get "self" kw) with
                      | VUdef => List.filter (λ p, negb (String.eqb (fst p) "self")) kw
                      | x => dict_setitem "$" x
                               (List.filter (λ p, negb (String.eqb (fst p) "self")) kw)
                      end).
  { subst kw'. unfold fix_self. rewrite Hx.
    by destruct (default VUdef (dict_get "self" kw)). }
  assert (Hno : has_key "self" kw' = false).
  { rewrite Hkw. destruct (default VUdef (dict_get "self" kw));
      rewrite ?has_key_setitem by done; apply has_key_filter. }
  split; [by rewrite Hargs, length_map|].
  split.
  { rewrite Hargs. apply Forall_fmap, Forall_true. intros x.
    apply fix_self_arg_not_self. }
  split; [intros i Hi; by rewrite Hargs, list_lookup_fmap, Hi|].
  split.
  { intros i x Hi Hs. rewrite Hargs, list_lookup_fmap, Hi. cbn. f_equal.
    destruct x as [| | | |s| | |]; try done. cbn. unfold self_to_dollar.
    destruct (String.eqb_spec s "self"); [congruence|done]. }
  split; [exact Hno|].
  split.
  { intros x Hget Hne. rewrite Hkw, Hget. cbn [default from_option id].
    destruct x; try done; by rewrite dict_get_setitem. }
  split.
  { intros Hget. rewrite Hkw.
    destruct Hget as [-> | ->]; cbn [default from_option id];
      by apply dict_get_filter. }
  split.
  { intros key Hs Hd. rewrite Hkw.
    destruct (default VUdef (dict_get "self" kw));
      rewrite ?dict_get_setitem; rewrite ?dict_get_filter by done;
      try done; by destruct (String.eqb_spec "$" key). }
  rewrite (fix_self_no_self _ _ Hno). f_equal.
  rewrite Hargs, <- list_fmap_compose. apply list_fmap_ext.
  intros i x _. apply fix_self_arg_idem.
Qed.

(** ** Calls bind in their own environment *)

Lemma simple_name_plain x : simple_name x = true → plain_key x = true.
Proof.
  unfold simple_name. intros H. apply andb_true_iff in H as [H _].
  by apply andb_true_iff in H as [H _].
Qed.

Lemma fix_self_names_plain names :
  Forall (λ s, plain_key s = true) names → fix_self_names names = names.
Proof.
  unfold fix_self_names. induction 1 as [|s names Hs _ IH]; [done|].
  cbn [map]. by rewrite IH, (self_to_dollar_plain _ Hs).
Qed.

Lemma Function_bind_plain k self args kw h :
  Function_unpack self = None →
  Forall (λ s, plain_key s = true) (Function_args self) →
  Forall (λ p, plain_key (fst p) = true) kw →
  (List.length args + List.length kw = List.length (Function_args self))%nat →
  Function_bind k self args kw h
  = Ok (List.length h,
        h ++ [OEnvironment EnvironmentCls
                (bind_all
                   (bind_all {[ "__parent__" := Function_environ self ]}
                      (combine (Function_args self) (map fix_self_arg args)))
                   kw)
                {[ "last" := VUdef ]}]).
Proof.
  intros Hu Hpa Hpk Hcount.
  unfold Function_bind, Environment_init, alloc.
  rewrite (has_key_plain _ Hpk), (fix_self_no_self _ _ (has_key_plain _ Hpk)),
    Environment_init_set_parent, Hu.
  cbn [mbind res_bind bind]. rewrite length_map.
  rewrite <- Hcount, Nat.eqb_refl. cbn [negb].
  erewrite Environment_set_plain; last first.
  { by apply keys_dict_of, keys_combine. }
  { apply list_lookup_middle. done. }
  cbn [mbind res_bind bind].
  rewrite insert_app_r_alt, Nat.sub_diag by done. cbn [insert list_insert].
  erewrite Environment_set_plain; last first.
  { done. }
  { apply list_lookup_middle. done. }
  cbn [mbind res_bind bind].
  rewrite insert_app_r_alt, Nat.sub_diag by done. cbn [insert list_insert].
  by rewrite !bind_all_dict_of.
Qed.

(** Looking a variable up from the call environment: in the environment
    itself, or else in the closure environment. *)
Lemma call_env_local k h d x v :
  simple_name x = true →
  d !! x = Some v →
  py_getattr (S k) (h ++ [OEnvironment EnvironmentCls d {[ "last" := VUdef ]}])
             (VRef (List.length h)) x = Ok v.
Proof.
  intros Hx Hd. unfold simple_name in Hx.
  apply andb_true_iff in Hx as [Hx Hr]. apply andb_true_iff in Hx as [Hp _].
  erewrite py_getattr_hook; [|by apply list_lookup_middle|done].
  eapply Environment_getattr_bound; [by apply list_lookup_middle|done|done].
Qed.

Lemma call_env_closure k h d x v p cls dp attrs :
  simple_name x = true →
  d !! x = None →
  d !! "__parent__" = Some (VRef p) →
  h !! p = Some (OEnvironment cls dp attrs) →
  reaches_hook cls attrs x = true →
  dp !! x = Some v →
  py_getattr (S (S k)) (h ++ [OEnvironment EnvironmentCls d {[ "last" := VUdef ]}])
             (VRef (List.length h)) x = Ok v.
Proof.
  intros Hx Hd Hpar Hp Hr Hv. unfold simple_name in Hx.
  apply andb_true_iff in Hx as [Hx Hrx]. apply andb_true_iff in Hx as [Hpl _].
  erewrite py_getattr_hook; [|by apply list_lookup_middle|done].
  erewrite Environment_getattr_plain; [|by apply list_lookup_middle|done].
  rewrite Hd, Hpar.
  assert (Hp' : (h ++ [OEnvironment EnvironmentCls d {[ "last" := VUdef ]}]) !! p
                = Some (OEnvironment cls dp attrs))
    by (by apply lookup_app_l_Some).
  erewrite py_getattr_hook; [|done|done].
  by eapply Environment_getattr_bound.
Qed.

Lemma simple_name_not_parent x : simple_name x = true → x ≠ "__parent__".
Proof. intros H ->. done. Qed.

Lemma combine_lookup_notin (names : list string) (vs : list value) d0 x :
  x ∉ names → bind_all d0 (combine names vs) !! x = d0 !! x.
Proof.
  intros Hn. apply bind_all_lookup_notin. intros Hin. by apply Hn, (elem_of_combine_fst _ vs).
Qed.

(** A function whose body returns an arithmetic expression over its
    parameters and the variables of its closure environment: called with
    as many integers as it has parameters, [Function(name, *params,
    environ=environ).ret(e)] returns the integer that [e] denotes when each
    parameter stands for its argument and each other variable for its
    binding in the closure.  The call allocates its own environment and
    changes nothing else. *)
Theorem Function_ret_arith name params environ e zs rho h :
  NoDup params →
  Forall (λ x, simple_name x = true) params →
  List.length zs = List.length params →
  arith_expr e = true →
  (∀ i x z, params !! i = Some x → zs !! i = Some z → rho x = z) →
  (∀ x, x ∈ expr_vars e →
        x ∈ params ∨ (closure_binds h environ x (VInt (rho x)) ∧ x ∉ params)) →
  ∃ v d,
    expr_value e = Ok v
    ∧ ∀ k n, (2 + List.length (expr_vars e) ≤ k)%nat → (2 ≤ n)%nat →
        Function_call k n (Function_ret (Function_init name params None environ) v)
                      (map VInt zs) [] h
        = Ok (VInt (expr_denote rho e),
              h ++ [OEnvironment EnvironmentCls d {[ "last" := VUdef ]}]).
Proof.
  intros Hnd Hsimple Hlen Ha Hrho Hvars.
  assert (Hplain : Forall (λ s, plain_key s = true) params).
  { eapply Forall_impl; [exact Hsimple|]. apply simple_name_plain. }
  set (d := bind_all {[ "__parent__" := environ ]} (combine params (map VInt zs))).
  set (h1 := h ++ [OEnvironment EnvironmentCls d {[ "last" := VUdef ]}]).
  assert (Hpar : d !! "__parent__" = Some environ).
  { subst d. rewrite combine_lookup_notin; [apply lookup_singleton_eq|].
    intros Hin. rewrite Forall_forall in Hsimple.
    by apply (simple_name_not_parent _ (Hsimple _ Hin)). }
  assert (Hlook : ∀ x, x ∈ expr_vars e →
            has_dot x = false
            ∧ py_getattr 2 h1 (VRef (List.length h)) x = Ok (VInt (rho x))).
  { intros x Hx. destruct (Hvars x Hx) as [Hin | ((Hs & p & cls & dp & attrs & -> & Hp & Hr & Hdp) & Hnin)].
    - rewrite Forall_forall in Hsimple. pose proof (Hsimple x Hin) as Hs.
      split.
      { unfold simple_name in Hs. apply andb_true_iff in Hs as [Hs _].
        apply andb_true_iff in Hs as [_ Hs]. by apply negb_true_iff in Hs. }
      apply list_elem_of_lookup in Hin as [i Hi].
      destruct (lookup_lt_is_Some_2 zs i) as [z Hz].
      { rewrite Hlen. by eapply lookup_lt_Some. }
      apply call_env_local; [done|]. subst d.
      rewrite (Hrho i x z Hi Hz).
      eapply bind_all_combine_lookup; [done|done|]. by rewrite list_lookup_fmap, Hz.
    - split.
      { unfold simple_name in Hs. apply andb_true_iff in Hs as [Hs' _].
        apply andb_true_iff in Hs' as [_ Hs']. by apply negb_true_iff in Hs'. }
      eapply call_env_closure; try done. subst d.
      rewrite combine_lookup_notin by done.
      apply lookup_singleton_ne. intros Heq. subst x. done. }
  assert (∃ v, expr_value e = Ok v
               ∧ ∀ k, (2 + List.length (expr_vars e) ≤ k)%nat →
                      calculate k h1 v (VRef (List.length h))
                      = Ok (VInt (expr_denote rho e))) as (v & Hv & Hcalc).
  { pose proof (expr_value_yields 2 h1 (VRef (List.length h)) rho e Ha Hlook) as H.
    destruct (expr_vars e) as [|x l].
    - eexists. split; [exact H|]. intros k _. by destruct k.
    - destruct H as (fb & Hfb & Hy). eexists. split; [exact Hfb|].
      intros k Hk. by eapply calculate_yields. }
  exists v, d. split; [done|]. intros k n Hk Hn.
  unfold Function_call.
  rewrite Function_bind_plain; cbn [Function_ret Function_init Function_unpack Function_args
                                     Function_environ Function_code];
    rewrite ?(fix_self_names_plain _ Hplain); try done; last first.
  { rewrite length_map. cbn [List.length]. lia. }
  cbn [mbind res_bind bind bind_all fold_left].
  replace (map fix_self_arg (map VInt zs)) with (map VInt zs)
    by (rewrite map_map; by apply map_ext).
  fold d. fold h1.
  destruct n as [|[|n]]; [lia|lia|].
  cbn [Function_run CodeIter_init CodeIter_next ci_frame ci_loop yield_next_code
       ci_code ci_loops app].
  rewrite (Hcalc k Hk). cbn [mbind res_bind bind]. done.
Qed.

Lemma Function_ret_arith_witness :
  ∃ v d,
    expr_value (e_bin op_add (e_var "x") (e_bin op_mul (e_var "b") (e_var "y"))) = Ok v
    ∧ ∀ k n, (2 + 3 ≤ k)%nat → (2 ≤ n)%nat →
        Function_call k n (Function_ret (Function_init "foo" ["x"; "y"] None (VRef 0)) v)
                      [VInt 10; VInt 16] [] ab_heap
        = Ok (VInt 42, ab_heap ++ [OEnvironment EnvironmentCls d {[ "last" := VUdef ]}]).
Proof.
  apply (Function_ret_arith "foo" ["x"; "y"] (VRef 0)
           (e_bin op_add (e_var "x") (e_bin op_mul (e_var "b") (e_var "y")))
           [10; 16]%Z
           (λ s, if String.eqb s "x" then 10 else if String.eqb s "y" then 16 else 2)%Z
           ab_heap).
  - repeat constructor; intros Hin; repeat (apply elem_of_cons in Hin as [Hin|Hin]; [done|]);
      by apply elem_of_nil in Hin.
  - repeat constructor.
  - reflexivity.
  - reflexivity.
  - intros [|[|i]] x z Hx Hz; simplify_eq/=; done.
  - intros x Hx. cbn in Hx.
    apply elem_of_cons in Hx as [->|Hx]; [left; apply list_elem_of_here|].
    apply elem_of_cons in Hx as [->|Hx].
    + right. split.
      * split; [reflexivity|]. by exists 0%nat, EnvironmentCls,
          (<["a" := VInt 1]> (<["b" := VInt 2]> ∅)), {[ "last" := VUdef ]}.
      * intros Hin. repeat (apply elem_of_cons in Hin as [Hin|Hin]; [done|]).
        by apply elem_of_nil in Hin.
    + apply elem_of_cons in Hx as [->|Hx]; [|by apply elem_of_nil in Hx].
      left. apply list_elem_of_further, list_elem_of_here.
Defined.

(** ** Name binding is always in the local environment *)

Lemma calculate_items_keys k h e data kw :
  calculate_items k h e data = Ok kw → kw.*1 = data.*1.
Proof.
  revert kw. induction data as [|[key v] data IH]; intros kw H; simpl in H.
  - by simplify_eq.
  - destruct (calculate k h v e) as [v'| |]; try done. cbn [mbind res_bind bind] in H.
    destruct (calculate_items k h e data) as [rest| |]; try done.
    cbn [mbind res_bind bind] in H. simplify_eq. rewrite !fmap_cons. f_equal. by apply IH.
Qed.

Lemma plain_keys_fst (kw kw' : list (string * value)) :
  kw.*1 = kw'.*1 →
  Forall (λ p, plain_key (fst p) = true) kw' →
  Forall (λ p, plain_key (fst p) = true) kw.
Proof.
  intros Heq H. apply (Forall_fmap fst (λ s, plain_key s = true)).
  rewrite Heq. by apply (Forall_fmap fst (λ s, plain_key s = true)).
Qed.

Lemma code_to_exec_loop_plain k h environ branches code_else body :
  code_to_exec_loop k h environ branches code_else = Ok body →
  Forall (λ b, Forall plain_code (snd b)) branches →
  Forall plain_code code_else →
  Forall plain_code body.
Proof.
  intros H Hb He. induction Hb as [|[expr code] bs Hc _ IH]; simpl in H.
  - by simplify_eq.
  - destruct (calculate k h expr environ) as [r| |]; try done.
    cbn [mbind res_bind bind] in H. destruct (truthy r); [by simplify_eq|auto].
Qed.

Lemma Forall_combine_snd {A B} (P : B → Prop) (l : list A) (m : list B) :
  Forall P m → Forall (λ b, P (snd b)) (combine l m).
Proof.
  intros H. revert l. induction H as [|b m Hb _ IH]; intros [|a l]; simpl;
    constructor; auto.
Qed.

Lemma CodeIter_next_plain ci c ci' :
  CodeIter_next ci = Some (c, ci') → plain_iter ci → plain_code c ∧ plain_iter ci'.
Proof.
  destruct ci as [code lp lps fr]. unfold plain_iter, CodeIter_next. cbn.
  intros H (Hcode & Hloops & Hfr).
  assert (Hyield : ∀ c ci', yield_next_code (mkCodeIter code lp lps fr) = Some (c, ci') →
                            plain_code c ∧ plain_iter ci').
  { unfold yield_next_code. cbn. intros c0 ci0 H0.
    destruct Hcode as [|c1 code1 Hc1 Hcode1]; [done|]. simplify_eq.
    by repeat split. }
  assert (Hfor : ∀ l c ci', for_loop_in (mkCodeIter code lp lps fr) l = Some (c, ci') →
                            plain_code c ∧ plain_iter ci').
  { unfold for_loop_in. cbn. intros l c0 ci0 H0.
    destruct (lps !! l) as [li|] eqn:El; [|by apply Hyield].
    unfold LoopIter_next in H0. destruct (li_iterator li) as [|x it]; [by apply Hyield|].
    simplify_eq. rewrite Forall_forall in Hloops.
    destruct (Hloops li) as [Hn Hc]; [by eapply list_elem_of_lookup_2|].
    split; [constructor; by repeat constructor|].
    unfold plain_iter. cbn. split; [done|]. split; [|done].
    apply Forall_forall. intros li' Hli'.
    apply list_elem_of_lookup in Hli' as [i Hi].
    destruct (decide (i = l)) as [->|Hne].
    - rewrite list_lookup_insert_eq in Hi by (by eapply lookup_lt_Some).
      by simplify_eq.
    - rewrite list_lookup_insert_ne in Hi by done.
      apply Hloops. by eapply list_elem_of_lookup_2. }
  destruct fr as [|l [|obj rest]].
  - destruct lp as [l|]; [by eapply Hfor|by apply Hyield].
  - by eapply Hfor.
  - simplify_eq. apply Forall_cons in Hfr as [Hobj Hrest]. by repeat split.
Qed.

Lemma Function_run_local k n h e stack ci cls d attrs v h' :
  h !! e = Some (OEnvironment cls d attrs) →
  plain_iter ci →
  Function_run k n h e stack ci = Ok (v, h') →
  ∃ d', h' = <[e := OEnvironment cls d' attrs]> h.
Proof.
  revert h d stack ci. induction n as [|n IH]; intros h d stack ci He Hci H; [done|].
  cbn [Function_run] in H.
  destruct (CodeIter_next ci) as [[c ci']|] eqn:Hnext; last first.
  { simplify_eq. exists d. by rewrite list_insert_id. }
  destruct (CodeIter_next_plain _ _ _ Hnext Hci) as [Hc Hci'].
  destruct c as [data|data| |cond|loop|opcode]; try done.
  - destruct (calculate_items k h (VRef e) data) as [kw| |] eqn:Hkw; try done.
    cbn [mbind res_bind bind] in H.
    inversion Hc as [data' Hdata| | | | |]; subst.
    erewrite Environment_set_plain in H; [|done|]; last first.
    { apply keys_dict_of. eapply plain_keys_fst; [|exact Hdata].
      by eapply calculate_items_keys. }
    cbn [mbind res_bind bind] in H.
    eapply IH in H as [d' ->]; [|by apply list_lookup_insert_eq; eapply lookup_lt_Some|done].
    exists d'. by rewrite list_insert_insert_eq.
  - destruct (calculate k h data (VRef e)) as [r| |]; try done.
    cbn [mbind res_bind bind] in H. by eapply IH.
  - destruct (last stack); [|done]. simplify_eq. exists d. by rewrite list_insert_id.
  - destruct (Condition_code_to_exec k h cond (VRef e)) as [body| |] eqn:Hbody; try done.
    cbn [mbind res_bind bind] in H. eapply IH; [done| |done].
    inversion Hc as [| | |c Hif Helse| |]; subst.
    assert (Forall plain_code body).
    { eapply code_to_exec_loop_plain; [exact Hbody| |done].
      by apply Forall_combine_snd. }
    destruct Hci' as (H1 & H2 & H3). split; [|done].
    cbn. by apply Forall_app.
  - destruct (Loop_block_to_exec k h loop (VRef e)) as [li| |] eqn:Hli; try done.
    cbn [mbind res_bind bind] in H. eapply IH; [done| |done].
    inversion Hc as [| | | |l Hname Hbody|]; subst.
    unfold Loop_block_to_exec in Hli.
    destruct (loop_data loop) as [|[name w] rest] eqn:Hdata; [done|].
    destruct (calculate k h w (VRef e)) as [w'| |]; try done.
    cbn [mbind res_bind bind] in Hli.
    destruct (py_iter w') as [it| |]; try done. cbn [mbind res_bind bind] in Hli.
    simplify_eq.
    destruct Hci' as (H1 & H2 & H3). split; [done|]. split; [|done].
    cbn. apply Forall_app. split; [done|]. repeat constructor; cbn; [|done].
    by eapply Hname.
Qed.

Lemma Function_bind_alloc k self args kw h e h1 :
  Forall (λ s, plain_key s = true) (Function_args self) →
  (∀ unpack, Function_unpack self = Some unpack →
             Forall (λ s, plain_key s = true) unpack) →
  Forall (λ p, plain_key (fst p) = true) kw →
  Function_bind k self args kw h = Ok (e, h1) →
  e = List.length h
  ∧ ∃ d, h1 = h ++ [OEnvironment EnvironmentCls d {[ "last" := VUdef ]}].
Proof.
  intros Hpa Hpu Hpk H. unfold Function_bind, Environment_init, alloc in H.
  rewrite (has_key_plain _ Hpk), (fix_self_no_self _ _ (has_key_plain _ Hpk)),
    Environment_init_set_parent in H.
  cbn [mbind res_bind bind] in H.
  set (d0 := ({[ "__parent__" := Function_environ self ]} : gmap string value)) in H.
  assert (Hstep : ∀ d kw',
    Forall (λ p, plain_key (fst p) = true) kw' →
    Environment_set k (h ++ [OEnvironment EnvironmentCls d {[ "last" := VUdef ]}])
                    (List.length h) kw'
    = Ok (h ++ [OEnvironment EnvironmentCls (bind_all d kw') {[ "last" := VUdef ]}])).
  { intros d kw' Hkw'. erewrite Environment_set_plain; [|by apply list_lookup_middle|done].
    by rewrite insert_app_r_alt, Nat.sub_diag. }
  assert (Hrest : ∀ args' d,
    (let la := (List.length args' + List.length kw)%nat in
     let lsa := List.length (Function_args self) in
     if negb (lsa =? la)%nat then Raise (TypeError (ExpectedArguments lsa la))
     else
       h' ← Environment_set k
              (h ++ [OEnvironment EnvironmentCls d {[ "last" := VUdef ]}])
              (List.length h) (dict_of (combine (Function_args self) args'));
       h'' ← Environment_set k h' (List.length h) kw;
       Ok (List.length h, h'')) = Ok (e, h1) →
    e = List.length h
    ∧ ∃ d, h1 = h ++ [OEnvironment EnvironmentCls d {[ "last" := VUdef ]}]).
  { intros args' d Hr. cbv zeta in Hr.
    destruct (negb _); [done|].
    rewrite Hstep in Hr by (by apply keys_dict_of, keys_combine).
    cbn [mbind res_bind bind] in Hr.
    rewrite Hstep in Hr by done.
    cbn [mbind res_bind bind] in Hr. simplify_eq. eauto. }
  destruct (Function_unpack self) as [unpack|] eqn:Hu.
  - destruct (unpack_last (map fix_self_arg args)) as [[args' unpack_args]| |]; try done.
    cbn [mbind res_bind bind] in H.
    destruct (py_len unpack_args) as [lu| |]; try done. cbn [mbind res_bind bind] in H.
    destruct (negb _); [done|].
    destruct (py_iter unpack_args) as [elems| |]; try done.
    cbn [mbind res_bind bind] in H.
    rewrite Hstep in H by (apply keys_dict_of, keys_combine; by apply Hpu).
    cbn [mbind res_bind bind] in H. by eapply Hrest.
  - cbn [mbind res_bind bind] in H. by eapply Hrest.
Qed.

(** The note in the docstring of [Function]: name binding is always in
    the local environment.  When the parameters, the unpack names, the
    keywords and every name bound in the body, at any depth, are literal
    keys, a call that returns has allocated one object, its own
    environment, and has left every object that existed before as it was;
    the closure environment in particular is only read. *)
Theorem Function_call_local k n self args kw h v h' :
  Forall (λ s, plain_key s = true) (Function_args self) →
  (∀ unpack, Function_unpack self = Some unpack →
             Forall (λ s, plain_key s = true) unpack) →
  Forall (λ p, plain_key (fst p) = true) kw →
  Forall plain_code (Function_code self) →
  Function_call k n self args kw h = Ok (v, h') →
  ∃ d, h' = h ++ [OEnvironment EnvironmentCls d {[ "last" := VUdef ]}].
Proof.
  intros Hpa Hpu Hpk Hcode H. unfold Function_call in H.
  destruct (Function_bind k self args kw h) as [[e h1]| |] eqn:Hbind; try done.
  cbn [mbind res_bind bind] in H.
  destruct (Function_bind_alloc _ _ _ _ _ _ _ Hpa Hpu Hpk Hbind) as [-> [d ->]].
  eapply Function_run_local in H as [d' ->]; [|by apply list_lookup_middle|by repeat split].
  exists d'. by rewrite insert_app_r_alt, Nat.sub_diag.
Qed.

Lemma Function_call_local_witness :
  ∃ d, bar_heap (VList [VInt 1; VInt 2]) 5 (Some (VInt 2))
       = [] ++ [OEnvironment EnvironmentCls d {[ "last" := VUdef ]}].
Proof.
  apply (Function_call_local 4 8 bar [VList [VInt 1; VInt 2]] [] [] (VInt 17)).
  - by repeat constructor.
  - intros unpack Hu. discriminate Hu.
  - constructor.
  - repeat constructor. intros name v rest Hd. by simplify_eq/=.
  - vm_compute. reflexivity.
Defined.

(** ** Function.call *)

(** [Function.call] runs the call and then stores its result in the
    attribute [last] of the closure environment, which it returns.  A
    function made without [environ] has [None] there: the body runs, and
    when it has returned the store fails with [AttributeError], so [call]
    never returns for such a function.  When the closure is an environment
    (or class scope), the result is stored on the object, where
    [getattr(environ, 'last')] then finds it, and not in its dictionary,
    whose bindings are as the call left them. *)
Theorem Function_dot_call_last k n self args kw h v h1 :
  Function_call k n self args kw h = Ok (v, h1) →
  (Function_environ self = VNone →
   Function_dot_call k n self args kw h = Raise (AttributeError "last"))
  ∧ (∀ p cls d attrs,
       Function_environ self = VRef p →
       h1 !! p = Some (OEnvironment cls d attrs) →
       ∃ h2,
         Function_dot_call k n self args kw h = Ok (VRef p, h2)
         ∧ h2 = <[p := OEnvironment cls d (<["last" := v]> attrs)]> h1
         ∧ (∀ k', py_getattr (S k') h2 (VRef p) "last" = Ok v)
         ∧ (∀ key, binding h2 p key = binding h1 p key)).
Proof.
  intros Hcall. unfold Function_dot_call. rewrite Hcall. cbn [mbind res_bind bind].
  split.
  - by intros ->.
  - intros p cls d attrs -> Hp. eexists. split; [|split; [reflexivity|split]].
    + unfold py_setattr. change (is_dunder "last") with false. rewrite Hp.
      change (String.eqb "last" "d") with false.
      change (String.eqb "last" "end") with false. rewrite andb_false_r. done.
    + intros k'. cbn [py_getattr].
      rewrite list_lookup_insert_eq by (by eapply lookup_lt_Some).
      change (String.eqb "last" "d") with false.
      change (String.eqb "last" "end") with false. rewrite andb_false_r.
      by rewrite lookup_insert_eq.
    + intros key. unfold binding.
      rewrite list_lookup_insert_eq by (by eapply lookup_lt_Some). by rewrite Hp.
Qed.

Lemma Function_dot_call_last_witness :
  (Function_environ (Function_ret (Function_init "foo" ["x"] None (VRef 0)) (VFB (var_ "b")))
   = VNone →
   Function_dot_call 3 2 (Function_ret (Function_init "foo" ["x"] None (VRef 0)) (VFB (var_ "b")))
                     [VInt 7] [] ab_heap
   = Raise (AttributeError "last"))
  ∧ (∀ p cls d attrs,
       Function_environ
         (Function_ret (Function_init "foo" ["x"] None (VRef 0)) (VFB (var_ "b"))) = VRef p →
       (ab_heap ++ [OEnvironment EnvironmentCls
                      (<["x" := VInt 7]> {[ "__parent__" := VRef 0 ]})
                      {[ "last" := VUdef ]}]) !! p
       = Some (OEnvironment cls d attrs) →
       ∃ h2,
         Function_dot_call 3 2
           (Function_ret (Function_init "foo" ["x"] None (VRef 0)) (VFB (var_ "b")))
           [VInt 7] [] ab_heap
         = Ok (VRef p, h2)
         ∧ h2 = <[p := OEnvironment cls d (<["last" := VInt 2]> attrs)]>
                  (ab_heap ++ [OEnvironment EnvironmentCls
                                 (<["x" := VInt 7]> {[ "__parent__" := VRef 0 ]})
                                 {[ "last" := VUdef ]}])
         ∧ (∀ k', py_getattr (S k') h2 (VRef p) "last" = Ok (VInt 2))
         ∧ (∀ key, binding h2 p key
                   = binding (ab_heap ++ [OEnvironment EnvironmentCls
                                            (<["x" := VInt 7]> {[ "__parent__" := VRef 0 ]})
                                            {[ "last" := VUdef ]}]) p key)).
Proof.
  apply (Function_dot_call_last 3 2
           (Function_ret (Function_init "foo" ["x"] None (VRef 0)) (VFB (var_ "b")))
           [VInt 7] [] ab_heap (VInt 2)).
  vm_compute. reflexivity.
Defined.

(** ** CodeIter.insert *)

Lemma draw_insert_idle ci body :
  idle ci → draw (List.length body) (CodeIter_insert ci body) = (body, ci).
Proof.
  intros Hidle. destruct ci as [code lp lps fr].
  destruct Hidle as [Hf Hl]. cbn in Hf. subst fr.
  induction body as [|c body IH]; [done|].
  cbn [List.length draw]. rewrite idle_next; last first.
  { split; [done|]. intros l li. apply Hl. }
  unfold CodeIter_insert in *. cbn [yield_next_code ci_code ci_loop ci_loops ci_frame app] in *.
  by rewrite IH.
Qed.

(** Code inserted in a stream in which no loop is running comes out first,
    in its order, and the stream then goes on as it would have: a second
    insertion made before the first is drawn comes out before it. *)
Theorem CodeIter_insert_first ci body m :
  idle ci →
  fst (draw (List.length body + m) (CodeIter_insert ci body))
  = body ++ fst (draw m ci).
Proof.
  intros Hidle.
  by rewrite (draw_add _ _ _ _ _ (draw_insert_idle ci body Hidle) eq_refl).
Qed.

Lemma CodeIter_insert_first_witness :
  idle (CodeIter_init [Code_ret])
  ∧ fst (draw (2 + 1) (CodeIter_insert (CodeIter_init [Code_ret])
                         [Code_push (VInt 1); Code_push (VInt 2)]))
    = [Code_push (VInt 1); Code_push (VInt 2)] ++ [Code_ret].
Proof.
  assert (Hidle : idle (CodeIter_init [Code_ret])).
  { split; [reflexivity|]. intros l li Hl. discriminate Hl. }
  split; [exact Hidle|].
  exact (CodeIter_insert_first (CodeIter_init [Code_ret])
           [Code_push (VInt 1); Code_push (VInt 2)] 1 Hidle).
Defined.

Lemma draw_exhausted body code lps l li fr :
  lps !! l = Some li → li_iterator li = [] →
  fr = AtTop ∨ fr = InFor l [] →
  fst (draw (List.length body) (mkCodeIter (body ++ code) (Some l) lps fr)) = body.
Proof.
  intros Hl Hli. revert fr. induction body as [|c body IH]; intros fr Hfr; [done|].
  cbn [List.length draw].
  assert (Hnext : CodeIter_next (mkCodeIter ((c :: body) ++ code) (Some l) lps fr)
                  = Some (c, mkCodeIter (body ++ code) (Some l) lps AtTop)).
  { unfold CodeIter_next. cbn [ci_frame ci_loop].
    destruct Hfr as [-> | ->]; unfold for_loop_in; cbn [ci_loops];
      rewrite Hl; unfold LoopIter_next; rewrite Hli; done. }
  rewrite Hnext. specialize (IH AtTop (or_introl eq_refl)).
  destruct (draw (List.length body) _) as [cs ci']. cbn in *. by rewrite IH.
Qed.

(** Code inserted while a loop is running waits for the loop: the stream
    first yields what is left of the current round, then every remaining
    round of the loop, and only then the inserted code.  This is what
    happens to the branch selected by a Condition that stands in the body
    of a Loop. *)
Theorem CodeIter_insert_waits ci l rest name xs lbody body :
  ci_frame ci = InFor l rest →
  ci_loop ci = Some l →
  ci_loops ci !! l = Some (mkLoopIter name xs lbody) →
  fst (draw (List.length rest + (List.length xs * S (List.length lbody)
                                 + List.length body))
            (CodeIter_insert ci body))
  = rest ++ flat_map (λ x, Code_update [(name, x)] :: lbody) xs ++ body.
Proof.
  destruct ci as [code lp lps fr]. cbn. intros -> -> Hl.
  unfold CodeIter_insert. cbn [ci_code ci_loop ci_loops ci_frame].
  rewrite (draw_add _ _ _ _ _ (draw_InFor rest (body ++ code) (Some l) lps l) eq_refl).
  cbn [fst]. f_equal.
  erewrite draw_add; [|by apply draw_rounds|]; last first.
  { clear. induction xs as [|x xs IH]; [done|].
    cbn [flat_map]. rewrite length_app, IH. simpl. lia. }
  cbn [fst]. f_equal.
  eapply (draw_exhausted _ _ _ _ (mkLoopIter name [] lbody)); [|done|by right].
  apply list_lookup_insert_eq. by eapply lookup_lt_Some.
Qed.

Lemma CodeIter_insert_waits_witness :
  fst (draw (0 + (1 * 2 + 1))
         (CodeIter_insert
            (mkCodeIter [Code_ret] (Some 0%nat) [mkLoopIter "i" [VInt 3] bar_body]
                        (InFor 0 []))
            [Code_push (VInt 1)]))
  = [] ++ flat_map (λ x, Code_update [("i", x)] :: bar_body) [VInt 3]
       ++ [Code_push (VInt 1)].
Proof.
  apply (CodeIter_insert_waits
           (mkCodeIter [Code_ret] (Some 0%nat) [mkLoopIter "i" [VInt 3] bar_body]
                       (InFor 0 []))
           0 [] "i" [VInt 3] bar_body [Code_push (VInt 1)]); reflexivity.
Defined.

(** ** The Lambda of the module's tests *)

(** The sort key [Lambda(unpack=('x', 'y')).set(a = 1)
    .set(z = var.x ** 2 + var.a).ret(var.y + var.z)]: called on a pair of
    integers [(x, y)], it unpacks the pair and returns [y + (x ** 2 + 1)],
    leaving [x], [y], [a] and [z] bound in the environment of the call. *)
Theorem lamb_key (x y : Z) :
  ∃ h',
    (∀ k n, (4 ≤ k)%nat → (4 ≤ n)%nat →
       Function_call k n lamb [VList [VInt x; VInt y]] [] []
       = Ok (VInt (y + (x ^ 2 + 1)), h'))
    ∧ binding h' 0 "x" = Some (VInt x)
    ∧ binding h' 0 "y" = Some (VInt y)
    ∧ binding h' 0 "a" = Some (VInt 1)
    ∧ binding h' 0 "z" = Some (VInt (x ^ 2 + 1)).
Proof.
  eexists. split.
  - intros k n Hk Hn. eapply (Function_call_enough 4 4); [|done..].
    vm_compute. reflexivity.
  - vm_compute. done.
Qed.

(** ** Looking a path up *)

(** The lookup of [a__b] in an environment.  When [a] is bound to an
    object, the result is the attribute [b] of that object: the value that
    [set(a__b = v)] stored is found again, and when the object has no
    attribute [b] the lookup fails with [AttributeError] without asking the
    parent scope, whatever the parent binds.  Only when [a] itself is not
    bound does the parent get the whole path to look up. *)
Theorem Environment_path_lookup :
  (∀ k k' h l cls d attrs o oattrs v,
     h !! l = Some (OEnvironment cls d attrs) →
     d !! "a" = Some (VRef o) →
     h !! o = Some (OInstance oattrs) →
     ∃ h', Environment_set k h l [("a__b", v)] = Ok h'
           ∧ Environment_getattr (py_getattr (S k') h') h' l "a__b" = Ok v)
  ∧ (∀ k h l cls d attrs o oattrs,
       h !! l = Some (OEnvironment cls d attrs) →
       d !! "a" = Some (VRef o) →
       h !! o = Some (OInstance oattrs) →
       Environment_getattr (py_getattr (S k) h) h l "a__b"
       = match oattrs !! "b" with
         | Some v => Ok v
         | None => Raise (AttributeError "b")
         end)
  ∧ (∀ g h l cls d attrs parent,
       h !! l = Some (OEnvironment cls d attrs) →
       d !! "a" = None →
       d !! "__parent__" = Some parent →
       parent ≠ VNone →
       Environment_getattr g h l "a__b" = g parent "a__b").
Proof.
  assert (Hget : ∀ k h l cls d attrs o oattrs,
     h !! l = Some (OEnvironment cls d attrs) →
     d !! "a" = Some (VRef o) →
     h !! o = Some (OInstance oattrs) →
     Environment_getattr (py_getattr (S k) h) h l "a__b"
     = match oattrs !! "b" with
       | Some v => Ok v
       | None => Raise (AttributeError "b")
       end).
  { intros k h l cls d attrs o oattrs Hl Hd Ho.
    unfold Environment_getattr, real_attribute. rewrite Hl.
    change (self_to_dollar "a__b") with "a__b".
    change (re_findall "a__b") with ["a"; "__b"].
    change (literal_key "a__b" ["a"; "__b"]) with (@Ok bool false).
    cbn [mbind res_bind bind]. change (self_to_dollar "a") with "a". rewrite Hd.
    change (fixed_names_loop None ["__b"]) with (@Ok (list string) ["b"]).
    cbn [mbind res_bind bind].
    change (unpack_last ["b"]) with (@Ok (list string * string) ([], "b")).
    cbn [mbind res_bind bind getattr_chain py_getattr]. rewrite Ho.
    change (is_dunder "b") with false. cbv iota.
    by destruct (oattrs !! "b"). }
  split; [|split; [exact Hget|]].
  - intros k k' h l cls d attrs o oattrs v Hl Hd Ho.
    exists (<[o := OInstance (<["b" := v]> oattrs)]> h).
    assert (Hne : o ≠ l) by (intros ->; congruence).
    split.
    + unfold Environment_set.
      change (has_key "self" [("a__b", v)]) with false.
      cbn [Environment_set_loop]. unfold real_attribute. rewrite Hl.
      change (self_to_dollar "a__b") with "a__b".
      change (re_findall "a__b") with ["a"; "__b"].
      change (literal_key "a__b" ["a"; "__b"]) with (@Ok bool false).
      cbn [mbind res_bind bind]. change (self_to_dollar "a") with "a". rewrite Hd.
      change (fixed_names_loop None ["__b"]) with (@Ok (list string) ["b"]).
      cbn [mbind res_bind bind].
      change (unpack_last ["b"]) with (@Ok (list string * string) ([], "b")).
      cbn [mbind res_bind bind getattr_chain]. unfold py_setattr.
      change (is_dunder "b") with false. rewrite Ho. done.
    + erewrite Hget; [| |done|]; last first.
      * apply list_lookup_insert_eq. by eapply lookup_lt_Some.
      * by rewrite list_lookup_insert_ne.
      * by rewrite lookup_insert_eq.
  - intros g h l cls d attrs parent Hl Hd Hpar Hne.
    unfold Environment_getattr, real_attribute. rewrite Hl.
    change (self_to_dollar "a__b") with "a__b".
    change (re_findall "a__b") with ["a"; "__b"].
    change (literal_key "a__b" ["a"; "__b"]) with (@Ok bool false).
    cbn [mbind res_bind bind]. change (self_to_dollar "a") with "a". rewrite Hd, Hpar.
    by destruct parent.
Qed.

Lemma Environment_path_lookup_witness :
  (∃ h', Environment_set 0 underscore_heap 0 [("a__b", VInt 1)] = Ok h'
         ∧ Environment_getattr (py_getattr 1 h') h' 0 "a__b" = Ok (VInt 1))
  ∧ Environment_getattr (py_getattr 1 underscore_heap) underscore_heap 0 "a__b"
    = Raise (AttributeError "b")
  ∧ Environment_getattr (py_getattr 1 child_parent_heap) child_parent_heap 0 "a__b"
    = py_getattr 1 child_parent_heap (VRef 1) "a__b".
Proof.
  destruct Environment_path_lookup as (H1 & H2 & H3).
  split; [|split].
  - eapply (H1 0%nat 0%nat underscore_heap 0%nat); reflexivity.
  - exact (H2 0%nat underscore_heap 0%nat EnvironmentCls
             (<["_" := VRef 1]> (<["a" := VRef 1]> ∅)) {[ "last" := VUdef ]}
             1%nat ∅ eq_refl eq_refl eq_refl).
  - eapply (H3 _ child_parent_heap 0%nat); [reflexivity|reflexivity|reflexivity|discriminate].
Defined.

(** ** The fluent interface builds the code that was written *)

Lemma chain_calls_app cs1 cs2 chain :
  chain_calls (cs1 ++ cs2) chain = chain' ← chain_calls cs1 chain; chain_calls cs2 chain'.
Proof.
  revert chain. induction cs1 as [|c cs1 IH]; intros chain; [done|].
  cbn [app chain_calls]. destruct (chain_call c chain) as [chain'| |]; [|done..].
  cbn [mbind res_bind bind]. apply IH.
Qed.

Lemma alter_ext_eq {A} (f g : A → A) i (l : list A) :
  (∀ x, f x = g x) → alter f i l = alter g i l.
Proof.
  intros H. revert i. induction l as [|x l IH]; intros [|i]; cbn; [done..| |].
  - by rewrite H.
  - f_equal. apply IH.
Qed.

Lemma Condition_append_app cb c1 c2 :
  Condition_append (Condition_append cb c1) c2 = Condition_append cb (c1 ++ c2).
Proof.
  destruct cb as [tests bodies default [i| |l]]; unfold Condition_append; cbn.
  - f_equal. rewrite list_alter_alter_eq. apply alter_ext_eq.
    intros b. cbn. by rewrite app_assoc.
  - by rewrite app_assoc.
  - by rewrite app_assoc.
Qed.

Lemma block_append_app b c1 c2 :
  block_append (block_append b c1) c2 = block_append b (c1 ++ c2).
Proof.
  destruct b as [f|cb|data code]; cbn.
  - by rewrite app_assoc.
  - by rewrite Condition_append_app.
  - by rewrite app_assoc.
Qed.

Lemma Condition_append_nil cb : Condition_append cb [] = cb.
Proof.
  destruct cb as [tests bodies default [i| |l]]; unfold Condition_append; cbn.
  - f_equal. apply list_alter_id. intros b. by rewrite app_nil_r.
  - by rewrite app_nil_r.
  - by rewrite app_nil_r.
Qed.

Lemma block_append_nil b : block_append b [] = b.
Proof.
  destruct b as [[]|cb|data code]; cbn.
  - by rewrite app_nil_r.
  - by rewrite Condition_append_nil.
  - by rewrite app_nil_r.
Qed.


Lemma in_last_branch_append tests bodies c c' :
  Condition_append (in_last_branch tests bodies c) c'
  = in_last_branch tests bodies (c ++ c').
Proof.
  unfold Condition_append, in_last_branch. cbn. f_equal.
  by rewrite <- (Nat.add_0_r (List.length bodies)), alter_app_r.
Qed.

Lemma chain_calls_written :
  (∀ s b parents,
     chain_calls (stmt_calls s) (b :: parents)
     = Ok (block_append b (stmt_code s) :: parents))
  ∧ (∀ body b parents,
       chain_calls (suite_calls body) (b :: parents)
       = Ok (block_append b (suite_code body) :: parents))
  ∧ (∀ rest tests bodies c p parents,
       chain_calls (orelse_calls rest)
                   (BCondition (in_last_branch tests bodies c) :: p :: parents)
       = Ok (block_append p
               [Code_condition
                  (mkCondition (tests ++ orelse_tests rest)
                               (bodies ++ c :: orelse_bodies rest)
                               (orelse_default rest))]
             :: parents)).
Proof.
  apply stmt_suite_orelse_ind.
  - done.
  - done.
  - intros test body IHb rest IHr b parents.
    cbn [stmt_calls stmt_code chain_calls chain_call mbind res_bind bind].
    rewrite chain_calls_app, IHb. cbn [mbind res_bind bind block_append].
    change (Condition_init test) with (in_last_branch [test] [] []).
    rewrite in_last_branch_append. cbn [app]. by rewrite IHr.
  - intros kw body IHb b parents.
    cbn [stmt_calls stmt_code chain_calls chain_call mbind res_bind bind].
    rewrite chain_calls_app, IHb. done.
  - intros b parents. cbn. by rewrite block_append_nil.
  - intros s IHs body IHb b parents.
    cbn [suite_calls suite_code]. rewrite chain_calls_app, IHs.
    cbn [mbind res_bind bind]. by rewrite IHb, block_append_app.
  - intros tests bodies c p parents. cbn. by rewrite app_nil_r.
  - intros body IHb tests bodies c p parents.
    cbn [orelse_calls chain_calls chain_call mbind res_bind bind].
    rewrite chain_calls_app.
    change (BCondition (Condition_else_ (in_last_branch tests bodies c)))
      with (BCondition (in_else tests (bodies ++ [c]) [])).
    rewrite IHb. cbn. by rewrite app_nil_r.
  - intros test body IHb rest IHr tests bodies c p parents.
    cbn [orelse_calls chain_calls chain_call mbind res_bind bind].
    rewrite chain_calls_app.
    change (Condition_elif_ (in_last_branch tests bodies c) test)
      with (in_last_branch (tests ++ [test]) (bodies ++ [c]) []).
    rewrite IHb. cbn [mbind res_bind bind block_append].
    rewrite in_last_branch_append. cbn [app]. rewrite IHr.
    cbn [orelse_tests orelse_bodies orelse_default].
    by rewrite <- !app_assoc.
Qed.


(** ** Every test keeps its body *)

Lemma paired_block_append b c :
  paired_block b → Forall paired_code c → paired_block (block_append b c).
Proof.
  intros Hb Hc. destruct b as [f|cb|data code]; cbn in *.
  - by apply Forall_app.
  - destruct Hb as (Hlen & Hif & Helse & Hcur).
    destruct cb as [tests bodies default [i| |l]]; cbn in *; [|by rewrite Forall_app|done].
    split; [by rewrite length_alter|]. split; [|split; [done|by rewrite length_alter]].
    apply Forall_alter; [done|]. intros body _ Hbody. by apply Forall_app.
  - by apply Forall_app.
Qed.

(** Whatever calls are chained, in whatever order, from a function whose
    code pairs tests and bodies: as long as the calls exist on the objects
    they are made on, every condition of the chain and every condition
    already in the code, at any depth, has exactly one body per test, so
    that the [zip] of [code_to_exec] drops neither a test nor a body, and
    the list that [set] and [ret] append to is always a list of the
    object the chain is at. *)
Theorem chain_keeps_pairs cs chain chain' :
  Forall paired_block chain →
  chain_calls cs chain = Ok chain' →
  Forall paired_block chain'.
Proof.
  revert chain. induction cs as [|c cs IH]; intros chain Hchain H.
  - cbn in H. by simplify_eq.
  - cbn [chain_calls] in H.
    destruct (chain_call c chain) as [chain1| |] eqn:Hcall; try done.
    cbn [mbind res_bind bind] in H. apply (IH chain1); [|done].
    clear IH H. destruct chain as [|b parents]; [done|].
    apply Forall_cons in Hchain as [Hb Hparents].
    destruct c as [kw|expr|expr|expr| |kw|]; cbn [chain_call] in Hcall.
    + simplify_eq. constructor; [|done].
      apply paired_block_append; [done|]. repeat constructor.
    + simplify_eq. constructor; [|done].
      apply paired_block_append; [done|]. repeat constructor.
    + simplify_eq. constructor; [|by constructor]. cbn. repeat split; try done.
      * by repeat constructor.
      * lia.
    + destruct b as [f|cb|data code]; try done. simplify_eq.
      constructor; [|done]. destruct Hb as (Hlen & Hif & Helse & Hcur).
      cbn. rewrite !length_app. cbn. repeat split; try lia; try done.
      apply Forall_app. split; [done|]. by repeat constructor.
    + destruct b as [f|cb|data code]; try done. simplify_eq.
      constructor; [|done]. destruct Hb as (Hlen & Hif & Helse & Hcur). by cbn.
    + simplify_eq. constructor; [|by constructor]. by cbn.
    + destruct b as [f|cb|data code].
      * destruct parents; [|done]. destruct (Function_environ f); try done.
        simplify_eq. by repeat constructor.
      * destruct parents as [|p parents']; [done|]. simplify_eq.
        apply Forall_cons in Hparents as [Hp Hparents].
        constructor; [|done]. apply paired_block_append; [done|].
        destruct Hb as (Hlen & Hif & Helse & Hcur).
        repeat constructor; by cbn.
      * destruct parents as [|p parents']; [done|]. simplify_eq.
        apply Forall_cons in Hparents as [Hp Hparents].
        constructor; [|done]. apply paired_block_append; [done|].
        repeat constructor; by cbn.
Qed.

Lemma chain_keeps_pairs_witness :
  Forall paired_block [BFunction foo].
Proof.
  apply (chain_keeps_pairs (suite_calls foo_body)
           [BFunction (Function_init "foo" ["x"; "y"] None VNone)]).
  - by repeat constructor.
  - reflexivity.
Defined.

(** ** The dispatcher runs structured bodies as written *)

Lemma next_quiet c code lp lps :
  quiet lp lps →
  CodeIter_next (mkCodeIter (c :: code) lp lps AtTop)
  = Some (c, mkCodeIter code lp lps AtTop).
Proof.
  intros Hq. rewrite idle_next; [done|]. split; [done|]. intros l li. apply Hq.
Qed.

Lemma last_snoc_some {A} (l : list A) x : last (l ++ [x]) = Some x.
Proof. induction l as [|a [|b l] IH]; done. Qed.

(** A round of straight code, drawn from the body of a loop. *)
Lemma run_straight_round k e b :
  straight b = true →
  ∀ h stack code lp lps l tail,
  ∃ m, ∀ n,
    Function_run k (m + n) h e stack
                 (mkCodeIter code lp lps (InFor l (suite_code b ++ tail)))
    = follows (exec_suite k e b h)
        (λ h', Function_run k n h' e stack (mkCodeIter code lp lps (InFor l tail))).
Proof.
  induction b as [|s b IH]; intros Hs h stack code lp lps l tail.
  - exists 0%nat. done.
  - destruct s as [kw|expr| |]; try done; cbn [straight] in Hs.
    + cbn [suite_code stmt_code app exec_suite exec_stmt]. unfold exec_set.
      destruct (calculate_items k h (VRef e) kw) as [kw'| |] eqn:Hkw.
      2,3: exists 1%nat; intros n; cbn; by rewrite Hkw.
      destruct (Environment_set k h e (dict_of kw')) as [h1| |] eqn:Hset.
      2,3: exists 1%nat; intros n; cbn; by rewrite Hkw; cbn; rewrite Hset.
      destruct (IH Hs h1 stack code lp lps l tail) as [m Hm].
      exists (S m). intros n. cbn. rewrite Hkw. cbn. rewrite Hset. cbn. apply Hm.
    + cbn [suite_code stmt_code app exec_suite exec_stmt]. unfold exec_ret.
      exists 2%nat. intros n. cbn.
      destruct (calculate k h expr (VRef e)) as [v| |]; [|done..].
      cbn. by rewrite last_snoc_some.
Qed.

Lemma run_rounds_exec k e name b :
  straight b = true →
  ∀ xs h stack code lp lps l,
  lps !! l = Some (mkLoopIter name xs (suite_code b)) →
  ∃ m, ∀ n,
    Function_run k (m + n) h e stack (mkCodeIter code lp lps (InFor l []))
    = follows (exec_rounds k e name (exec_suite k e b) xs h)
        (λ h', Function_run k n h' e stack
                 (mkCodeIter code lp (<[l := mkLoopIter name [] (suite_code b)]> lps)
                             (InFor l []))).
Proof.
  intros Hs. induction xs as [|x xs IH]; intros h stack code lp lps l Hl.
  - exists 0%nat. intros n. cbn. by rewrite list_insert_id.
  - cbn [exec_rounds]. unfold exec_set.
    assert (Hnext : CodeIter_next (mkCodeIter code lp lps (InFor l []))
              = Some (Code_update [(name, x)],
                      mkCodeIter code lp (<[l := mkLoopIter name xs (suite_code b)]> lps)
                                 (InFor l (suite_code b)))).
    { unfold CodeIter_next, for_loop_in. cbn. by rewrite Hl. }
    destruct (calculate_items k h (VRef e) [(name, x)]) as [kw'| |] eqn:Hkw.
    2,3: exists 1%nat; intros n; cbn [Nat.add Function_run]; by rewrite Hnext, Hkw.
    destruct (Environment_set k h e (dict_of kw')) as [h1| |] eqn:Hset.
    2,3: exists 1%nat; intros n; cbn [Nat.add Function_run];
         rewrite Hnext, Hkw; cbn; by rewrite Hset.
    cbn [mbind res_bind bind].
    destruct (run_straight_round k e b Hs h1 stack code lp
                (<[l := mkLoopIter name xs (suite_code b)]> lps) l []) as [m1 Hm1].
    rewrite app_nil_r in Hm1.
    destruct (exec_suite k e b h1) as [[h2|v h2]| |] eqn:Hbody.
    + destruct (IH h2 stack code lp (<[l := mkLoopIter name xs (suite_code b)]> lps) l)
        as [m2 Hm2].
      { apply list_lookup_insert_eq. by eapply lookup_lt_Some. }
      exists (S (m1 + m2)). intros n. cbn [Nat.add Function_run].
      rewrite Hnext, Hkw. cbn. rewrite Hset. cbn.
      rewrite <- Nat.add_assoc, Hm1, Hbody. cbn. rewrite Hm2.
      by rewrite list_insert_insert_eq.
    + exists (S m1). intros n. cbn [Nat.add Function_run].
      rewrite Hnext, Hkw. cbn. rewrite Hset. cbn. by rewrite Hm1, Hbody.
    + exists (S m1). intros n. cbn [Nat.add Function_run].
      rewrite Hnext, Hkw. cbn. rewrite Hset. cbn. by rewrite Hm1, Hbody.
    + exists (S m1). intros n. cbn [Nat.add Function_run].
      rewrite Hnext, Hkw. cbn. rewrite Hset. cbn. by rewrite Hm1, Hbody.
Qed.

Lemma follows_ext r (f g : heap → res (value * heap)) :
  (∀ h, f h = g h) → follows r f = follows r g.
Proof. intros H. destruct r as [[]| |]; cbn; auto. Qed.

Lemma exec_suite_cons k e s b h :
  exec_suite k e (suite_cons s b) h
  = o ← exec_stmt k e s h;
    match o with
    | Normal h' => exec_suite k e b h'
    | Returned _ _ => Ok o
    end.
Proof. done. Qed.

Lemma exec_stmt_if k e test body rest h :
  exec_stmt k e (s_if test body rest) h
  = r ← calculate k h test (VRef e);
    if truthy r then exec_suite k e body h else exec_orelse k e rest h.
Proof. done. Qed.

Lemma exec_stmt_for k e name source kw body h :
  exec_stmt k e (s_for ((name, source) :: kw) body) h
  = v ← calculate k h source (VRef e);
    xs ← py_iter v;
    exec_rounds k e name (exec_suite k e body) xs h.
Proof. done. Qed.

Lemma exec_orelse_elif k e test body rest h :
  exec_orelse k e (elif_suite test body rest) h
  = r ← calculate k h test (VRef e);
    if truthy r then exec_suite k e body h else exec_orelse k e rest h.
Proof. done. Qed.

Lemma Function_run_structured k e :
  (∀ s, flat_stmt s = true →
     ∀ h stack code lp lps, quiet lp lps →
     ∃ m lp' lps', quiet lp' lps' ∧ ∀ n,
       Function_run k (m + n) h e stack (mkCodeIter (stmt_code s ++ code) lp lps AtTop)
       = follows (exec_stmt k e s h)
           (λ h', Function_run k n h' e stack (mkCodeIter code lp' lps' AtTop)))
  ∧ (∀ b, flat_suite b = true →
       ∀ h stack code lp lps, quiet lp lps →
       ∃ m lp' lps', quiet lp' lps' ∧ ∀ n,
         Function_run k (m + n) h e stack (mkCodeIter (suite_code b ++ code) lp lps AtTop)
         = follows (exec_suite k e b h)
             (λ h', Function_run k n h' e stack (mkCodeIter code lp' lps' AtTop)))
  ∧ (∀ r, flat_orelse r = true →
       ∀ h stack code lp lps, quiet lp lps →
       ∃ m lp' lps', quiet lp' lps' ∧ ∀ n,
         (sel ← code_to_exec_loop k h (VRef e)
                  (combine (orelse_tests r) (orelse_bodies r)) (orelse_default r);
          Function_run k (m + n) h e stack (mkCodeIter (sel ++ code) lp lps AtTop))
         = follows (exec_orelse k e r h)
             (λ h', Function_run k n h' e stack (mkCodeIter code lp' lps' AtTop))).
Proof.
  apply stmt_suite_orelse_ind.
  - (* set *)
    intros kw _ h stack code lp lps Hq. exists 1%nat, lp, lps. split; [done|].
    intros n. cbn [Nat.add Function_run stmt_code app]. rewrite (next_quiet _ _ _ _ Hq).
    cbn [exec_stmt]. unfold exec_set.
    destruct (calculate_items k h (VRef e) kw) as [kw'| |]; [|done..]. cbn.
    by destruct (Environment_set k h e (dict_of kw')).
  - (* ret *)
    intros expr _ h stack code lp lps Hq. exists 2%nat, lp, lps. split; [done|].
    intros n. cbn [Nat.add Function_run stmt_code app]. rewrite (next_quiet _ _ _ _ Hq).
    cbn [exec_stmt]. unfold exec_ret.
    destruct (calculate k h expr (VRef e)) as [v| |]; [|done..]. cbn [mbind res_bind bind].
    rewrite (next_quiet _ _ _ _ Hq). by rewrite last_snoc_some.
  - (* if *)
    intros test body IHb rest IHr Hf h stack code lp lps Hq.
    cbn [flat_stmt] in Hf. apply andb_true_iff in Hf as [Hfb Hfr].
    cbn [stmt_code app]. rewrite exec_stmt_if.
    destruct (calculate k h test (VRef e)) as [r0| |] eqn:Htest.
    2,3: exists 1%nat, lp, lps; split; [done|]; intros n;
         cbn [Nat.add Function_run]; rewrite (next_quiet _ _ _ _ Hq);
         unfold Condition_code_to_exec; cbn; by rewrite Htest.
    cbn [mbind res_bind bind].
    destruct (truthy r0) eqn:Ht.
    + destruct (IHb Hfb h stack code lp lps Hq) as (m & lp' & lps' & Hq' & Hm).
      exists (S m), lp', lps'. split; [done|]. intros n.
      cbn [Nat.add Function_run]. rewrite (next_quiet _ _ _ _ Hq).
      unfold Condition_code_to_exec. cbn [expr_if code_if code_else combine code_to_exec_loop].
      rewrite Htest. cbn [mbind res_bind bind]. rewrite Ht. cbn [mbind res_bind bind].
      apply Hm.
    + destruct (IHr Hfr h stack code lp lps Hq) as (m & lp' & lps' & Hq' & Hm).
      exists (S m), lp', lps'. split; [done|]. intros n.
      cbn [Nat.add Function_run]. rewrite (next_quiet _ _ _ _ Hq).
      unfold Condition_code_to_exec. cbn [expr_if code_if code_else combine code_to_exec_loop].
      rewrite Htest. cbn [mbind res_bind bind]. rewrite Ht.
      apply Hm.
  - (* for *)
    intros kw body _ Hf h stack code lp lps Hq. cbn [flat_stmt] in Hf.
    cbn [stmt_code app].
    destruct kw as [|[name source] kw].
    { exists 1%nat, lp, lps. split; [done|]. intros n.
      cbn [Nat.add Function_run]. by rewrite (next_quiet _ _ _ _ Hq). }
    rewrite exec_stmt_for.
    destruct (calculate k h source (VRef e)) as [v| |] eqn:Hsrc.
    2,3: exists 1%nat, lp, lps; split; [done|]; intros n;
         cbn [Nat.add Function_run]; rewrite (next_quiet _ _ _ _ Hq);
         unfold Loop_block_to_exec; cbn; by rewrite Hsrc.
    cbn [mbind res_bind bind].
    destruct (py_iter v) as [xs| |] eqn:Hit.
    2,3: exists 1%nat, lp, lps; split; [done|]; intros n;
         cbn [Nat.add Function_run]; rewrite (next_quiet _ _ _ _ Hq);
         unfold Loop_block_to_exec; cbn; rewrite Hsrc; cbn; by rewrite Hit.
    cbn [mbind res_bind bind].
    set (l := List.length lps).
    set (li := mkLoopIter name xs (suite_code body)).
    destruct (run_rounds_exec k e name body Hf xs h stack code (Some l) (lps ++ [li]) l)
      as [m Hm].
    { by apply list_lookup_middle. }
    exists (S m), (Some l), (<[l := mkLoopIter name [] (suite_code body)]> (lps ++ [li])).
    split.
    { intros l0 li0 [= <-] Hl0.
      rewrite list_lookup_insert_eq in Hl0; [by simplify_eq|].
      rewrite length_app. cbn. lia. }
    intros n. cbn [Nat.add Function_run]. rewrite (next_quiet _ _ _ _ Hq).
    unfold Loop_block_to_exec. cbn [loop_data loop_code]. rewrite Hsrc.
    cbn [mbind res_bind bind]. rewrite Hit. cbn [mbind res_bind bind].
    unfold CodeIter_create_loop. cbn [ci_code ci_loop ci_loops ci_frame].
    fold l li.
    rewrite (Function_run_same_next _ _ _ _ _ _
               (mkCodeIter code (Some l) (lps ++ [li]) (InFor l []))) by done.
    rewrite Hm. apply follows_ext. intros h'.
    by apply Function_run_same_next.
  - (* the empty suite *)
    intros _ h stack code lp lps Hq. exists 0%nat, lp, lps. by split.
  - (* a statement and the rest *)
    intros s IHs b IHb Hf h stack code lp lps Hq.
    cbn [flat_suite] in Hf. apply andb_true_iff in Hf as [Hfs Hfb].
    cbn [suite_code]. rewrite exec_suite_cons, <- app_assoc.
    destruct (IHs Hfs h stack (suite_code b ++ code) lp lps Hq)
      as (m1 & lp1 & lps1 & Hq1 & Hm1).
    destruct (exec_stmt k e s h) as [[h1|v h1]| |] eqn:Hs.
    + destruct (IHb Hfb h1 stack code lp1 lps1 Hq1) as (m2 & lp2 & lps2 & Hq2 & Hm2).
      exists (m1 + m2)%nat, lp2, lps2. split; [done|]. intros n.
      rewrite <- Nat.add_assoc, Hm1. cbn. apply Hm2.
    + exists m1, lp, lps. split; [done|]. intros n. by rewrite Hm1.
    + exists m1, lp, lps. split; [done|]. intros n. by rewrite Hm1.
    + exists m1, lp, lps. split; [done|]. intros n. by rewrite Hm1.
  - (* no else *)
    intros _ h stack code lp lps Hq. exists 0%nat, lp, lps. by split.
  - (* else *)
    intros body IHb Hf h stack code lp lps Hq. cbn [flat_orelse] in Hf.
    destruct (IHb Hf h stack code lp lps Hq) as (m & lp' & lps' & Hq' & Hm).
    exists m, lp', lps'. split; [done|]. intros n. cbn. apply Hm.
  - (* elif *)
    intros test body IHb rest IHr Hf h stack code lp lps Hq.
    cbn [flat_orelse] in Hf. apply andb_true_iff in Hf as [Hfb Hfr].
    cbn [orelse_tests orelse_bodies orelse_default combine code_to_exec_loop].
    rewrite exec_orelse_elif.
    destruct (calculate k h test (VRef e)) as [r0| |] eqn:Htest.
    2,3: exists 0%nat, lp, lps; by split.
    cbn [mbind res_bind bind].
    destruct (truthy r0) eqn:Ht.
    + destruct (IHb Hfb h stack code lp lps Hq) as (m & lp' & lps' & Hq' & Hm).
      exists m, lp', lps'. split; [done|]. intros n. cbn. apply Hm.
    + destruct (IHr Hfr h stack code lp lps Hq) as (m & lp' & lps' & Hq' & Hm).
      exists m, lp', lps'. split; [done|]. intros n. apply Hm.
Qed.

(** The dispatcher gives a structured body its meaning, as long as no
    loop holds a condition or another loop.  For every function whose code
    is the code of such a body, whatever the nesting of its conditions and
    the place of its loops, a call given enough instruction fuel binds the
    arguments and then does what the body means: it returns the value of
    the first [ret] reached, or [None] when the body ends without one, and
    fails where the body fails. *)
Theorem Function_call_structured k self body args kw h :
  Function_code self = suite_code body →
  flat_suite body = true →
  ∃ m, ∀ n, (m ≤ n)%nat →
    Function_call k n self args kw h
    = '(e, h1) ← Function_bind k self args kw h;
      follows (exec_suite k e body h1) (λ h', Ok (VNone, h')).
Proof.
  intros Hcode Hflat. unfold Function_call. rewrite Hcode.
  destruct (Function_bind k self args kw h) as [[e h1]| |]; [|by exists 0%nat..].
  cbn [mbind res_bind bind].
  destruct (proj1 (proj2 (Function_run_structured k e)) body Hflat h1 [] [] None [])
    as (m & lp' & lps' & Hq' & Hm); [done|].
  rewrite app_nil_r in Hm.
  exists (S m). intros n Hn.
  replace n with (m + S (n - S m))%nat by lia.
  unfold CodeIter_init. rewrite Hm. apply follows_ext. intros h'.
  cbn [Function_run]. rewrite idle_next; [done|]. split; [done|]. intros l li. apply Hq'.
Qed.

Lemma Function_call_structured_witness :
  ∃ m, ∀ n, (m ≤ n)%nat →
    Function_call 4 n bar [VList [VInt 1; VInt 2]] [] []
    = '(e, h1) ← Function_bind 4 bar [VList [VInt 1; VInt 2]] [] [];
      follows (exec_suite 4 e bar_suite h1) (λ h', Ok (VNone, h')).
Proof.
  apply (Function_call_structured 4 bar bar_suite [VList [VInt 1; VInt 2]] [] []);
    reflexivity.
Defined.

(** ** Class scopes: class_, set, end *)



(** ** The string 'self' as an argument *)

(** [fix_self] is applied to the arguments of every call, not only to the
    parameter names of a definition.  For a function without unpack tail
    whose parameters are distinct literal keys, called with as many
    positional arguments as it has parameters, each parameter is bound to
    its argument, except that an argument equal to the string ['self'] is
    bound as the string ['$']. *)
Theorem Function_call_binds_dollar k self args h :
  Function_unpack self = None →
  Forall (λ s, plain_key s = true) (Function_args self) →
  NoDup (Function_args self) →
  List.length args = List.length (Function_args self) →
  ∃ h1,
    Function_bind k self args [] h = Ok (List.length h, h1)
    ∧ (∀ i name v,
         Function_args self !! i = Some name → args !! i = Some v →
         v ≠ VStr "self" → binding h1 (List.length h) name = Some v)
    ∧ (∀ i name,
         Function_args self !! i = Some name → args !! i = Some (VStr "self") →
         binding h1 (List.length h) name = Some (VStr "$")).
Proof.
  intros Hu Hplain Hnd Hlen. eexists. split; [|split].
  - apply Function_bind_plain; [done|done|constructor|]. cbn. lia.
  - intros i name v Hn Hv Hne. unfold binding. rewrite list_lookup_middle by done.
    cbn [bind_all fold_left].
    eapply bind_all_combine_lookup; [done|done|].
    rewrite list_lookup_fmap, Hv. cbn. f_equal.
    destruct v as [| | | |s| | |]; try done. cbn. unfold self_to_dollar.
    destruct (String.eqb_spec s "self"); [congruence|done].
  - intros i name Hn Hv. unfold binding. rewrite list_lookup_middle by done.
    cbn [bind_all fold_left].
    eapply bind_all_combine_lookup; [done|done|].
    by rewrite list_lookup_fmap, Hv.
Qed.

Lemma Function_call_binds_dollar_witness :
  ∃ h1,
    Function_bind 0 ret_x [VStr "self"; VInt 1] [] [] = Ok (0%nat, h1)
    ∧ (∀ i name v,
         Function_args ret_x !! i = Some name → [VStr "self"; VInt 1] !! i = Some v →
         v ≠ VStr "self" → binding h1 0 name = Some v)
    ∧ (∀ i name,
         Function_args ret_x !! i = Some name →
         [VStr "self"; VInt 1] !! i = Some (VStr "self") →
         binding h1 0 name = Some (VStr "$")).
Proof.
  apply (Function_call_binds_dollar 0 ret_x [VStr "self"; VInt 1] []).
  - reflexivity.
  - by repeat constructor.
  - repeat constructor; intros Hin;
      repeat (apply elem_of_cons in Hin as [Hin|Hin]; [done|]); by apply elem_of_nil in Hin.
  - reflexivity.
Defined.

(** ** The loop variable after the loop *)

Lemma run_straight_keeps k e name cs :
  Forall (binds_others name) cs →
  ∀ h stack cls d attrs h' stack',
    h !! e = Some (OEnvironment cls d attrs) →
    run_straight k e cs (h, stack) = Ok (h', stack') →
    ∃ d', h' !! e = Some (OEnvironment cls d' attrs) ∧ d' !! name = d !! name.
Proof.
  induction 1 as [|c cs Hc _ IH]; intros h stack cls d attrs h' stack' He H.
  - cbn in H. simplify_eq. by exists d.
  - destruct c as [data|data| |cond|loop|opcode]; try done; cbn [run_straight fst snd] in H.
    + destruct (calculate_items k h (VRef e) data) as [kw| |] eqn:Hkw; try done.
      cbn [mbind res_bind bind] in H.
      pose proof (calculate_items_keys _ _ _ _ _ Hkw) as Hkeys.
      cbn [binds_others] in Hc.
      erewrite Environment_set_plain in H; [|done|]; last first.
      { apply keys_dict_of. eapply plain_keys_fst; [exact Hkeys|].
        eapply Forall_impl; [exact Hc|]. by intros p [Hp _]. }
      cbn [mbind res_bind bind] in H.
      eapply IH in H as (d' & Hd' & Hlook);
        [|by apply list_lookup_insert_eq; eapply lookup_lt_Some].
      exists d'. split; [done|]. rewrite Hlook, bind_all_dict_of.
      apply bind_all_lookup_notin. rewrite Hkeys.
      intros Hin. apply list_elem_of_fmap in Hin as (p & -> & Hp).
      rewrite Forall_forall in Hc. by destruct (Hc p Hp).
    + destruct (calculate k h data (VRef e)) as [v| |]; try done.
      cbn [mbind res_bind bind] in H. by eapply IH.
Qed.

Lemma run_round_binds k e name body x h stack cls d attrs h' stack' :
  Forall (binds_others name) body →
  plain_key name = true →
  isinstance_FuncBuilder x = false →
  h !! e = Some (OEnvironment cls d attrs) →
  run_straight k e (Code_update [(name, x)] :: body) (h, stack) = Ok (h', stack') →
  ∃ d', h' !! e = Some (OEnvironment cls d' attrs) ∧ d' !! name = Some x.
Proof.
  intros Hbody Hp Hx He H. cbn [run_straight fst snd] in H.
  rewrite (calculate_items_concrete _ _ _ _ _ Hx) in H. cbn [mbind res_bind bind] in H.
  change (dict_of [(name, x)]) with [(name, x)] in H.
  erewrite Environment_set_plain in H; [|done|by repeat constructor].
  cbn [mbind res_bind bind] in H.
  eapply run_straight_keeps in H as (d' & Hd' & Hlook);
    [| done | by apply list_lookup_insert_eq; eapply lookup_lt_Some].
  exists d'. split; [done|]. rewrite Hlook. apply lookup_insert_eq.
Qed.

Lemma run_rounds_last k e name body xs :
  Forall (binds_others name) body →
  plain_key name = true →
  Forall (λ x, isinstance_FuncBuilder x = false) xs →
  ∀ h stack cls d attrs h' stack',
    h !! e = Some (OEnvironment cls d attrs) →
    run_rounds k e name body xs (h, stack) = Ok (h', stack') →
    ∃ d', h' !! e = Some (OEnvironment cls d' attrs)
          ∧ d' !! name = match last xs with Some x => Some x | None => d !! name end.
Proof.
  intros Hbody Hp. induction 1 as [|x xs Hx Hxs IH]; intros h stack cls d attrs h' stack' He H.
  - cbn in H. simplify_eq. by exists d.
  - cbn [run_rounds] in H.
    destruct (run_straight k e (Code_update [(name, x)] :: body) (h, stack))
      as [[h1 stack1]| |] eqn:Hround; try done.
    cbn [mbind res_bind bind] in H.
    destruct (run_round_binds _ _ _ _ _ _ _ _ _ _ _ _ Hbody Hp Hx He Hround)
      as (d1 & Hd1 & Hlook1).
    destruct (IH _ _ _ _ _ _ _ Hd1 H) as (d' & Hd' & Hlook).
    exists d'. split; [done|]. rewrite Hlook, Hlook1.
    destruct xs as [|y ys]; [done|].
    change (last (x :: y :: ys)) with (last (y :: ys)).
    destruct (last (y :: ys)) eqn:E; [done|]. by apply last_None in E.
Qed.

Lemma run_straight_length k e cs h stack h' stack' :
  run_straight k e cs (h, stack) = Ok (h', stack') → List.length h' = List.length h.
Proof.
  revert h stack. induction cs as [|c cs IH]; intros h stack H.
  - cbn in H. by simplify_eq.
  - destruct c as [data|data| |cond|loop|opcode]; try done; cbn [run_straight fst snd] in H.
    + destruct (calculate_items k h (VRef e) data) as [kw| |]; try done.
      cbn [mbind res_bind bind] in H.
      destruct (Environment_set k h e (dict_of kw)) as [h2| |] eqn:Hset; try done.
      cbn [mbind res_bind bind] in H. rewrite (IH _ _ H).
      by eapply Environment_set_length.
    + destruct (calculate k h data (VRef e)) as [v| |]; try done.
      cbn [mbind res_bind bind] in H. by eapply IH.
Qed.

Lemma run_rounds_length k e name body xs h stack h' stack' :
  run_rounds k e name body xs (h, stack) = Ok (h', stack') →
  List.length h' = List.length h.
Proof.
  revert h stack. induction xs as [|x xs IH]; intros h stack H.
  - cbn in H. by simplify_eq.
  - cbn [run_rounds] in H.
    destruct (run_straight k e (Code_update [(name, x)] :: body) (h, stack))
      as [[h1 stack1]| |] eqn:Hround; try done.
    cbn [mbind res_bind bind] in H.
    rewrite (IH _ _ H). by eapply run_straight_length.
Qed.


(** C5 as stated fails: no environment is created for an iteration step and
    the loop variable is bound in the environment of the call, where it
    stays.  After the loop of
    [Function('f', 'x').for_(i = var.x).end.ret(var.i)] over [[1, 2, 3, 4]]
    the call environment, the only object on the heap, binds [i] to 4, and
    that is what the call returns. *)
Lemma loop_variable_persists :
  ∃ h', Function_call 3 7 loop_then_read [VList [VInt 1; VInt 2; VInt 3; VInt 4]] [] []
        = Ok (VInt 4, h')
        ∧ binding h' 0 "i" = Some (VInt 4)
        ∧ List.length h' = 1%nat.
Proof. eexists. split; [vm_compute; reflexivity|]. split; reflexivity. Qed.

(** C5, as the code has it.  A run of the dispatcher creates no
    environment at all: the heap it returns has as many objects as the one
    it started with.  An iteration step of a Loop is the instruction
    sequence that starts with the Update binding the loop variable to the
    element, and the dispatcher applies that Update to the environment of
    the call.  Nothing undoes it.  Take any Loop activated while no loop
    is waiting, over concrete values, whose loop variable is a plain key
    and whose body is made of Update and Push instructions that bind plain
    keys other than the loop variable: when its rounds have run, the
    environment of the call binds the loop variable to the last element of
    the source, and holds what it held before when the source is empty.
    So [ret(var.i)] placed after a loop with an empty body returns the last
    element of every non-empty list of concrete values. *)
Theorem loop_binds_in_call_environment :
  (∀ k n h e stack code v h',
     Function_run k n h e stack code = Ok (v, h') → List.length h' = List.length h)
  ∧ (∀ li c rest li',
       LoopIter_next li = Some (c, rest, li') →
       ∃ x, li_iterator li = x :: li_iterator li'
            ∧ c = Code_update [(li_name li, x)] ∧ rest = li_code li)
  ∧ (∀ k n h e stack code code' cls d attrs name x,
       CodeIter_next code = Some (Code_update [(name, x)], code') →
       h !! e = Some (OEnvironment cls d attrs) →
       plain_key name = true →
       isinstance_FuncBuilder x = false →
       Function_run k (S n) h e stack code
       = Function_run k n (<[e := OEnvironment cls (<[name := x]> d) attrs]> h)
                      e stack code')
  ∧ (∀ k n h e stack ci (L : Loop) rest name xs body h' stack' cls d attrs,
       idle ci →
       ci_code ci = Code_loop L :: rest →
       Loop_block_to_exec k h L (VRef e) = Ok (mkLoopIter name xs body) →
       run_rounds k e name body xs (h, stack) = Ok (h', stack') →
       h !! e = Some (OEnvironment cls d attrs) →
       plain_key name = true →
       Forall (λ x, isinstance_FuncBuilder x = false) xs →
       Forall (binds_others name) body →
       Function_run k (S (List.length xs * S (List.length body) + n)) h e stack ci
       = Function_run k n h' e stack'
           (mkCodeIter rest (Some (List.length (ci_loops ci)))
                       (ci_loops ci ++ [mkLoopIter name [] body]) AtTop)
       ∧ List.length h' = List.length h
       ∧ binding h' e name
         = match last xs with Some x => Some x | None => binding h e name end)
  ∧ (∀ xs x k n,
       Forall (λ y, isinstance_FuncBuilder y = false) (xs ++ [x]) →
       (3 ≤ k)%nat → (List.length xs + 4 ≤ n)%nat →
       ∃ h', Function_call k n loop_then_read [VList (xs ++ [x])] [] [] = Ok (x, h')
             ∧ binding h' 0 "i" = Some x
             ∧ List.length h' = 1%nat).
Proof.
  split; [|split; [|split; [|split]]].
  - apply Function_run_length.
  - intros li c rest li' H. unfold LoopIter_next in H.
    destruct (li_iterator li) as [|x it] eqn:E; [done|].
    injection H as <- <- <-. exists x. done.
  - intros k n h e stack code code' cls d attrs name x Hn He Hp Hx.
    cbn [Function_run]. rewrite Hn, (calculate_items_concrete _ _ _ _ _ Hx).
    cbn [mbind res_bind bind]. change (dict_of [(name, x)]) with [(name, x)].
    erewrite Environment_set_plain; [|done|by repeat constructor]. done.
  - intros k n h e stack ci L rest name xs body h' stack' cls d attrs
      Hidle Hcode Hblock Hrun He Hp Hxs Hbody.
    destruct (Function_run_loop k n h e stack ci L rest name xs body h' stack'
                Hidle Hcode Hblock Hrun) as [Heq _].
    destruct (run_rounds_last _ _ _ _ _ Hbody Hp Hxs _ _ _ _ _ _ _ He Hrun)
      as (d' & Hd' & Hlook).
    split; [exact Heq|]. split.
    + by eapply run_rounds_length.
    + unfold binding. by rewrite Hd', He.
  - intros xs x k n Hc Hk Hn.
    destruct (loop_then_read_returns_last xs x Hc) as (h' & Hcall & Hb & Hl).
    exists h'. split; [|done].
    eapply Function_call_enough; [exact Hcall|lia|].
    rewrite length_app. simpl. lia.
Qed.

Lemma loop_binds_in_call_environment_witness :
  List.length (snd (VInt 1, [OInstance ∅])) = List.length [OInstance ∅]
  ∧ (∃ x, li_iterator (mkLoopIter "i" [VInt 1; VInt 2] [Code_ret])
          = x :: li_iterator (mkLoopIter "i" [VInt 2] [Code_ret])
          ∧ Code_update [("i", VInt 1)] = Code_update [("i", x)]
          ∧ [Code_ret] = [Code_ret])
  ∧ Function_run 0 1 xyz_heap 0 []
      (mkCodeIter [] None [] (InFor 0 [Code_update [("i", VInt 1)]]))
    = Function_run 0 0
        (<[0%nat := OEnvironment EnvironmentCls
            (<["i" := VInt 1]>
               (<["x" := VInt 2]> (<["y" := VInt 3]> (<["z" := VInt 4]> ∅))))
            {[ "last" := VUdef ]}]> xyz_heap)
        0 [] (mkCodeIter [] None [] (InFor 0 []))
  ∧ (∃ h', Function_run 4 (S (3 * 2 + 2))
             (bar_heap (VList [VInt 1; VInt 2; VInt 3]) 0 None) 0 []
             (mkCodeIter (tail (Function_code bar)) None [] AtTop)
           = Function_run 4 2 h' 0 []
               (mkCodeIter (tail (tail (Function_code bar))) (Some 0%nat)
                           ([] ++ [mkLoopIter "i" [] bar_body]) AtTop)
           ∧ List.length h' = 1%nat
           ∧ binding h' 0 "i" = Some (VInt 3)
           ∧ binding h' 0 "w" = Some (VInt 14))
  ∧ ∃ h', Function_call 3 5 loop_then_read [VList ([VInt 1] ++ [VInt 2])] [] []
          = Ok (VInt 2, h')
          ∧ binding h' 0 "i" = Some (VInt 2)
          ∧ List.length h' = 1%nat.
Proof.
  destruct loop_binds_in_call_environment as (H1 & H2 & H3 & H4 & H5).
  split; [|split; [|split; [|split]]].
  - apply (H1 0%nat 2%nat [OInstance ∅] 0%nat [VInt 1]
              (CodeIter_init [Code_ret]) (VInt 1)). reflexivity.
  - apply (H2 (mkLoopIter "i" [VInt 1; VInt 2] [Code_ret])). reflexivity.
  - apply H3; reflexivity.
  - destruct (run_rounds 4 0 "i" bar_body [VInt 1; VInt 2; VInt 3]
                (bar_heap (VList [VInt 1; VInt 2; VInt 3]) 0 None, []))
      as [[h' stack']| |] eqn:Hrun; [|by vm_compute in Hrun..].
    exists h'.
    edestruct (H4 4%nat 2%nat (bar_heap (VList [VInt 1; VInt 2; VInt 3]) 0 None) 0%nat []
                (mkCodeIter (tail (Function_code bar)) None [] AtTop)
                (mkLoop [("i", VFB (var_ "x"))] bar_body)
                (tail (tail (Function_code bar))) "i" [VInt 1; VInt 2; VInt 3] bar_body
                h' stack')
      as (Heq & Hlen & Hb).
    + split; [done|]. intros l li Hl. done.
    + reflexivity.
    + vm_compute. reflexivity.
    + exact Hrun.
    + reflexivity.
    + reflexivity.
    + repeat constructor.
    + repeat constructor; done.
    + vm_compute in Hrun. injection Hrun as <- <-.
      split; [exact Heq|]. split; [exact Hlen|]. split; [exact Hb|]. vm_compute. reflexivity.
  - apply H5; [repeat constructor|lia|simpl; lia].
Defined.

(** ** A condition in the body of a loop *)

(** C3, at the calls [pick([1, 2])] and [mark([1])].  In [pick] the loop
    body is a condition on [i == 1] whose body binds [w] to [i], and
    [ret(var.w)] follows the loop: the first round selects the body, so
    the call should return 1.  The body selected is put in front of what
    is left of the code of the function, not of the round being run: it
    waits there until the loop is over and runs with [i] bound to the
    last element, and the call returns 2.  In [mark] the condition on [i]
    binds [w] to 1 and [ret(var.w)] follows it in the loop body: the call
    should return 1; the Return runs before the body selected ever does,
    and the call returns 0. *)
Theorem Condition_in_loop_runs_late :
  (∃ h0 hm h',
     Function_bind 4 pick [VList [VInt 1; VInt 2]] [] [] = Ok (0%nat, h0)
     ∧ exec_suite 4 0 pick_suite h0 = Ok (Returned (VInt 1) hm)
     ∧ (∀ k n, (4 ≤ k)%nat → (9 ≤ n)%nat →
          Function_call k n pick [VList [VInt 1; VInt 2]] [] [] = Ok (VInt 2, h'))
     ∧ binding h' 0 "w" = Some (VInt 2))
  ∧ (∃ h0 hm h',
       Function_bind 4 mark [VList [VInt 1]] [] [] = Ok (0%nat, h0)
       ∧ exec_suite 4 0 mark_suite h0 = Ok (Returned (VInt 1) hm)
       ∧ (∀ k n, (4 ≤ k)%nat → (6 ≤ n)%nat →
            Function_call k n mark [VList [VInt 1]] [] [] = Ok (VInt 0, h'))
       ∧ binding h' 0 "w" = Some (VInt 0)).
Proof.
  split.
  - eexists _, _, _. split; [vm_compute; reflexivity|].
    split; [vm_compute; reflexivity|]. split.
    + intros k n Hk Hn. eapply (Function_call_enough 4 9); [vm_compute; reflexivity|lia..].
    + vm_compute. reflexivity.
  - eexists _, _, _. split; [vm_compute; reflexivity|].
    split; [vm_compute; reflexivity|]. split.
    + intros k n Hk Hn. eapply (Function_call_enough 4 6); [vm_compute; reflexivity|lia..].
    + vm_compute. reflexivity.
Qed.
